(** * Snake game: AI decision engine and multi-snake simulation loop

    A shallow embedding of the Python sources

      - [src/entities/grid.py]   (SquareCoord, HexCoord, Grid)
      - [src/entities/snake.py]  (Direction, Snake)
      - [src/entities/food.py]   (Food)
      - [src/ai/ai_snake.py]     (AISnake)
      - [src/ai/behavior.py]     (behaviour trees, DecisionContext)
      - [src/ai/pathfinding.py]  (PathNode, PathFinder, HexPathFinder)
      - [src/ai/multi_snake.py]  (MultiSnakeGame, MultiSnakeGameFactory)

    Python integers are unbounded and are modelled by [Z]; Python floats
    that only carry configuration values (difficulty, delays, rates, game
    time) are modelled by exact rationals [Q].  Dictionaries whose
    iteration order is observable are association lists in insertion
    order; sets are [gset]s, and where the game lists its set of active
    ids the order comes from outside ([py_list_of_set]). *)

From stdpp Require Import gmap strings list sorting pretty.
From Stdlib Require Import ZArith QArith Lia.

Local Open Scope Z_scope.

(** ** Coordinates ([grid.py], class [SquareCoord]) *)

(** A [SquareCoord] is a pair of integers compared and hashed by value. *)
Abbreviation SquareCoord := (Z * Z)%type.

Definition coord_x (c : SquareCoord) : Z := fst c.
Definition coord_y (c : SquareCoord) : Z := snd c.

(** ** Directions ([snake.py], class [Direction]) *)

Inductive Direction : Type := UP | DOWN | LEFT | RIGHT.

#[global] Instance Direction_eq_dec : EqDecision Direction.
Proof. solve_decision. Defined.

Definition get_dx_dy (d : Direction) : Z * Z :=
  match d with
  | UP => (0, -1)
  | DOWN => (0, 1)
  | LEFT => (-1, 0)
  | RIGHT => (1, 0)
  end.

(** The 180-degree reversal of a direction (used by the statements only). *)
Definition opposite (d : Direction) : Direction :=
  match d with
  | UP => DOWN
  | DOWN => UP
  | LEFT => RIGHT
  | RIGHT => LEFT
  end.

(** ** AI attributes ([ai_snake.py], class [AISnake]) *)

Inductive AIPersonality : Type := AGGRESSIVE | CAUTIOUS | BALANCED | RANDOM.

(** The personality and the numeric tuning attributes an [AISnake] adds
    to a [Snake].  The cached path, the target and the timing state only
    feed the decision procedure, whose outcome is taken from the
    environment below (see [update_ai]). *)
Record AIAttrs : Type := mkAIAttrs {
  personality : AIPersonality;
  difficulty : Q;
  decision_delay : Q;
  mistake_chance : Q
}.

(** Python's [max(a, b)] returns [b] only when [b > a]; [min(a, b)]
    returns [b] only when [b < a]. *)
Definition py_max (a b : Q) : Q := if Qlt_le_dec a b then b else a.
Definition py_min (a b : Q) : Q := if Qlt_le_dec b a then b else a.

(** [max(0.1, min(1.0, difficulty))] *)
Definition clamp_difficulty (d : Q) : Q :=
  py_max (1 # 10) (py_min 1 d).

(** The attribute assignments of [AISnake.__init__]. *)
Definition AISnake_init_attrs (p : AIPersonality) (d : Q) : AIAttrs :=
  {| personality := p;
     difficulty := clamp_difficulty d;
     decision_delay := 1 # 10;
     mistake_chance := (1 - d)%Q |}.

(** [AISnake.set_difficulty] *)
Definition set_difficulty (d : Q) (a : AIAttrs) : AIAttrs :=
  let d' := clamp_difficulty d in
  {| personality := personality a;
     difficulty := d';
     decision_delay := ((2 # 10) - d' * (15 # 100))%Q;
     mistake_chance := (1 - d')%Q |}.

(** ** Snakes ([snake.py], class [Snake]) *)

Record Snake : Type := mkSnake {
  segments : list SquareCoord;
  direction : Direction;
  next_direction : Direction;
  growth_pending : Z;
  snake_id : string;
  (** [Some _] exactly for instances of [AISnake] *)
  ai_attrs : option AIAttrs
}.

Definition with_next_direction (d : Direction) (s : Snake) : Snake :=
  mkSnake (segments s) (direction s) d (growth_pending s)
          (snake_id s) (ai_attrs s).

Definition with_growth_pending (n : Z) (s : Snake) : Snake :=
  mkSnake (segments s) (direction s) (next_direction s) n
          (snake_id s) (ai_attrs s).

(** [Snake._create_initial_segments]: head first, [length] cells laid out
    against the direction of travel. *)
Definition create_initial_segments (start : SquareCoord) (d : Direction)
    (length : nat) : list SquareCoord :=
  let '(dx, dy) := get_dx_dy d in
  (fun i : nat => (coord_x start - dx * Z.of_nat i,
                   coord_y start - dy * Z.of_nat i)) <$> seq 0 length.

(** [Snake.__init__] followed by the [snake_id] assignment of the caller. *)
Definition Snake_init (start : SquareCoord) (d : Direction) (sid : string)
    (attrs : option AIAttrs) : Snake :=
  {| segments := create_initial_segments start d 3;
     direction := d;
     next_direction := d;
     growth_pending := 0;
     snake_id := sid;
     ai_attrs := attrs |}.

(** [AISnake.__init__] *)
Definition AISnake_init (start : SquareCoord) (start_direction : Direction)
    (p : AIPersonality) (d : Q) (sid : string) : Snake :=
  Snake_init start start_direction sid (Some (AISnake_init_attrs p d)).

Definition get_head (s : Snake) : option SquareCoord := head (segments s).

Definition get_segments (s : Snake) : list SquareCoord := segments s.

(** [Snake.set_direction]: the updated snake and the returned flag. *)
Definition set_direction (new_direction : Direction) (s : Snake)
    : Snake * bool :=
  let '(dx, dy) := get_dx_dy (direction s) in
  let '(new_dx, new_dy) := get_dx_dy new_direction in
  if (dx + new_dx =? 0) && (dy + new_dy =? 0)
  then (s, false)
  else (with_next_direction new_direction s, true).

(** [list.pop()] on a non-empty list: the list without its last element
    and that element. *)
Definition list_pop {A} (l : list A) : option (list A * A) :=
  match last l with
  | Some a => Some (removelast l, a)
  | None => None
  end.

(** [Snake.move]: the updated snake and the returned value (the vacated
    tail, or [None] while growing or for a snake without segments). *)
Definition Snake_move (s : Snake) : Snake * option SquareCoord :=
  match get_head s with
  | None => (s, None)
  | Some hd =>
      let d := next_direction s in
      let '(dx, dy) := get_dx_dy d in
      let new_head := (coord_x hd + dx, coord_y hd + dy) in
      let segs := new_head :: segments s in
      if 0 <? growth_pending s
      then (mkSnake segs d d (growth_pending s - 1) (snake_id s) (ai_attrs s),
            None)
      else match list_pop segs with
           | Some (segs', tl) =>
               (mkSnake segs' d d (growth_pending s) (snake_id s) (ai_attrs s),
                Some tl)
           | None => (s, None)
           end
  end.

(** [Snake.grow] with its default amount 1. *)
Definition grow (s : Snake) : Snake :=
  with_growth_pending (growth_pending s + 1) s.

(** [Snake.check_self_collision] *)
Definition check_self_collision (s : Snake) : bool :=
  if (length (segments s) <? 4)%nat then false
  else match segments s with
       | hd :: body => bool_decide (hd ∈ body)
       | [] => false
       end.

(** [Snake.occupies_position] *)
Definition occupies_position (c : SquareCoord) (s : Snake) : bool :=
  bool_decide (c ∈ segments s).

(** ** The grid ([grid.py], class [Grid]) *)

Record Grid : Type := mkGrid {
  width : Z;
  height : Z;
  occupied_cells : gset (Z * Z)
}.

Definition Grid_init (w h : Z) : Grid := mkGrid w h ∅.

Definition is_valid_position (g : Grid) (c : SquareCoord) : bool :=
  (0 <=? coord_x c) && (coord_x c <? width g) &&
  (0 <=? coord_y c) && (coord_y c <? height g).

Definition is_occupied (g : Grid) (c : SquareCoord) : bool :=
  bool_decide (c ∈ occupied_cells g).

Definition occupy (c : SquareCoord) (g : Grid) : Grid :=
  mkGrid (width g) (height g) ({[c]} ∪ occupied_cells g).

Definition vacate (c : SquareCoord) (g : Grid) : Grid :=
  mkGrid (width g) (height g) (occupied_cells g ∖ {[c]}).

(** [range(n)] for an integer bound. *)
Definition zrange (n : Z) : list Z := Z.of_nat <$> seq 0 (Z.to_nat n).

(** The list [empty_cells] built by [Grid.get_random_empty_cell], in its
    order of construction (x outer, y inner). *)
Definition empty_cells (g : Grid) : list SquareCoord :=
  x ← zrange (width g);
  y ← zrange (height g);
  if is_occupied g (x, y) then [] else [(x, y)].

(** [Grid.get_random_empty_cell]; [pick] is the index drawn by
    [random.choice], reduced modulo the number of candidates. *)
Definition get_random_empty_cell (g : Grid) (pick : nat)
    : option SquareCoord :=
  if Z.of_nat (size (occupied_cells g)) >=? width g * height g then None
  else
    let cells := empty_cells g in
    match cells with
    | [] => None
    | _ => cells !! (pick mod length cells)%nat
    end.

(** [Grid.get_neighbors]: in-bounds cells up, down, left, right. *)
Definition get_neighbors (g : Grid) (c : SquareCoord) : list SquareCoord :=
  filter (fun n => is_valid_position g n = true)
         ((fun d : Z * Z => (coord_x c + fst d, coord_y c + snd d))
            <$> [(0, -1); (0, 1); (-1, 0); (1, 0)]).

(** ** Danger cells ([ai_snake.py], [AISnake._get_danger_positions]) *)

(** [range(-1, 2)] *)
Definition offsets : list Z := [-1; 0; 1].

(** The cells appended for one obstacle. *)
Definition danger_around (obstacles : gset (Z * Z)) (o : SquareCoord)
    : list SquareCoord :=
  dx ← offsets;
  dy ← offsets;
  let danger_pos := (coord_x o + dx, coord_y o + dy) in
  if bool_decide (danger_pos ∈ obstacles) then [] else [danger_pos].

(** The loop over the obstacle set; a set is visited in the order of
    its [elements]. *)
Definition get_danger_positions (obstacles : gset (Z * Z))
    : list SquareCoord :=
  o ← elements obstacles; danger_around obstacles o.

(** Adjacency including diagonals: Chebyshev distance exactly one. *)
Definition adjacent8 (a b : SquareCoord) : Prop :=
  Z.max (Z.abs (coord_x a - coord_x b)) (Z.abs (coord_y a - coord_y b)) = 1.

(** ** Outcomes of calls that loop or may raise *)

(** A call either returns a value, raises an exception, or is still
    running when the iteration budget of the model is used up. *)
Inductive outcome (A : Type) : Type :=
  | Returned (a : A)
  | Raised
  | OutOfFuel.

Arguments Returned {A} a.
Arguments Raised {A}.
Arguments OutOfFuel {A}.

#[global] Instance outcome_ret : MRet outcome := fun A a => Returned a.

#[global] Instance outcome_bind : MBind outcome := fun A B k m =>
  match m with
  | Returned a => k a
  | Raised => Raised
  | OutOfFuel => OutOfFuel
  end.

(** A [for] loop whose body may raise. *)
Fixpoint for_each {A S} (body : S -> A -> outcome S) (s : S) (l : list A)
    : outcome S :=
  match l with
  | [] => Returned s
  | a :: l' => s' ← body s a; for_each body s' l'
  end.

(** ** Binary heaps (Python's [heapq], as used by [PathFinder]) *)

(** [heapq.heappush] and [heapq.heappop] on a Python list, following the
    library's [_siftdown] and [_siftup]; [lt] is the [__lt__] of the
    items. *)
Section Heapq.
Context {A : Type} (lt : A -> A -> bool).

(** The [while pos > startpos] loop of [_siftdown]; [pos] strictly
    decreases, so [pos] iterations are enough. *)
Fixpoint siftdown_loop (n : nat) (heap : list A) (startpos pos : nat)
    (newitem : A) : list A :=
  match n with
  | O => <[pos := newitem]> heap
  | S n' =>
      if (startpos <? pos)%nat then
        let parentpos := Nat.div2 (pos - 1) in
        match heap !! parentpos with
        | Some parent =>
            if lt newitem parent
            then siftdown_loop n' (<[pos := parent]> heap)
                               startpos parentpos newitem
            else <[pos := newitem]> heap
        | None => <[pos := newitem]> heap
        end
      else <[pos := newitem]> heap
  end.

Definition siftdown (heap : list A) (startpos pos : nat) : list A :=
  match heap !! pos with
  | Some newitem => siftdown_loop pos heap startpos pos newitem
  | None => heap
  end.

(** The [while childpos < endpos] loop of [_siftup]: the smaller child
    is moved up until a leaf is reached; returns the list and the
    final [pos]. *)
Fixpoint siftup_loop (n : nat) (heap : list A) (pos : nat)
    : list A * nat :=
  match n with
  | O => (heap, pos)
  | S n' =>
      let endpos := length heap in
      let childpos := (2 * pos + 1)%nat in
      if (childpos <? endpos)%nat then
        let rightpos := (childpos + 1)%nat in
        let childpos' :=
          match heap !! childpos, heap !! rightpos with
          | Some l, Some r => if lt l r then childpos else rightpos
          | _, _ => childpos
          end in
        match heap !! childpos' with
        | Some c => siftup_loop n' (<[pos := c]> heap) childpos'
        | None => (heap, pos)
        end
      else (heap, pos)
  end.

Definition siftup (heap : list A) (pos : nat) : list A :=
  match heap !! pos with
  | Some newitem =>
      let '(heap', pos') := siftup_loop (length heap) heap pos in
      siftdown (<[pos' := newitem]> heap') pos pos'
  | None => heap
  end.

Definition heappush (heap : list A) (item : A) : list A :=
  siftdown (heap ++ [item]) 0 (length heap).

(** [None] stands for the [IndexError] of popping an empty heap. *)
Definition heappop (heap : list A) : option (list A * A) :=
  match list_pop heap with
  | None => None
  | Some (heap', lastelt) =>
      match heap' with
      | [] => Some ([], lastelt)
      | returnitem :: _ => Some (siftup (<[0%nat := lastelt]> heap') 0, returnitem)
      end
  end.
End Heapq.

(** ** Path finding ([pathfinding.py]) *)

(** A [PathNode]; its [position] is the key under which [all_nodes]
    holds it, and [parent] refers to another node by that key. *)
Record PathNode : Type := mkPathNode {
  g_cost : Z;
  h_cost : Z;
  f_cost : Z;
  parent : option (Z * Z)
}.

(** [PathNode.__init__] *)
Definition PathNode_init (g h : Z) (par : option (Z * Z)) : PathNode :=
  mkPathNode g h (g + h) par.

(** [PathFinder._heuristic]: Manhattan distance. *)
Definition heuristic (pos1 pos2 : SquareCoord) : Z :=
  Z.abs (coord_x pos1 - coord_x pos2) + Z.abs (coord_y pos1 - coord_y pos2).

(** The state of the A* loop.  There is one node object per position;
    [open_set] holds references to node objects, so the heap sees every
    later change of a node's [f_cost]. *)
Record AStar : Type := mkAStar {
  open_set : list (Z * Z);
  closed_set : gset (Z * Z);
  all_nodes : gmap (Z * Z) PathNode
}.

(** Dereference of a node reference; every reference in [open_set] was
    stored in [all_nodes] first, so the fallback is never used. *)
Definition node_at (nodes : gmap (Z * Z) PathNode) (p : Z * Z) : PathNode :=
  default (mkPathNode 0 0 0 None) (nodes !! p).

(** [PathNode.__lt__] on two references. *)
Definition node_lt (nodes : gmap (Z * Z) PathNode) (a b : Z * Z) : bool :=
  f_cost (node_at nodes a) <? f_cost (node_at nodes b).

(** The body of [for neighbor in neighbors]. *)
Definition visit_neighbor (goal : SquareCoord) (obstacles : gset (Z * Z))
    (current : Z * Z) (st : AStar) (neighbor : SquareCoord) : AStar :=
  if bool_decide (neighbor ∈ closed_set st)
     || bool_decide (neighbor ∈ obstacles)
  then st
  else
    let g := g_cost (node_at (all_nodes st) current) + 1 in
    let h := heuristic neighbor goal in
    match all_nodes st !! neighbor with
    | None =>
        let nodes' := <[neighbor := PathNode_init g h (Some current)]>
                        (all_nodes st) in
        mkAStar (heappush (node_lt nodes') (open_set st) neighbor)
                (closed_set st) nodes'
    | Some neighbor_node =>
        if g <? g_cost neighbor_node then
          let nodes' :=
            <[neighbor := mkPathNode g (h_cost neighbor_node) (g + h)
                                     (Some current)]> (all_nodes st) in
          mkAStar (heappush (node_lt nodes') (open_set st) neighbor)
                  (closed_set st) nodes'
        else st
    end.

(** [PathFinder._reconstruct_path], before the final reversal: the
    positions from the node back to the start. *)
Fixpoint reconstruct_path_loop (fuel : nat) (nodes : gmap (Z * Z) PathNode)
    (current : option (Z * Z)) (path : list SquareCoord)
    : outcome (list SquareCoord) :=
  match current with
  | None => Returned path
  | Some p =>
      match fuel with
      | O => OutOfFuel
      | S fuel' =>
          reconstruct_path_loop fuel' nodes (parent (node_at nodes p))
                                (path ++ [p])
      end
  end.

Definition reconstruct_path (fuel : nat) (nodes : gmap (Z * Z) PathNode)
    (node : Z * Z) : outcome (list SquareCoord) :=
  path ← reconstruct_path_loop fuel nodes (Some node) [];
  Returned (reverse path).

(** The [while open_set] loop of [find_path_astar], one iteration per
    unit of fuel.  The walk back along the parents is given one step per
    node and one more, which is enough unless it runs in a cycle. *)
Fixpoint astar_loop (fuel : nat) (grid : Grid) (goal : SquareCoord)
    (obstacles : gset (Z * Z)) (st : AStar)
    : outcome (option (list SquareCoord)) :=
  match open_set st with
  | [] => Returned None
  | _ :: _ =>
      match fuel with
      | O => OutOfFuel
      | S fuel' =>
          match heappop (node_lt (all_nodes st)) (open_set st) with
          | None => Raised
          | Some (open', current) =>
              if decide (current = goal) then
                path ← reconstruct_path (S (size (all_nodes st)))
                                        (all_nodes st) current;
                Returned (Some path)
              else
                let st1 := mkAStar open' ({[current]} ∪ closed_set st)
                                   (all_nodes st) in
                astar_loop fuel' grid goal obstacles
                  (foldl (visit_neighbor goal obstacles current) st1
                         (get_neighbors grid current))
          end
      end
  end.

(** [PathFinder.find_path_astar] *)
Definition find_path_astar (fuel : nat) (grid : Grid)
    (start goal : SquareCoord) (obstacles : gset (Z * Z))
    : outcome (option (list SquareCoord)) :=
  if negb (is_valid_position grid start)
     || negb (is_valid_position grid goal)
  then Returned None
  else if bool_decide (start ∈ obstacles) || bool_decide (goal ∈ obstacles)
  then Returned None
  else
    let nodes : gmap (Z * Z) PathNode :=
      {[start := PathNode_init 0 (heuristic start goal) None]} in
    astar_loop fuel grid goal obstacles
      (mkAStar (heappush (node_lt nodes) [] start) ∅ nodes).

(** *** Reference notions for paths *)

(** Two cells joined by an edge of the square grid. *)
Definition adjacent4 (a b : SquareCoord) : bool :=
  Z.abs (coord_x a - coord_x b) + Z.abs (coord_y a - coord_y b) =? 1.

(** A cell of the filtered graph: in bounds and not an obstacle. *)
Definition free_cell (grid : Grid) (obstacles : gset (Z * Z))
    (c : SquareCoord) : bool :=
  is_valid_position grid c && negb (bool_decide (c ∈ obstacles)).

Fixpoint chain (p : list SquareCoord) : bool :=
  match p with
  | a :: (b :: _) as p' => adjacent4 a b && chain p'
  | _ => true
  end.

(** A walk of the filtered graph from [start] to [goal] inclusive. *)
Definition is_path (grid : Grid) (obstacles : gset (Z * Z))
    (start goal : SquareCoord) (p : list SquareCoord) : bool :=
  bool_decide (head p = Some start) && bool_decide (last p = Some goal)
  && forallb (free_cell grid obstacles) p && chain p.

(** Breadth-first search on the filtered graph: [frontier] holds the
    cells at distance [d]; the result is the distance of [goal]. *)
Fixpoint bfs_loop (fuel : nat) (grid : Grid) (obstacles : gset (Z * Z))
    (goal : SquareCoord) (seen : gset (Z * Z)) (frontier : list SquareCoord)
    (d : nat) : option nat :=
  if bool_decide (goal ∈ frontier) then Some d
  else match fuel with
       | O => None
       | S fuel' =>
           let next :=
             remove_dups
               (filter (fun n => (n ∉ seen) ∧ (n ∉ obstacles))
                       (frontier ≫= get_neighbors grid)) in
           match next with
           | [] => None
           | _ => bfs_loop fuel' grid obstacles goal
                           (list_to_set next ∪ seen) next (S d)
           end
       end.

(** The number of edges of a shortest path, by breadth-first search. *)
Definition bfs_distance (grid : Grid) (obstacles : gset (Z * Z))
    (start goal : SquareCoord) : option nat :=
  if free_cell grid obstacles start && free_cell grid obstacles goal
  then bfs_loop (Z.to_nat (width grid * height grid)) grid obstacles goal
                {[start]} [start] 0
  else None.

(** ** The multi-snake game ([multi_snake.py]) *)

Inductive GameMode : Type := SURVIVAL | SCORE_RACE | FREE_FOR_ALL | COOPERATIVE.

Inductive CollisionType : Type := WALL | SELF | SNAKE | FOOD.

(** A [CollisionEvent], without its wall-clock [timestamp] and the
    [name] derived from it. *)
Record CollisionEvent : Type := mkEvent {
  ev_snake_id : string;
  collision_type : CollisionType;
  ev_position : SquareCoord;
  other_snake_id : option string
}.

(** [food.py], class [Food]. *)
Record Food : Type := mkFood {
  position : SquareCoord;
  food_type : string;
  point_value : Z
}.

(** [Food.spawn_food] with its default type and value. *)
Definition spawn_food (g : Grid) (pick : nat) : option Food :=
  match get_random_empty_cell g pick with
  | None => None
  | Some empty_position => Some (mkFood empty_position "apple" 10)
  end.

Record MultiSnakeGame : Type := mkGame {
  grid : Grid;
  game_mode : GameMode;
  (** the dict [snakes], in insertion order *)
  snakes : list (string * Snake);
  food_items : list Food;
  collision_events : list CollisionEvent;
  game_time : Q;
  time_limit : option Q;
  scores : gmap string Z;
  active_snakes : gset string;
  eliminated_snakes : gset string;
  max_food_items : Z;
  food_spawn_rate : Q
}.

(** [MultiSnakeGame.__init__] *)
Definition MultiSnakeGame_init (g : Grid) (mode : GameMode) : MultiSnakeGame :=
  {| grid := g;
     game_mode := mode;
     snakes := [];
     food_items := [];
     collision_events := [];
     game_time := 0;
     time_limit := None;
     scores := ∅;
     active_snakes := ∅;
     eliminated_snakes := ∅;
     max_food_items := 5;
     food_spawn_rate := 1 # 10 |}.

(** Field updates. *)
Definition set_grid (x : Grid) (m : MultiSnakeGame) : MultiSnakeGame :=
  mkGame x (game_mode m) (snakes m) (food_items m) (collision_events m)
         (game_time m) (time_limit m) (scores m) (active_snakes m)
         (eliminated_snakes m) (max_food_items m) (food_spawn_rate m).

Definition set_snakes (x : list (string * Snake)) (m : MultiSnakeGame)
    : MultiSnakeGame :=
  mkGame (grid m) (game_mode m) x (food_items m) (collision_events m)
         (game_time m) (time_limit m) (scores m) (active_snakes m)
         (eliminated_snakes m) (max_food_items m) (food_spawn_rate m).

Definition set_food_items (x : list Food) (m : MultiSnakeGame)
    : MultiSnakeGame :=
  mkGame (grid m) (game_mode m) (snakes m) x (collision_events m)
         (game_time m) (time_limit m) (scores m) (active_snakes m)
         (eliminated_snakes m) (max_food_items m) (food_spawn_rate m).

Definition set_collision_events (x : list CollisionEvent) (m : MultiSnakeGame)
    : MultiSnakeGame :=
  mkGame (grid m) (game_mode m) (snakes m) (food_items m) x
         (game_time m) (time_limit m) (scores m) (active_snakes m)
         (eliminated_snakes m) (max_food_items m) (food_spawn_rate m).

Definition set_game_time (x : Q) (m : MultiSnakeGame) : MultiSnakeGame :=
  mkGame (grid m) (game_mode m) (snakes m) (food_items m) (collision_events m)
         x (time_limit m) (scores m) (active_snakes m)
         (eliminated_snakes m) (max_food_items m) (food_spawn_rate m).

Definition set_scores (x : gmap string Z) (m : MultiSnakeGame)
    : MultiSnakeGame :=
  mkGame (grid m) (game_mode m) (snakes m) (food_items m) (collision_events m)
         (game_time m) (time_limit m) x (active_snakes m)
         (eliminated_snakes m) (max_food_items m) (food_spawn_rate m).

Definition set_active_eliminated (a e : gset string) (m : MultiSnakeGame)
    : MultiSnakeGame :=
  mkGame (grid m) (game_mode m) (snakes m) (food_items m) (collision_events m)
         (game_time m) (time_limit m) (scores m) a e
         (max_food_items m) (food_spawn_rate m).

(** [MultiSnakeGame.set_food_spawn_rate]: the rate clamped to [0, 1]. *)
Definition set_food_spawn_rate (spawn_rate : Q) (m : MultiSnakeGame)
    : MultiSnakeGame :=
  mkGame (grid m) (game_mode m) (snakes m) (food_items m) (collision_events m)
         (game_time m) (time_limit m) (scores m) (active_snakes m)
         (eliminated_snakes m) (max_food_items m)
         (py_max 0 (py_min 1 spawn_rate)).

(** [MultiSnakeGame.set_max_food]: at least one food item. *)
Definition set_max_food (max_food : Z) (m : MultiSnakeGame) : MultiSnakeGame :=
  mkGame (grid m) (game_mode m) (snakes m) (food_items m) (collision_events m)
         (game_time m) (time_limit m) (scores m) (active_snakes m)
         (eliminated_snakes m) (Z.max 1 max_food) (food_spawn_rate m).

(** [MultiSnakeGame.set_time_limit] *)
Definition set_time_limit (limit : Q) (m : MultiSnakeGame) : MultiSnakeGame :=
  mkGame (grid m) (game_mode m) (snakes m) (food_items m) (collision_events m)
         (game_time m) (Some limit) (scores m) (active_snakes m)
         (eliminated_snakes m) (max_food_items m) (food_spawn_rate m).

(** [self.snakes[snake_id]] and [snake_id in self.snakes]. *)
Fixpoint snakes_lookup (sid : string) (l : list (string * Snake))
    : option Snake :=
  match l with
  | [] => None
  | (k, s) :: l' => if decide (k = sid) then Some s else snakes_lookup sid l'
  end.

Definition snakes_has (sid : string) (l : list (string * Snake)) : bool :=
  bool_decide (is_Some (snakes_lookup sid l)).

(** A mutation of the snake object stored under [sid]. *)
Definition snakes_alter (f : Snake -> Snake) (sid : string)
    (l : list (string * Snake)) : list (string * Snake) :=
  (fun kv : string * Snake =>
     if decide (kv.1 = sid) then (kv.1, f kv.2) else kv) <$> l.

(** [MultiSnakeGame.add_player_snake]: the new state and the returned flag. *)
Definition add_player_snake (sid : string) (start_position : SquareCoord)
    (start_direction : Direction) (m : MultiSnakeGame)
    : MultiSnakeGame * bool :=
  if snakes_has sid (snakes m) then (m, false)
  else if negb (is_valid_position (grid m) start_position) then (m, false)
  else
    let snake := Snake_init start_position start_direction sid None in
    (set_active_eliminated ({[sid]} ∪ active_snakes m) (eliminated_snakes m)
       (set_scores (<[sid := 0]> (scores m))
          (set_snakes (snakes m ++ [(sid, snake)]) m)),
     true).

(** [MultiSnakeGame.add_ai_snake]; the snake is built with the default
    start direction, [RIGHT]. *)
Definition add_ai_snake (sid : string) (start_position : SquareCoord)
    (p : AIPersonality) (d : Q) (m : MultiSnakeGame)
    : MultiSnakeGame * bool :=
  if snakes_has sid (snakes m) then (m, false)
  else if negb (is_valid_position (grid m) start_position) then (m, false)
  else
    let ai_snake := AISnake_init start_position RIGHT p d sid in
    (set_active_eliminated ({[sid]} ∪ active_snakes m) (eliminated_snakes m)
       (set_scores (<[sid := 0]> (scores m))
          (set_snakes (snakes m ++ [(sid, ai_snake)]) m)),
     true).

(** [MultiSnakeGame.remove_snake] *)
Definition remove_snake (sid : string) (m : MultiSnakeGame)
    : MultiSnakeGame * bool :=
  if negb (snakes_has sid (snakes m)) then (m, false)
  else
    (set_active_eliminated (active_snakes m ∖ {[sid]})
                           ({[sid]} ∪ eliminated_snakes m) m,
     true).

(** [MultiSnakeGame._handle_snake_elimination]; the lookup of the snake
    raises [KeyError] for an unknown id, after the two sets were updated. *)
Definition handle_snake_elimination (sid : string) (m : MultiSnakeGame)
    : outcome MultiSnakeGame :=
  let m1 := set_active_eliminated (active_snakes m ∖ {[sid]})
                                  ({[sid]} ∪ eliminated_snakes m) m in
  match snakes_lookup sid (snakes m1) with
  | None => Raised
  | Some snake =>
      Returned (set_grid (foldl (fun g seg => vacate seg g) (grid m1)
                                (get_segments snake)) m1)
  end.

(** [MultiSnakeGame._handle_snake_collision] *)
Definition handle_snake_collision (snake1_id snake2_id : string)
    (collision_pos : SquareCoord) (m : MultiSnakeGame)
    : outcome MultiSnakeGame :=
  match game_mode m with
  | SURVIVAL =>
      m1 ← handle_snake_elimination snake1_id m;
      handle_snake_elimination snake2_id m1
  | FREE_FOR_ALL =>
      match snakes_lookup snake1_id (snakes m) with
      | None => Raised
      | Some s1 =>
          if bool_decide (get_head s1 = Some collision_pos)
          then handle_snake_elimination snake1_id m
          else Returned m
      end
  | COOPERATIVE => Returned m
  | SCORE_RACE => Returned m
  end.

(** The loop of [_handle_snake_movement] over [self.snakes.items()]. *)
Definition snake_collision_step (sid : string) (hd : SquareCoord)
    (acc : MultiSnakeGame * list CollisionEvent) (kv : string * Snake)
    : outcome (MultiSnakeGame * list CollisionEvent) :=
  let '(m, events) := acc in
  let '(other_id, other_snake) := kv in
  if bool_decide (other_id ≠ sid) && occupies_position hd other_snake then
    m' ← handle_snake_collision sid other_id hd m;
    Returned (m', events ++ [mkEvent sid SNAKE hd (Some other_id)])
  else Returned acc.

(** [MultiSnakeGame._handle_snake_movement] *)
Definition handle_snake_movement (sid : string) (snake : Snake)
    (tail_position : option SquareCoord) (m : MultiSnakeGame)
    : outcome (MultiSnakeGame * list CollisionEvent) :=
  match get_head snake with
  | None => Returned (m, [])
  | Some hd =>
      if negb (is_valid_position (grid m) hd) then
        m' ← handle_snake_elimination sid m;
        Returned (m', [mkEvent sid WALL hd None])
      else if check_self_collision snake then
        m' ← handle_snake_elimination sid m;
        Returned (m', [mkEvent sid SELF hd None])
      else
        '(m1, events) ← for_each (snake_collision_step sid hd) (m, [])
                                 (snakes m);
        let g1 := match tail_position with
                  | Some tl => vacate tl (grid m1)
                  | None => grid m1
                  end in
        Returned (set_grid (occupy hd g1) m1, events)
  end.

(** The inner loop of [_check_food_collisions]: the first snake, in the
    order of the dict, that is active and has its head on the food. *)
Definition find_eater (m : MultiSnakeGame) (food : Food)
    : option (string * Snake) :=
  find (fun kv : string * Snake =>
          bool_decide (kv.1 ∈ active_snakes m)
          && bool_decide (get_head kv.2 = Some (position food)))
       (snakes m).

(** The state of the outer loop: the game, the events, and
    [food_to_remove] as references into [food_items] (a food object is
    identified by its index in the list the loop runs over). *)
Definition food_step (acc : MultiSnakeGame * list CollisionEvent * list nat)
    (ifood : nat * Food)
    : outcome (MultiSnakeGame * list CollisionEvent * list nat) :=
  let '(m, events, food_to_remove) := acc in
  let '(i, food) := ifood in
  match find_eater m food with
  | None => Returned acc
  | Some (sid, _) =>
      let m1 := set_snakes (snakes_alter grow sid (snakes m)) m in
      match scores m1 !! sid with
      | None => Raised
      | Some sc =>
          Returned (set_scores (<[sid := sc + point_value food]> (scores m1)) m1,
                    events ++ [mkEvent sid FOOD (position food) None],
                    food_to_remove ++ [i])
      end
  end.

(** [list.remove] of the object with reference [i]. *)
Fixpoint remove_ref (i : nat) (l : list (nat * Food)) : list (nat * Food) :=
  match l with
  | [] => []
  | (j, f) :: l' => if decide (j = i) then l' else (j, f) :: remove_ref i l'
  end.

(** The body of the loop "remove eaten food"; [list.remove] raises
    [ValueError] when the object is not in the list. *)
Definition remove_eaten (acc : list (nat * Food) * Grid) (i : nat)
    : outcome (list (nat * Food) * Grid) :=
  let '(items, g) := acc in
  match list_find (fun jf : nat * Food => jf.1 = i) items with
  | Some (_, (_, food)) =>
      Returned (remove_ref i items, vacate (position food) g)
  | None => Raised
  end.

(** [MultiSnakeGame._check_food_collisions] *)
Definition check_food_collisions (m : MultiSnakeGame)
    : outcome (MultiSnakeGame * list CollisionEvent) :=
  let refs := imap (fun i f => (i, f)) (food_items m) in
  '(m1, events, food_to_remove) ← for_each food_step (m, [], []) refs;
  '(items, g) ← for_each remove_eaten (refs, grid m1) food_to_remove;
  Returned (set_grid g (set_food_items (items.*2) m1), events).

(** What one call of [update] takes from outside the program: for each
    AI snake the [set_direction] calls its behaviour tree ends up making
    in [update_ai] (they depend on the wall clock and on [random]), the
    successive results of [random.random()] and of the index chosen by
    [random.choice] in the food loop, and the order in which the set of
    active ids is listed. *)
Record Env : Type := mkEnv {
  ai_calls : string -> list Direction;
  draws : nat -> Q;
  picks : nat -> nat;
  set_order : list string
}.

(** [list(s)] for a Python set [s] of ids: its members, each once, in
    the order of the hash table.  The program does not fix that order
    (it depends on the string hashes of the run and on the history of
    the set), so it is taken from outside: the members that [order]
    names come first, as [order] arranges them, and the others follow.
    Every arrangement of the members arises from some [order], namely
    from itself. *)
Definition py_list_of_set (order : list string) (s : gset string)
    : list string :=
  let named := filter (fun x => x ∈ s) (remove_dups order) in
  named ++ filter (fun x => x ∉ named) (elements s).

(** [AISnake.update_ai], as far as the game can observe it: the snake's
    pending direction is changed only through [set_direction]. *)
Definition update_ai (calls : list Direction) (s : Snake) : Snake :=
  foldl (fun s d => (set_direction d s).1) s calls.

(** The loop "update AI snakes" of [update]. *)
Definition update_ai_snakes (env : Env) (m : MultiSnakeGame) : MultiSnakeGame :=
  set_snakes
    ((fun kv : string * Snake =>
        if bool_decide (kv.1 ∈ active_snakes m)
           && bool_decide (is_Some (ai_attrs kv.2))
        then (kv.1, update_ai (ai_calls env kv.1) kv.2)
        else kv) <$> snakes m) m.

(** The body of the loop "move all active snakes".  [AISnake.move] only
    trims its cached path before it calls [Snake.move]. *)
Definition move_step (acc : MultiSnakeGame * list CollisionEvent) (sid : string)
    : outcome (MultiSnakeGame * list CollisionEvent) :=
  let '(m, events) := acc in
  match snakes_lookup sid (snakes m) with
  | None => Raised
  | Some snake =>
      let '(snake', tail_position) := Snake_move snake in
      let m1 := set_snakes (snakes_alter (fun _ => snake') sid (snakes m)) m in
      '(m2, snake_events) ← handle_snake_movement sid snake' tail_position m1;
      Returned (m2, events ++ snake_events)
  end.

(** [MultiSnakeGame._update_food]: the [while] loop, one iteration per
    unit of fuel; [i] counts the iterations done. *)
Fixpoint update_food (fuel : nat) (env : Env) (i : nat) (m : MultiSnakeGame)
    : outcome MultiSnakeGame :=
  if Z.of_nat (length (food_items m)) <? max_food_items m then
    match fuel with
    | O => OutOfFuel
    | S fuel' =>
        if Qlt_le_dec (draws env i) (food_spawn_rate m) then
          match spawn_food (grid m) (picks env i) with
          | Some new_food =>
              update_food fuel' env (S i)
                (set_grid (occupy (position new_food) (grid m))
                   (set_food_items (food_items m ++ [new_food]) m))
          | None => update_food fuel' env (S i) m
          end
        else update_food fuel' env (S i) m
    end
  else Returned m.

(** [MultiSnakeGame.update]; [_check_game_conditions] changes nothing. *)
Definition update (fuel : nat) (env : Env) (dt : Q) (m : MultiSnakeGame)
    : outcome (MultiSnakeGame * list CollisionEvent) :=
  let m1 := set_game_time (game_time m + dt)%Q m in
  let m2 := update_ai_snakes env m1 in
  '(m3, events) ← for_each move_step (m2, [])
                    (py_list_of_set (set_order env) (active_snakes m2));
  m4 ← update_food fuel env 0 m3;
  '(m5, food_events) ← check_food_collisions m4;
  let events' := events ++ food_events in
  Returned (set_collision_events (collision_events m5 ++ events') m5, events').

(** *** Sequences of calls *)

(** The calls that add, remove and move snakes, and the setters.
    [reset_game] is not one of them: it starts the game afresh, and is
    added to the calls as [OpReset] further down. *)
Inductive Call : Type :=
  | CallAddPlayer (sid : string) (start : SquareCoord) (d : Direction)
  | CallAddAI (sid : string) (start : SquareCoord) (p : AIPersonality) (d : Q)
  | CallRemove (sid : string)
  | CallUpdate (fuel : nat) (env : Env) (dt : Q)
  | CallSetTimeLimit (limit : Q)
  | CallSetMaxFood (max_food : Z)
  | CallSetFoodSpawnRate (spawn_rate : Q).

(** The state a call returns in; [update] only counts once it returns. *)
Definition run_call (c : Call) (m : MultiSnakeGame) : option MultiSnakeGame :=
  match c with
  | CallAddPlayer sid start d => Some (add_player_snake sid start d m).1
  | CallAddAI sid start p d => Some (add_ai_snake sid start p d m).1
  | CallRemove sid => Some (remove_snake sid m).1
  | CallUpdate fuel env dt =>
      match update fuel env dt m with
      | Returned (m', _) => Some m'
      | _ => None
      end
  | CallSetTimeLimit limit => Some (set_time_limit limit m)
  | CallSetMaxFood max_food => Some (set_max_food max_food m)
  | CallSetFoodSpawnRate spawn_rate => Some (set_food_spawn_rate spawn_rate m)
  end.

Fixpoint run_calls (cs : list Call) (m : MultiSnakeGame)
    : option MultiSnakeGame :=
  match cs with
  | [] => Some m
  | c :: cs' =>
      match run_call c m with
      | Some m' => run_calls cs' m'
      | None => None
      end
  end.

(** A state reached from a fresh game by calls that returned: the four
    calls that add, remove and move snakes, and the three setters.
    Resets lead to no further state: what [reset_game] leaves is reached
    by the setters from a fresh game on the emptied grid. *)
Definition reachable (m : MultiSnakeGame) : Prop :=
  exists (g : Grid) (mode : GameMode) (cs : list Call),
    run_calls cs (MultiSnakeGame_init g mode) = Some m.

(** *** Reference notions for the game *)

(** The keys of the dict [snakes]. *)
Definition snake_ids (m : MultiSnakeGame) : list string := (snakes m).*1.

(** The dict has one entry per key and every snake has a score entry. *)
Definition dict_ok (m : MultiSnakeGame) : Prop :=
  NoDup (snake_ids m) ∧ forall sid, sid ∈ snake_ids m -> is_Some (scores m !! sid).

(** Both id sets hold known ids only and have no id in common. *)
Definition sets_ok (m : MultiSnakeGame) : Prop :=
  (forall sid, sid ∈ active_snakes m -> sid ∈ snake_ids m)
  ∧ (forall sid, sid ∈ eliminated_snakes m -> sid ∈ snake_ids m)
  ∧ active_snakes m ## eliminated_snakes m.

Definition well_formed (m : MultiSnakeGame) : Prop := dict_ok m ∧ sets_ok m.

(** The two states have the same snake ids, in the same order. *)
Definition same_ids (m m' : MultiSnakeGame) : Prop :=
  snake_ids m' = snake_ids m.

(** From [m] to [m']: still well formed, same ids, nothing left the
    eliminated set. *)
Definition wf_step (m m' : MultiSnakeGame) : Prop :=
  well_formed m' ∧ eliminated_snakes m ⊆ eliminated_snakes m' ∧ same_ids m m'.

(** For a call that returned, [Q] holds of its result. *)
Definition post {A} (Q : A -> Prop) (o : outcome A) : Prop :=
  match o with
  | Returned a => Q a
  | _ => True
  end.

(** The call does not raise, and [Q] holds of its result if it returned. *)
Definition safe {A} (Q : A -> Prop) (o : outcome A) : Prop :=
  match o with
  | Returned a => Q a
  | Raised => False
  | OutOfFuel => True
  end.

(** The snake that consumes a food item in [_check_food_collisions]. *)
Definition eater_id (m : MultiSnakeGame) (food : Food) : option string :=
  fst <$> find_eater m food.

(** The event emitted for a food item, if it is consumed. *)
Definition food_event (m : MultiSnakeGame) (food : Food)
    : option CollisionEvent :=
  (fun w => mkEvent w FOOD (position food) None) <$> eater_id m food.

(** The points a snake collects from a list of food items. *)
Fixpoint gain (m : MultiSnakeGame) (sid : string) (foods : list Food) : Z :=
  match foods with
  | [] => 0
  | f :: fs =>
      (if decide (eater_id m f = Some sid) then point_value f else 0)
      + gain m sid fs
  end.

(** The references of the consumed items, as [food_to_remove] holds them. *)
Definition eaten_refs (m : MultiSnakeGame) (refs : list (nat * Food))
    : list nat :=
  omap (fun jf : nat * Food =>
          match eater_id m jf.2 with
          | Some _ => Some jf.1
          | None => None
          end) refs.

(** What the food loop reads of the snakes: ids and heads, in order. *)
Definition heads_view (m : MultiSnakeGame) : list (string * option SquareCoord) :=
  (fun kv : string * Snake => (kv.1, get_head kv.2)) <$> snakes m.

(** The food loop changes growth counters and scores only. *)
Definition same_view (m m' : MultiSnakeGame) : Prop :=
  heads_view m' = heads_view m
  ∧ active_snakes m' = active_snakes m
  ∧ eliminated_snakes m' = eliminated_snakes m
  ∧ grid m' = grid m
  ∧ food_items m' = food_items m.



(** No FOOD event in a list of events. *)
Definition no_food_event (events : list CollisionEvent) : Prop :=
  Forall (fun e => collision_type e ≠ FOOD) events.

(** *** Scenarios *)

(** An environment in which no AI snake changes direction, every draw
    of the food loop succeeds, [random.choice] takes the first empty
    cell and the active ids are listed as [elements] gives them. *)
Definition env_spawn : Env :=
  mkEnv (fun _ => []) (fun _ => 0%Q) (fun _ => 0%nat) [].

(** The same, except that the first food item goes to the empty cell
    number 42. *)
Definition env_food_ahead : Env :=
  mkEnv (fun _ => []) (fun _ => 0%Q)
        (fun i => match i with O => 42%nat | _ => 0%nat end) [].

(** Snake "a" heads right along row 5 towards column 6, which snake "b"
    is climbing: after one tick the head of "a" lies on the body of "b",
    whichever of the two moves first. *)
Definition crossing_game (mode : GameMode) : MultiSnakeGame :=
  (add_player_snake "b" (6, 4) UP
     (add_player_snake "a" (5, 5) RIGHT
        (MultiSnakeGame_init (Grid_init 10 10) mode)).1).1.

(** Snake "a" heads right and snake "b" heads up, both two cells away
    from (4, 3). *)
Definition meeting_game : MultiSnakeGame :=
  (add_player_snake "b" (4, 5) UP
     (add_player_snake "a" (2, 3) RIGHT
        (MultiSnakeGame_init (Grid_init 10 10) COOPERATIVE)).1).1.


(** A game in which "a" was added and then removed. *)
Definition removed_game : MultiSnakeGame :=
  (remove_snake "a"
     (add_player_snake "a" (5, 5) RIGHT
        (MultiSnakeGame_init (Grid_init 10 10) SURVIVAL)).1).1.

(** ** Further operations of the cited modules *)

(** *** Grid ([grid.py]) *)

(** [Grid.clear] *)
Definition Grid_clear (g : Grid) : Grid := mkGrid (width g) (height g) ∅.

(** [Grid.count_empty_cells] *)
Definition count_empty_cells (g : Grid) : Z :=
  width g * height g - Z.of_nat (size (occupied_cells g)).

(** The cells the double loop of [get_random_empty_cell] runs over. *)
Definition all_cells (g : Grid) : list SquareCoord :=
  x ← zrange (width g); y ← zrange (height g); [(x, y)].

(** *** Snake ([snake.py]) *)

(** [Snake.get_tail] *)
Definition get_tail (s : Snake) : option SquareCoord := last (segments s).

(** [Snake.get_length] *)
Definition get_length (s : Snake) : nat := length (segments s).

(** [Snake.grow] with an explicit amount. *)
Definition grow_by (amount : Z) (s : Snake) : Snake :=
  with_growth_pending (growth_pending s + amount) s.

(** [n] successive calls of [Snake.move]. *)
Fixpoint move_n (n : nat) (s : Snake) : Snake :=
  match n with
  | O => s
  | S n' => move_n n' (Snake_move s).1
  end.

(** The head lies one step ahead of the second segment in the current
    direction, and the pending direction does not reverse the current
    one. *)
Definition heading_ok (s : Snake) : Prop :=
  next_direction s ≠ opposite (direction s)
  ∧ match segments s with
    | hd :: neck :: _ =>
        (coord_x hd - coord_x neck, coord_y hd - coord_y neck)
        = get_dx_dy (direction s)
    | _ => True
    end.

(** *** Path finding ([pathfinding.py]) *)

(** [PathFinder.get_safe_moves] *)
Definition get_safe_moves (grid : Grid) (position : SquareCoord)
    (obstacles : gset (Z * Z)) : list SquareCoord :=
  filter (fun neighbor => is_valid_position grid neighbor = true
                          ∧ neighbor ∉ obstacles)
         (get_neighbors grid position).

(** [PathFinder.get_dead_end_ahead]; its [look_ahead] argument is not
    used. *)
Definition get_dead_end_ahead (grid : Grid) (position : SquareCoord)
    (obstacles : gset (Z * Z)) : bool :=
  match get_safe_moves grid position obstacles with
  | [next_pos] =>
      match get_safe_moves grid next_pos (obstacles ∪ {[position]}) with
      | [] => true
      | _ => false
      end
  | _ => false
  end.

(** Python's [min(l, key=key)] on a non-empty list: the first element
    with the least key. *)
Definition py_min_by {A} (key : A -> Z) (x : A) (l : list A) : A :=
  foldl (fun best y => if key y <? key best then y else best) x l.

(** The [while] loop of [find_path_greedy]; [budget] is what is left of
    [max_iterations]. *)
Fixpoint greedy_loop (budget : nat) (grid : Grid) (goal : SquareCoord)
    (obstacles : gset (Z * Z)) (current : SquareCoord)
    (path : list SquareCoord) (visited : gset (Z * Z))
    : option (list SquareCoord) :=
  if decide (current = goal) then Some path
  else
    match budget with
    | O => None
    | S budget' =>
        let valid_neighbors :=
          filter (fun n => (n ∉ obstacles) ∧ (n ∉ visited))
                 (get_neighbors grid current) in
        match valid_neighbors with
        | [] => None
        | n :: ns =>
            let best_neighbor :=
              py_min_by (fun n => heuristic n goal) n ns in
            greedy_loop budget' grid goal obstacles best_neighbor
                        (path ++ [best_neighbor])
                        ({[best_neighbor]} ∪ visited)
        end
    end.

(** [PathFinder.find_path_greedy], with its cap of 100 iterations. *)
Definition find_path_greedy (grid : Grid) (start goal : SquareCoord)
    (obstacles : gset (Z * Z)) : option (list SquareCoord) :=
  if negb (is_valid_position grid start)
     || negb (is_valid_position grid goal)
  then None
  else if bool_decide (start ∈ obstacles) || bool_decide (goal ∈ obstacles)
  then None
  else greedy_loop 100 grid goal obstacles start [start] {[start]}.

(** What the A* loop keeps true of its nodes: the start node has cost
    0 and no parent; costs are not negative; every other node is a free
    cell whose parent is a closed node one step away and one unit
    cheaper; every reference in the open set is a stored node. *)
Definition astar_inv (grid : Grid) (start : SquareCoord)
    (obstacles : gset (Z * Z)) (st : AStar) : Prop :=
  (exists n0, all_nodes st !! start = Some n0
              ∧ g_cost n0 = 0 ∧ parent n0 = None)
  ∧ (forall p node, all_nodes st !! p = Some node -> 0 <= g_cost node)
  ∧ (forall p node, all_nodes st !! p = Some node -> p ≠ start ->
       exists q nq, parent node = Some q
                    ∧ all_nodes st !! q = Some nq
                    ∧ q ∈ closed_set st
                    ∧ g_cost node = g_cost nq + 1
                    ∧ adjacent4 q p = true
                    ∧ free_cell grid obstacles p = true)
  ∧ (forall p, p ∈ open_set st -> is_Some (all_nodes st !! p))
  ∧ free_cell grid obstacles start = true.

(** *** The AI snake's helpers ([ai_snake.py]) *)

(** [AISnake._get_all_obstacles] *)
Definition get_all_obstacles (self : Snake) (other_snakes : list Snake)
    : gset (Z * Z) :=
  foldl (fun obstacles snake =>
           if bool_decide (snake_id snake ≠ snake_id self)
           then obstacles ∪ list_to_set (get_segments snake)
           else obstacles)
        (list_to_set (get_segments self)) other_snakes.

(** [AISnake._set_direction_to_position] *)
Definition set_direction_to_position (target : SquareCoord) (s : Snake)
    : Snake * bool :=
  match get_head s with
  | None => (s, false)
  | Some head =>
      let dx := coord_x target - coord_x head in
      let dy := coord_y target - coord_y head in
      let direction :=
        if Z.abs dy <? Z.abs dx
        then (if 0 <? dx then RIGHT else LEFT)
        else (if 0 <? dy then DOWN else UP) in
      set_direction direction s
  end.

(** [AISnake._is_direction_safe]; [grid] is the grid of the snake's
    pathfinder. *)
Definition is_direction_safe (grid : Grid) (d : Direction)
    (obstacles : gset (Z * Z)) (s : Snake) : bool :=
  match get_head s with
  | None => false
  | Some head =>
      let '(dx, dy) := get_dx_dy d in
      let next_pos := (coord_x head + dx, coord_y head + dy) in
      is_valid_position grid next_pos
      && negb (bool_decide (next_pos ∈ obstacles))
  end.

(** [AISnake._danger_ahead] *)
Definition danger_ahead (obstacles : gset (Z * Z)) (s : Snake) : bool :=
  match get_head s with
  | None => false
  | Some head =>
      let '(dx, dy) := get_dx_dy (direction s) in
      bool_decide ((coord_x head + dx, coord_y head + dy) ∈ obstacles)
  end.

(** [AISnake.get_difficulty_level] *)
Definition get_difficulty_level (a : AIAttrs) : string :=
  if Qlt_le_dec (difficulty a) (3 # 10) then "Easy"
  else if Qlt_le_dec (difficulty a) (7 # 10) then "Medium"
  else "Hard".

(** *** The decision context ([behavior.py], class [DecisionContext]) *)

(** [DecisionContext.get_nearest_food]; the running minimum starts at
    [float('inf')], here [None]. *)
Definition nearest_step (snake_position : SquareCoord)
    (acc : option Z * option SquareCoord) (food : SquareCoord)
    : option Z * option SquareCoord :=
  let dist := Z.abs (coord_x food - coord_x snake_position)
              + Z.abs (coord_y food - coord_y snake_position) in
  match acc.1 with
  | Some min_dist => if dist <? min_dist then (Some dist, Some food) else acc
  | None => (Some dist, Some food)
  end.

Definition get_nearest_food (food_positions : list SquareCoord)
    (snake_position : option SquareCoord) : option SquareCoord :=
  match food_positions, snake_position with
  | [], _ => None
  | _, None => None
  | _, Some sp => (foldl (nearest_step sp) (None, None) food_positions).2
  end.

(** [DecisionContext.is_food_safe], once a grid is set. *)
Definition is_food_safe (danger_positions : list SquareCoord)
    (food_pos : SquareCoord) : bool :=
  forallb (fun danger =>
             negb ((Z.abs (coord_x danger - coord_x food_pos) <=? 2)
                   && (Z.abs (coord_y danger - coord_y food_pos) <=? 2)))
          danger_positions.

(** *** Behaviour trees ([behavior.py]) *)

(** The nodes the factory builds.  Its condition nodes all have the form
    [lambda ctx: ctx.get(key, False)] and its action nodes the form
    [lambda ctx: ctx.get(key, lambda: False)()]. *)
#[local] Unset Elimination Schemes.
Inductive BehaviorNode : Type :=
  | SelectorNode (children : list BehaviorNode)
  | SequenceNode (children : list BehaviorNode)
  | ConditionNode (key : string)
  | ActionNode (key : string).
#[local] Set Elimination Schemes.

(** Induction on a tree, with the property known for all children. *)
Section BehaviorNode_induction.
Variable P : BehaviorNode -> Prop.
Hypothesis Hselector : forall children,
  Forall P children -> P (SelectorNode children).
Hypothesis Hsequence : forall children,
  Forall P children -> P (SequenceNode children).
Hypothesis Hcondition : forall key, P (ConditionNode key).
Hypothesis Haction : forall key, P (ActionNode key).

Fixpoint BehaviorNode_ind (node : BehaviorNode) : P node :=
  let all :=
    fix all (l : list BehaviorNode) : Forall P l :=
      match l with
      | [] => @List.Forall_nil _ P
      | child :: l' =>
          @List.Forall_cons _ P child l' (BehaviorNode_ind child) (all l')
      end in
  match node with
  | SelectorNode children => Hselector children (all children)
  | SequenceNode children => Hsequence children (all children)
  | ConditionNode key => Hcondition key
  | ActionNode key => Haction key
  end.
End BehaviorNode_induction.

(** A value of the context dict: a flag, a callable acting on the snake
    and returning a flag, or any other object with its truth value. *)
Inductive CtxValue : Type :=
  | VFlag (b : bool)
  | VCallable (f : Snake -> Snake * bool)
  | VObject (truthy : bool).

Definition truth (v : CtxValue) : bool :=
  match v with
  | VFlag b => b
  | VCallable _ => true
  | VObject t => t
  end.

(** [execute] of the four node classes; calling a value that is not
    callable raises. *)
Fixpoint execute (node : BehaviorNode) (ctx : gmap string CtxValue)
    (s : Snake) : outcome (Snake * bool) :=
  match node with
  | SelectorNode children =>
      (fix selector (l : list BehaviorNode) (s : Snake) :=
         match l with
         | [] => Returned (s, false)
         | child :: l' =>
             match execute child ctx s with
             | Returned (s', r) =>
                 if r then Returned (s', true) else selector l' s'
             | Raised => Raised
             | OutOfFuel => OutOfFuel
             end
         end) children s
  | SequenceNode children =>
      (fix sequence (l : list BehaviorNode) (s : Snake) :=
         match l with
         | [] => Returned (s, true)
         | child :: l' =>
             match execute child ctx s with
             | Returned (s', r) =>
                 if r then sequence l' s' else Returned (s', false)
             | Raised => Raised
             | OutOfFuel => OutOfFuel
             end
         end) children s
  | ConditionNode key =>
      Returned (s, match ctx !! key with Some v => truth v | None => false end)
  | ActionNode key =>
      match ctx !! key with
      | None => Returned (s, false)
      | Some (VCallable f) => Returned (f s)
      | Some _ => Raised
      end
  end.

(** The keys the action nodes of a tree look up. *)
Fixpoint action_keys (node : BehaviorNode) : list string :=
  match node with
  | SelectorNode children | SequenceNode children =>
      (fix keys (l : list BehaviorNode) :=
         match l with
         | [] => []
         | child :: l' => action_keys child ++ keys l'
         end) children
  | ConditionNode _ => []
  | ActionNode key => [key]
  end.

(** [BehaviorFactory] *)
Definition create_aggressive_behavior : BehaviorNode :=
  SelectorNode
    [SequenceNode [ConditionNode "food_nearby"; ActionNode "move_to_food"];
     SequenceNode [ConditionNode "danger_ahead"; ActionNode "escape_danger"];
     ActionNode "explore"].

Definition create_cautious_behavior : BehaviorNode :=
  SelectorNode
    [SequenceNode [ConditionNode "danger_nearby"; ActionNode "escape_danger"];
     SequenceNode [ConditionNode "food_safe"; ActionNode "move_to_food"];
     ActionNode "safe_explore"].

Definition create_balanced_behavior : BehaviorNode :=
  SelectorNode
    [SequenceNode [ConditionNode "food_available"; ActionNode "move_to_food"];
     SequenceNode [ConditionNode "danger_ahead"; ActionNode "escape_danger"];
     ActionNode "explore"].

(** [random.shuffle] of the two behaviours leaves them as they are or
    swaps them. *)
Definition create_random_behavior (swapped : bool) : BehaviorNode :=
  SelectorNode
    (if swapped then [ActionNode "explore"; ActionNode "random_move"]
     else [ActionNode "random_move"; ActionNode "explore"]).

(** [AISnake._create_behavior_tree] *)
Definition create_behavior_tree (p : AIPersonality) (swapped : bool)
    : BehaviorNode :=
  match p with
  | AGGRESSIVE => create_aggressive_behavior
  | CAUTIOUS => create_cautious_behavior
  | RANDOM => create_random_behavior swapped
  | BALANCED => create_balanced_behavior
  end.

(** The [__dict__] of the decision context that [update_ai] hands to the
    tree: the attributes set by [update_context], the dict of move
    suggestions stored under the one key [move_suggestions], and the
    flags added by [_setup_move_suggestions]. *)
Definition context_dict (food_positions danger_positions : list SquareCoord)
    (other_snakes : list Snake) (obstacles : gset (Z * Z)) (s : Snake)
    : gmap string CtxValue :=
  <["danger_nearby" := VFlag (0 <? length danger_positions)%nat]>
  (<["danger_ahead" := VFlag (danger_ahead obstacles s)]>
  (<["food_safe" :=
       VFlag (existsb (is_food_safe danger_positions) food_positions)]>
  (<["food_available" := VFlag (0 <? length food_positions)%nat]>
  (<["food_nearby" := VFlag (0 <? length food_positions)%nat]>
  (<["move_suggestions" := VObject true]>
  (<["other_snakes" :=
       VObject (match other_snakes with [] => false | _ => true end)]>
  (<["grid" := VObject true]>
  (<["danger_positions" :=
       VObject (match danger_positions with [] => false | _ => true end)]>
  (<["food_positions" :=
       VObject (match food_positions with [] => false | _ => true end)]>
  (<["snake_direction" := VObject true]>
  (<["snake_position" := VObject true]> ∅))))))))))).

(** [AISnake.update_ai], the decision procedure itself.  [due] says
    whether [decision_delay] has passed since the last decision. *)
Definition AISnake_update_ai (tree : BehaviorNode) (due has_pathfinder : bool)
    (food_positions : list SquareCoord) (other_snakes : list Snake)
    (s : Snake) : outcome Snake :=
  if negb due then Returned s
  else if negb has_pathfinder then Returned s
  else
    match get_head s with
    | None => Returned s
    | Some _ =>
        let obstacles := get_all_obstacles s other_snakes in
        let dangers := get_danger_positions obstacles in
        match execute tree
                (context_dict food_positions dangers other_snakes obstacles s)
                s with
        | Returned (s', _) => Returned s'
        | Raised => Raised
        | OutOfFuel => OutOfFuel
        end
    end.

(** *** Scores, winner and reset ([multi_snake.py]) *)

(** [self.scores.items()].  The dicts [snakes] and [scores] receive
    every key together, in [add_player_snake] and [add_ai_snake], and
    lose keys only together, in [reset_game]; so the items of [scores]
    come in the order of the snake ids. *)
Definition scores_items (m : MultiSnakeGame) : list (string * Z) :=
  omap (fun sid => (fun sc => (sid, sc)) <$> scores m !! sid) (snake_ids m).

(** [sorted(items, key=lambda x: x[1], reverse=True)]: a stable sort,
    items of equal score stay in the order they had. *)
Fixpoint insert_desc (x : string * Z) (l : list (string * Z))
    : list (string * Z) :=
  match l with
  | [] => [x]
  | y :: l' => if x.2 <? y.2 then y :: insert_desc x l' else x :: y :: l'
  end.

Definition sorted_desc (l : list (string * Z)) : list (string * Z) :=
  foldr insert_desc [] l.

(** [MultiSnakeGame.get_leaderboard] *)
Definition get_leaderboard (m : MultiSnakeGame) : list (string * Z) :=
  sorted_desc (scores_items m).




(** [MultiSnakeGame.reset_game] *)
Definition reset_game (m : MultiSnakeGame) : MultiSnakeGame :=
  mkGame (Grid_clear (grid m)) (game_mode m) [] [] [] 0 (time_limit m)
         ∅ ∅ ∅ (max_food_items m) (food_spawn_rate m).

(** The state an elimination leaves, stated field by field. *)
Definition eliminated_from (sid : string) (snake : Snake)
    (m m' : MultiSnakeGame) : Prop :=
  snakes m' = snakes m ∧ scores m' = scores m
  ∧ food_items m' = food_items m ∧ game_mode m' = game_mode m
  ∧ active_snakes m' = active_snakes m ∖ {[sid]}
  ∧ eliminated_snakes m' = {[sid]} ∪ eliminated_snakes m
  ∧ width (grid m') = width (grid m) ∧ height (grid m') = height (grid m)
  ∧ forall c, is_occupied (grid m') c
              = is_occupied (grid m) c
                && negb (bool_decide (c ∈ segments snake)).

(** *** Reference notions for one tick *)

(** Every active snake of the dict has its head inside the grid. *)
Definition heads_on_board (m : MultiSnakeGame) : Prop :=
  forall sid s,
    sid ∈ active_snakes m -> snakes_lookup sid (snakes m) = Some s ->
    exists hd, get_head s = Some hd ∧ is_valid_position (grid m) hd = true.

(** Every food item lies inside the grid. *)
Definition food_on_board (m : MultiSnakeGame) : Prop :=
  forall f, f ∈ food_items m -> is_valid_position (grid m) (position f) = true.

Definition on_board (m : MultiSnakeGame) : Prop :=
  heads_on_board m ∧ food_on_board m.

(** A change of occupancy and of the id sets only, that adds no id to
    the active set. *)
Definition frame_step (m m' : MultiSnakeGame) : Prop :=
  snakes m' = snakes m ∧ scores m' = scores m
  ∧ food_items m' = food_items m
  ∧ width (grid m') = width (grid m) ∧ height (grid m') = height (grid m)
  ∧ active_snakes m' ⊆ active_snakes m.

(** A part of a tick that began with the active ids [A]: the grid keeps
    its size, no id becomes active, snakes outside [A] and their scores
    are left alone, and heads and food stay on the board. *)
Definition tick_step (A : gset string) (m m' : MultiSnakeGame) : Prop :=
  width (grid m') = width (grid m) ∧ height (grid m') = height (grid m)
  ∧ active_snakes m' ⊆ active_snakes m
  ∧ (forall u, u ∉ A ->
       snakes_lookup u (snakes m') = snakes_lookup u (snakes m)
       ∧ scores m' !! u = scores m !! u)
  ∧ (heads_on_board m -> heads_on_board m')
  ∧ (food_on_board m -> food_on_board m').

(** The same for the state of a loop that also collects events: the
    events added are attributed to ids of [A]. *)
Definition tick_events (A : gset string) (events : list CollisionEvent)
    : Prop :=
  Forall (fun e => ev_snake_id e ∈ A) events.

Definition tick_loop (A : gset string)
    (acc acc' : MultiSnakeGame * list CollisionEvent) : Prop :=
  tick_step A acc.1 acc'.1 ∧ (tick_events A acc.2 -> tick_events A acc'.2).

(** *** The game factory ([multi_snake.py], class [MultiSnakeGameFactory]) *)

(** [_get_spaced_start_positions].  For fewer than one snake the Python
    code raises: [cols] or [rows] is 0 and the next floor division
    fails, or, below -1, [int] is applied to a complex number.  From one
    snake on, [int((num_snakes + 1) ** 0.5)] is the integer square
    root. *)
Definition get_spaced_start_positions (grid : Grid) (num_snakes : Z)
    : outcome (list SquareCoord) :=
  if num_snakes <? 1 then Raised
  else
    let cols := Z.sqrt (num_snakes + 1) in
    let rows := (num_snakes + cols - 1) / cols in
    let cell_width := width grid / cols in
    let cell_height := height grid / rows in
    Returned
      ((fun i : Z =>
          let row := i / cols in
          let col := i mod cols in
          let x := col * cell_width + cell_width / 2 in
          let y := row * cell_height + cell_height / 2 in
          (Z.max 2 (Z.min x (width grid - 3)),
           Z.max 2 (Z.min y (height grid - 3))))
         <$> zrange num_snakes).

(** The id [f"ai_{i}"]. *)
Definition ai_name (i : nat) : string := "ai_" +:+ pretty i.

(** The loop that adds the AI snakes, shared by the three creators;
    [personalities i] is the result of the [random.choice] of round [i]. *)
Definition add_ai_snakes (personalities : nat -> AIPersonality)
    (ai_difficulty : Q) (start_positions : list SquareCoord) (num_ai : Z)
    (game : MultiSnakeGame) : MultiSnakeGame :=
  foldl (fun game i =>
           match start_positions !! i with
           | Some pos =>
               (add_ai_snake (ai_name i) pos (personalities i) ai_difficulty
                             game).1
           | None => game
           end)
        game (seq 0 (Z.to_nat num_ai)).

(** [create_survival_game] *)
Definition create_survival_game (grid : Grid) (num_ai : Z) (ai_difficulty : Q)
    (personalities : nat -> AIPersonality) : outcome MultiSnakeGame :=
  let game := MultiSnakeGame_init grid SURVIVAL in
  start_positions ← get_spaced_start_positions grid (num_ai + 1);
  Returned (add_ai_snakes personalities ai_difficulty start_positions num_ai
                          game).

(** [create_score_race_game] *)
Definition create_score_race_game (grid : Grid) (limit : Q) (num_ai : Z)
    (ai_difficulty : Q) (personalities : nat -> AIPersonality)
    : outcome MultiSnakeGame :=
  let game := set_time_limit limit (MultiSnakeGame_init grid SCORE_RACE) in
  start_positions ← get_spaced_start_positions grid (num_ai + 1);
  Returned (add_ai_snakes personalities ai_difficulty start_positions num_ai
                          game).

(** [create_free_for_all_game] *)
Definition create_free_for_all_game (grid : Grid) (num_ai : Z)
    (ai_difficulty : Q) (personalities : nat -> AIPersonality)
    : outcome MultiSnakeGame :=
  let game := MultiSnakeGame_init grid FREE_FOR_ALL in
  start_positions ← get_spaced_start_positions grid (num_ai + 1);
  Returned (add_ai_snakes personalities ai_difficulty start_positions num_ai
                          game).

(** What a creator is expected to deliver: the snakes [ai_0], ...,
    all of them AI snakes facing right, active, with score 0, and with
    every segment inside the grid. *)
Definition factory_game (g : Grid) (num_ai : Z) (game : MultiSnakeGame)
    : Prop :=
  snake_ids game = ai_name <$> seq 0 (Z.to_nat num_ai)
  ∧ active_snakes game = list_to_set (snake_ids game)
  ∧ eliminated_snakes game = ∅
  ∧ food_items game = []
  ∧ grid game = g
  ∧ forall sid s,
      (sid, s) ∈ snakes game ->
      snake_id s = sid ∧ is_Some (ai_attrs s) ∧ direction s = RIGHT
      ∧ scores game !! sid = Some 0
      ∧ forall c, c ∈ segments s -> is_valid_position g c = true.

(** *** Reference notions for the A* search *)

(** What the search has covered.  Every node is closed or queued; every
    closed cell has a node; every free cell next to a closed cell has a
    node, except the neighbours of [current] that are still [pending]
    while [current] is being expanded; and the goal is not closed. *)
Definition astar_cover (grid : Grid) (goal : SquareCoord)
    (obstacles : gset (Z * Z)) (current : Z * Z) (pending : list (Z * Z))
    (st : AStar) : Prop :=
  (forall p, is_Some (all_nodes st !! p) ->
             p ∈ closed_set st ∨ p ∈ open_set st)
  ∧ (forall c, c ∈ closed_set st -> is_Some (all_nodes st !! c))
  ∧ (forall c n, c ∈ closed_set st -> adjacent4 c n = true ->
                 free_cell grid obstacles n = true ->
                 (c = current ∧ n ∈ pending) ∨ is_Some (all_nodes st !! n))
  ∧ goal ∉ closed_set st.

(** The cost a cell still has to lose: the cost of its node, or the
    number of cells of the grid while it has none. *)
Definition potential (grid : Grid) (nodes : gmap (Z * Z) PathNode)
    (c : SquareCoord) : Z :=
  match nodes !! c with
  | Some node => g_cost node
  | None => Z.of_nat (length (all_cells grid))
  end.

Definition potential_sum (grid : Grid) (nodes : gmap (Z * Z) PathNode)
    (cells : list SquareCoord) : Z :=
  foldr (fun c acc => potential grid nodes c + acc) 0 cells.

(** A quantity that every iteration of the search loop lowers. *)
Definition astar_measure (grid : Grid) (st : AStar) : Z :=
  Z.of_nat (length (open_set st))
  + 2 * potential_sum grid (all_nodes st) (all_cells grid).

(** No node costs as much as there are nodes. *)
Definition astar_bound (st : AStar) : Prop :=
  forall p node, all_nodes st !! p = Some node ->
                 g_cost node < Z.of_nat (size (all_nodes st)).

(** *** Hexagonal coordinates ([grid.py], class [HexCoord]; [pathfinding.py],
    class [HexPathFinder]) *)

Abbreviation HexCoord := (Z * Z)%type.

Definition hex_q (c : HexCoord) : Z := fst c.
Definition hex_r (c : HexCoord) : Z := snd c.

(** [HexCoord.get_distance] *)
Definition get_distance (self other : HexCoord) : Z :=
  (Z.abs (hex_q self - hex_q other)
   + Z.abs (hex_q self + hex_r self - hex_q other - hex_r other)
   + Z.abs (hex_r self - hex_r other)) / 2.

(** [HexPathFinder.get_hex_neighbors]; [_is_valid_hex] accepts every
    position. *)
Definition get_hex_neighbors (position : HexCoord) : list HexCoord :=
  (fun d : Z * Z => (hex_q position + d.1, hex_r position + d.2))
    <$> [(1, 0); (1, -1); (0, -1); (-1, 0); (-1, 1); (0, 1)].

(** *** Reference notions for the settings of a game *)

(** The settings two states agree on. *)
Definition same_config (m m' : MultiSnakeGame) : Prop :=
  game_mode m' = game_mode m ∧ time_limit m' = time_limit m
  ∧ max_food_items m' = max_food_items m
  ∧ food_spawn_rate m' = food_spawn_rate m.

(** The settings are in range. *)
Definition config_ok (m : MultiSnakeGame) : Prop :=
  1 <= max_food_items m ∧ (0 <= food_spawn_rate m <= 1)%Q.

(** *** Reference notions for occupancy and scores *)

(** Only cells of the grid are marked as occupied. *)
Definition occupied_on_board (g : Grid) : Prop :=
  forall c, c ∈ occupied_cells g -> is_valid_position g c = true.

(** From [m] to [m'] the grid keeps its size and, if only cells of the
    grid were marked, this is still so. *)
Definition grid_step (m m' : MultiSnakeGame) : Prop :=
  width (grid m') = width (grid m) ∧ height (grid m') = height (grid m)
  ∧ (occupied_on_board (grid m) -> occupied_on_board (grid m')).

(** Every food item is worth the 10 points of [Food.spawn_food]. *)
Definition food_standard (m : MultiSnakeGame) : Prop :=
  forall f, f ∈ food_items m -> point_value f = 10.

(** From [m] to [m'] the score dict keeps its keys and every score grew
    by a multiple of 10, possibly 0. *)
Definition score_step (m m' : MultiSnakeGame) : Prop :=
  forall u,
    match scores m !! u, scores m' !! u with
    | Some sc, Some sc' => exists k, 0 <= k ∧ sc' = sc + 10 * k
    | None, None => True
    | _, _ => False
    end.

(** *** Calls and resets *)

(** A call of the list above, or [reset_game]. *)
Inductive Op : Type :=
  | OpCall (c : Call)
  | OpReset.

Definition run_op (o : Op) (m : MultiSnakeGame) : option MultiSnakeGame :=
  match o with
  | OpCall c => run_call c m
  | OpReset => Some (reset_game m)
  end.

Fixpoint run_ops (os : list Op) (m : MultiSnakeGame)
    : option MultiSnakeGame :=
  match os with
  | [] => Some m
  | o :: os' =>
      match run_op o m with
      | Some m' => run_ops os' m'
      | None => None
      end
  end.

(** The two clamped settings are stored as the setters leave them. *)
Definition settings_stored (m : MultiSnakeGame) : Prop :=
  Z.max 1 (max_food_items m) = max_food_items m
  ∧ py_max 0 (py_min 1 (food_spawn_rate m)) = food_spawn_rate m.

(** * Properties *)

(** ** Direction changes *)

(** The test of [set_direction] holds exactly for the reversal. *)
Lemma reversal_test (d new : Direction) :
  ((get_dx_dy d).1 + (get_dx_dy new).1 =? 0)
  && ((get_dx_dy d).2 + (get_dx_dy new).2 =? 0)
  = bool_decide (new = opposite d).
Proof. destruct d, new; reflexivity. Qed.

(** C8.  For a snake whose current direction is D, [set_direction] with
    the opposite of D returns false and leaves the snake, hence its
    pending direction, unchanged; with any other direction it returns
    true and the pending direction becomes that direction, nothing else
    being changed. *)
Theorem set_direction_reversal_guard (s : Snake) (d : Direction) :
  set_direction (opposite (direction s)) s = (s, false)
  ∧ set_direction d s =
      if decide (d = opposite (direction s))
      then (s, false)
      else (with_next_direction d s, true).
Proof.
  assert (Hgen : forall new, set_direction new s =
            if decide (new = opposite (direction s)) then (s, false)
            else (with_next_direction new s, true)).
  { intros new. unfold set_direction.
    pose proof (reversal_test (direction s) new) as Ht.
    destruct (get_dx_dy (direction s)) as [dx dy].
    destruct (get_dx_dy new) as [ndx ndy]. simpl in Ht. rewrite Ht.
    destruct (decide (new = opposite (direction s))) as [Heq | Hne].
    - by rewrite bool_decide_eq_true_2.
    - by rewrite bool_decide_eq_false_2. }
  split; [| apply Hgen].
  rewrite Hgen. by rewrite decide_True.
Qed.

(** ** Difficulty of a fresh AI snake *)

(** [set_difficulty] derives both values from the clamped difficulty. *)
Lemma set_difficulty_consistent (d : Q) (a : AIAttrs) :
  let a' := set_difficulty d a in
  difficulty a' = clamp_difficulty d
  ∧ mistake_chance a' = (1 - difficulty a')%Q
  ∧ decision_delay a' = ((2 # 10) - difficulty a' * (15 # 100))%Q.
Proof. done. Qed.

(** The clamped difficulty lies between 0.1 and 1. *)
Lemma clamp_difficulty_range (d : Q) :
  ((1 # 10) <= clamp_difficulty d)%Q ∧ (clamp_difficulty d <= 1)%Q.
Proof.
  unfold clamp_difficulty, py_max, py_min.
  destruct (Qlt_le_dec d 1) as [H1 | H1];
    destruct (Qlt_le_dec _ _) as [H2 | H2]; split;
    try apply Qle_refl; try (by apply Qlt_le_weak); try done.
Qed.

(** C3.  The constructor clamps the difficulty (-1 gives 0.1, 5 gives 1)
    but it computes [mistake_chance] from the difficulty as passed and
    sets [decision_delay] to the constant 0.1: for difficulty -1 the
    fresh snake has mistake_chance 2 (not 0.9) and decision_delay 0.1
    (not 0.185); for difficulty 5 it has mistake_chance -4 (not 0) and
    decision_delay 0.1 (not 0.05). *)
Theorem AISnake_init_derived_values (start : SquareCoord)
    (dir : Direction) (p : AIPersonality) (sid : string) :
  (exists a, ai_attrs (AISnake_init start dir p (-1) sid) = Some a
     ∧ (difficulty a == 1 # 10)%Q
     ∧ (mistake_chance a == 2)%Q ∧ ¬ (mistake_chance a == 1 - difficulty a)%Q
     ∧ (decision_delay a == 1 # 10)%Q
     ∧ ¬ (decision_delay a == (2 # 10) - difficulty a * (15 # 100))%Q)
  ∧ (exists a, ai_attrs (AISnake_init start dir p 5 sid) = Some a
     ∧ (difficulty a == 1)%Q
     ∧ (mistake_chance a == -4)%Q ∧ ¬ (mistake_chance a == 1 - difficulty a)%Q
     ∧ (decision_delay a == 1 # 10)%Q
     ∧ ¬ (decision_delay a == (2 # 10) - difficulty a * (15 # 100))%Q).
Proof.
  split; eexists; (split; [reflexivity |]); vm_compute; repeat split;
    intros; discriminate.
Qed.

(** ** Danger cells *)

Lemma danger_around_spec (obstacles : gset (Z * Z)) (o c : SquareCoord) :
  c ∈ danger_around obstacles o ->
(c ∉ obstacles) ∧ Z.abs (coord_x o - coord_x c) <= 1
  ∧ Z.abs (coord_y o - coord_y c) <= 1.
Proof.
  unfold danger_around, offsets. intros H.
  apply list_elem_of_bind in H as (dx & H & Hdx).
  apply list_elem_of_bind in H as (dy & H & Hdy).
  case_bool_decide as Hin; [by apply elem_of_nil in H |].
  apply list_elem_of_singleton in H. subst c.
  split; [done |]. unfold coord_x, coord_y. simpl.
  set_unfold. lia.
Qed.

(** C6 (as amended).  Every listed danger cell is adjacent, diagonals
    included, to at least one obstacle cell and is not itself an
    obstacle.  No bounds test is applied to it. *)
Theorem danger_positions_adjacent (obstacles : gset (Z * Z)) (c : SquareCoord) :
  c ∈ get_danger_positions obstacles ->
  (c ∉ obstacles) ∧ exists o, o ∈ obstacles ∧ adjacent8 o c.
Proof.
  unfold get_danger_positions. intros H.
  apply list_elem_of_bind in H as (o & Hc & Ho).
  apply elem_of_elements in Ho.
  apply danger_around_spec in Hc as (Hnot & Hx & Hy).
  split; [done |]. exists o. split; [done |].
  unfold adjacent8.
  assert (o ≠ c) by (intros ->; done).
  destruct o as [ox oy], c as [x y]. unfold coord_x, coord_y in *.
  simpl in *.
  assert (ox ≠ x ∨ oy ≠ y) by (destruct (decide (ox = x)); [right | left]; congruence).
  lia.
Qed.

Lemma danger_positions_adjacent_witness :
  ((-1, -1) ∉ ({[ (0, 0) ]} : gset (Z * Z)))
  ∧ exists o, o ∈ ({[ (0, 0) ]} : gset (Z * Z)) ∧ adjacent8 o (-1, -1).
Proof.
  apply (danger_positions_adjacent {[ (0, 0) ]} (-1, -1)).
  vm_compute. apply list_elem_of_here.
Defined.

(** C6 (as stated) fails: with the single obstacle (0, 0) on a 10 x 10
    grid, the cell (-1, -1) is listed although it is out of bounds. *)
Lemma danger_positions_out_of_bounds :
  (-1, -1) ∈ get_danger_positions {[ (0, 0) ]}
  ∧ is_valid_position (Grid_init 10 10) (-1, -1) = false.
Proof. split; [vm_compute; apply list_elem_of_here | reflexivity]. Qed.

(** ** A* search *)

(** More fuel does not change a result. *)
Lemma reconstruct_path_loop_fuel (n k : nat) nodes cur path r :
  reconstruct_path_loop n nodes cur path = Returned r ->
  reconstruct_path_loop (n + k) nodes cur path = Returned r.
Proof.
  revert cur path. induction n as [| n IH]; intros cur path H.
  - destruct cur; [discriminate |]. simpl in *. by destruct k.
  - destruct cur as [p |]; simpl in *; [by apply IH | done].
Qed.

Lemma astar_loop_fuel (n k : nat) grid goal obstacles st r :
  astar_loop n grid goal obstacles st = Returned r ->
  astar_loop (n + k) grid goal obstacles st = Returned r.
Proof.
  revert st. induction n as [| n IH]; intros st H.
  - simpl in H. destruct (open_set st) eqn:E; [| discriminate].
    destruct k; simpl; by rewrite E.
  - simpl in *. destruct (open_set st); [done |].
    destruct (heappop _ _) as [[open' cur] |]; [| done].
    destruct (decide (cur = goal)); [done |]. by apply IH.
Qed.

Lemma find_path_astar_fuel (n k : nat) grid start goal obstacles r :
  find_path_astar n grid start goal obstacles = Returned r ->
  find_path_astar (n + k) grid start goal obstacles = Returned r.
Proof.
  unfold find_path_astar. repeat case_match; try done. apply astar_loop_fuel.
Qed.

(** No search is started from or towards a cell that is out of bounds
    or an obstacle. *)
Lemma find_path_astar_guard (fuel : nat) grid start goal obstacles :
  free_cell grid obstacles start && free_cell grid obstacles goal = false ->
  find_path_astar fuel grid start goal obstacles = Returned None.
Proof.
  unfold find_path_astar, free_cell. intros H.
  destruct (is_valid_position grid start), (is_valid_position grid goal);
    simpl in *; try done.
  destruct (bool_decide (start ∈ obstacles)),
           (bool_decide (goal ∈ obstacles)); simpl in *; done.
Qed.

(** C1.  On the 7 x 4 grid with obstacles (1,1), (5,0), (5,1), from
    (0,1) to (6,0), both of them free cells: the search returns, for
    every sufficient number of loop iterations, a path of 12 cells (11
    steps), which is a path of the filtered graph; but a path of 10
    cells (9 steps) exists, and 9 is the breadth-first distance. *)
Theorem find_path_astar_not_shortest (extra : nat) :
  let grid := Grid_init 7 4 in
  let obstacles : gset (Z * Z) := {[ (1, 1); (5, 0); (5, 1) ]} in
  let found := [(0, 1); (0, 0); (1, 0); (2, 0); (3, 0); (4, 0); (4, 1);
                (4, 2); (5, 2); (6, 2); (6, 1); (6, 0)] in
  let shorter := [(0, 1); (0, 2); (1, 2); (2, 2); (3, 2); (4, 2); (5, 2);
                  (6, 2); (6, 1); (6, 0)] in
  find_path_astar (27 + extra) grid (0, 1) (6, 0) obstacles
    = Returned (Some found)
  ∧ is_path grid obstacles (0, 1) (6, 0) found = true
  ∧ is_path grid obstacles (0, 1) (6, 0) shorter = true
  ∧ length found = 12%nat ∧ length shorter = 10%nat
  ∧ bfs_distance grid obstacles (0, 1) (6, 0) = Some 9%nat.
Proof.
  intros grid obstacles found shorter.
  split; [apply find_path_astar_fuel |]; vm_compute; done.
Qed.

(** ** The game: keys of the snake dict *)

(** *** Listing a set *)

Lemma remove_dups_id (l : list string) : NoDup l -> remove_dups l = l.
Proof.
  induction 1 as [| x l Hx _ IH]; [done |]. cbn [remove_dups].
  destruct (decide_rel elem_of x l); [done | by rewrite IH].
Qed.

Lemma filter_all {A} (P : A -> Prop) `{forall x, Decision (P x)}
    (l : list A) :
  (forall x, x ∈ l -> P x) -> filter P l = l.
Proof.
  induction l as [| x l IH]; intros Hl; [done |].
  rewrite filter_cons_True by (apply Hl; left).
  f_equal. apply IH. intros y Hy. apply Hl. by right.
Qed.

Lemma filter_none {A} (P : A -> Prop) `{forall x, Decision (P x)}
    (l : list A) :
  (forall x, x ∈ l -> ~ P x) -> filter P l = [].
Proof.
  induction l as [| x l IH]; intros Hl; [done |].
  rewrite filter_cons_False by (apply Hl; left).
  apply IH. intros y Hy. apply Hl. by right.
Qed.

(** The list has the members of the set and nothing else. *)
Lemma py_list_of_set_elem (order : list string) (s : gset string)
    (x : string) :
  x ∈ py_list_of_set order s <-> x ∈ s.
Proof.
  unfold py_list_of_set.
  set (named := filter (fun x => x ∈ s) (remove_dups order)).
  rewrite elem_of_app. split.
  - intros [Hx | Hx].
    + by apply list_elem_of_filter in Hx as [Hx _].
    + apply list_elem_of_filter in Hx as [_ Hx]. by apply elem_of_elements.
  - intros Hx. destruct (decide (x ∈ named)) as [Hin | Hnin]; [by left |].
    right. apply list_elem_of_filter. split; [done |].
    by apply elem_of_elements.
Qed.

(** Each member is listed once. *)
Lemma py_list_of_set_NoDup (order : list string) (s : gset string) :
  NoDup (py_list_of_set order s).
Proof.
  unfold py_list_of_set. apply NoDup_app. split; [| split].
  - apply NoDup_filter, NoDup_remove_dups.
  - by intros x Hx [Hnot _]%list_elem_of_filter.
  - apply NoDup_filter, NoDup_elements.
Qed.

Lemma py_list_of_set_perm (order : list string) (s : gset string) :
  py_list_of_set order s ≡ₚ elements s.
Proof.
  apply NoDup_Permutation;
    [apply py_list_of_set_NoDup | apply NoDup_elements |].
  intros x. by rewrite py_list_of_set_elem, elem_of_elements.
Qed.

(** Every arrangement of the members is the list for some order. *)
Lemma py_list_of_set_any (l : list string) (s : gset string) :
  l ≡ₚ elements s -> py_list_of_set l s = l.
Proof.
  intros Hl. unfold py_list_of_set.
  assert (Hnd : NoDup l) by (rewrite Hl; apply NoDup_elements).
  assert (Hin : forall x, x ∈ l <-> x ∈ s).
  { intros x. by rewrite Hl, elem_of_elements. }
  rewrite remove_dups_id by done.
  rewrite (filter_all (fun x => x ∈ s)) by (intros x; apply Hin).
  rewrite filter_none; [by rewrite app_nil_r |].
  intros x Hx%elem_of_elements%Hin Hnot. done.
Qed.

Lemma py_list_of_set_nil (s : gset string) :
  py_list_of_set [] s = elements s.
Proof.
  unfold py_list_of_set. cbn [remove_dups].
  rewrite filter_nil. cbn [app]. apply filter_all.
  intros x _. apply not_elem_of_nil.
Qed.

Lemma py_list_of_set_empty (order : list string) :
  py_list_of_set order ∅ = [].
Proof.
  destruct (py_list_of_set order ∅) as [| x l] eqn:E; [done |].
  assert (Hx : x ∈ py_list_of_set order ∅) by (rewrite E; left).
  apply py_list_of_set_elem in Hx. by apply not_elem_of_empty in Hx.
Qed.

Lemma post_bind {A B} (Q : A -> Prop) (R : B -> Prop) (o : outcome A)
    (k : A -> outcome B) :
  post Q o -> (forall a, Q a -> post R (k a)) -> post R (o ≫= k).
Proof. destruct o; simpl; auto. Qed.

Lemma safe_bind {A B} (Q : A -> Prop) (R : B -> Prop) (o : outcome A)
    (k : A -> outcome B) :
  safe Q o -> (forall a, Q a -> safe R (k a)) -> safe R (o ≫= k).
Proof. destruct o; simpl; auto. Qed.

Lemma post_for_each {A S} (R : S -> S -> Prop) (body : S -> A -> outcome S)
    (l : list A) :
  (forall s, R s s) -> (forall s1 s2 s3, R s1 s2 -> R s2 s3 -> R s1 s3) ->
  (forall s a, a ∈ l -> post (R s) (body s a)) ->
  forall s, post (R s) (for_each body s l).
Proof.
  intros Hrefl Htrans. induction l as [| a l IH]; intros Hbody s; simpl.
  - apply Hrefl.
  - eapply post_bind; [apply Hbody; left |].
    intros s' Hs'. specialize (IH (fun s a Ha => Hbody s a (list_elem_of_further _ _ _ Ha)) s').
    destruct (for_each body s' l); simpl in *; eauto.
Qed.

Lemma safe_for_each {A S} (P : S -> Prop) (body : S -> A -> outcome S)
    (l : list A) :
  (forall s a, a ∈ l -> P s -> safe P (body s a)) ->
  forall s, P s -> safe P (for_each body s l).
Proof.
  induction l as [| a l IH]; intros Hbody s Hs; simpl; [done |].
  eapply safe_bind; [apply Hbody; [left | done] |].
  intros s' Hs'. apply IH; [| done].
  intros s0 a0 Ha0. apply Hbody. by right.
Qed.

Lemma snakes_lookup_is_Some (sid : string) (l : list (string * Snake)) :
  is_Some (snakes_lookup sid l) <-> sid ∈ l.*1.
Proof.
  induction l as [| [k s] l IH]; simpl.
  - split; [by intros [? ?] | by intros ?%elem_of_nil].
  - destruct (decide (k = sid)) as [-> | Hne].
    + split; [intros _; left | eauto].
    + rewrite IH. split; [by right |].
      intros [? | ?]%elem_of_cons; [congruence | done].
Qed.

Lemma snakes_has_true (sid : string) (l : list (string * Snake)) :
  snakes_has sid l = true <-> sid ∈ l.*1.
Proof.
  unfold snakes_has. rewrite bool_decide_eq_true. apply snakes_lookup_is_Some.
Qed.

Lemma snakes_has_false (sid : string) (l : list (string * Snake)) :
  snakes_has sid l = false <-> sid ∉ l.*1.
Proof.
  unfold snakes_has. rewrite bool_decide_eq_false.
  by rewrite snakes_lookup_is_Some.
Qed.

Lemma snakes_alter_ids (f : Snake -> Snake) (sid : string)
    (l : list (string * Snake)) :
  (snakes_alter f sid l).*1 = l.*1.
Proof.
  unfold snakes_alter. rewrite <- list_fmap_compose.
  apply list_fmap_ext. intros i [k s] _. simpl. by destruct (decide (k = sid)).
Qed.

Lemma same_ids_trans (m1 m2 m3 : MultiSnakeGame) :
  same_ids m1 m2 -> same_ids m2 m3 -> same_ids m1 m3.
Proof. unfold same_ids. congruence. Qed.

Lemma handle_snake_elimination_ids (sid : string) (m : MultiSnakeGame) :
  post (same_ids m) (handle_snake_elimination sid m).
Proof.
  unfold handle_snake_elimination. simpl. by destruct (snakes_lookup _ _).
Qed.

Lemma handle_snake_collision_ids (a b : string) (pos : SquareCoord)
    (m : MultiSnakeGame) :
  post (same_ids m) (handle_snake_collision a b pos m).
Proof.
  unfold handle_snake_collision. destruct (game_mode m); try done.
  - eapply post_bind; [apply handle_snake_elimination_ids |].
    intros m1 H1. pose proof (handle_snake_elimination_ids b m1) as H2.
    destruct (handle_snake_elimination b m1); simpl in *; try done.
    by eapply same_ids_trans.
  - destruct (snakes_lookup _ _); [| done].
    case_bool_decide; [apply handle_snake_elimination_ids | done].
Qed.

Lemma snake_collision_step_ids (sid : string) (hd : SquareCoord)
    (acc : MultiSnakeGame * list CollisionEvent) (kv : string * Snake) :
  post (fun acc' => same_ids acc.1 acc'.1) (snake_collision_step sid hd acc kv).
Proof.
  destruct acc as [m events], kv as [other_id other_snake]. simpl.
  destruct (_ && _); [| done].
  eapply post_bind; [apply handle_snake_collision_ids | done].
Qed.

Lemma handle_snake_movement_ids (sid : string) (snake : Snake)
    (tl : option SquareCoord) (m : MultiSnakeGame) :
  post (fun r => same_ids m r.1) (handle_snake_movement sid snake tl m).
Proof.
  unfold handle_snake_movement. destruct (get_head snake) as [hd |]; [| done].
  destruct (negb _).
  { eapply post_bind; [apply handle_snake_elimination_ids | done]. }
  destruct (check_self_collision snake).
  { eapply post_bind; [apply handle_snake_elimination_ids | done]. }
  eapply post_bind.
  - apply (post_for_each (fun a a' => same_ids a.1 a'.1)); [done | |].
    + intros ???. apply same_ids_trans.
    + intros acc kv _. apply snake_collision_step_ids.
  - by intros [m1 events] H.
Qed.

Lemma move_step_ids (acc : MultiSnakeGame * list CollisionEvent) (sid : string) :
  post (fun acc' => same_ids acc.1 acc'.1) (move_step acc sid).
Proof.
  destruct acc as [m events]. simpl.
  destruct (snakes_lookup sid (snakes m)) as [snake |]; [| done].
  destruct (Snake_move snake) as [snake' tl].
  eapply post_bind; [apply handle_snake_movement_ids |].
  intros [m2 evs] H. simpl in *. unfold same_ids, snake_ids in *.
  simpl in H. by rewrite snakes_alter_ids in H.
Qed.

Lemma update_food_ids (fuel : nat) (env : Env) (i : nat) (m : MultiSnakeGame) :
  post (same_ids m) (update_food fuel env i m).
Proof.
  revert i m. induction fuel as [| fuel IH]; intros i m; simpl.
  - by destruct (_ <? _).
  - destruct (_ <? _); [| done].
    destruct (Qlt_le_dec _ _); [| apply IH].
    destruct (spawn_food _ _) as [new_food |]; [| apply IH].
    match goal with |- post _ (update_food _ _ _ ?m') =>
      specialize (IH (S i) m') end.
    by destruct (update_food _ _ _ _).
Qed.

Lemma food_step_ids (acc : MultiSnakeGame * list CollisionEvent * list nat)
    (ifood : nat * Food) :
  post (fun acc' => same_ids acc.1.1 acc'.1.1) (food_step acc ifood).
Proof.
  destruct acc as [[m events] rm], ifood as [i food]. simpl.
  destruct (find_eater m food) as [[sid s] |]; [| done]. simpl.
  destruct (scores m !! sid); [| done]. simpl.
  unfold same_ids, snake_ids. simpl. apply snakes_alter_ids.
Qed.

Lemma check_food_collisions_ids (m : MultiSnakeGame) :
  post (fun r => same_ids m r.1) (check_food_collisions m).
Proof.
  unfold check_food_collisions. eapply post_bind.
  - apply (post_for_each (fun a a' => same_ids a.1.1 a'.1.1)); [done | |].
    + intros ???. apply same_ids_trans.
    + intros acc kv _. apply food_step_ids.
  - intros [[m1 events] rm] H. simpl in *.
    by destruct (for_each remove_eaten _ _) as [[items g] | |].
Qed.

Lemma update_ai_snakes_ids (env : Env) (m : MultiSnakeGame) :
  same_ids m (update_ai_snakes env m).
Proof.
  unfold same_ids, snake_ids, update_ai_snakes. simpl.
  rewrite <- list_fmap_compose. apply list_fmap_ext.
  intros i [k s] _. simpl. by destruct (_ && _).
Qed.

Lemma update_ids (fuel : nat) (env : Env) (dt : Q) (m : MultiSnakeGame) :
  post (fun r => same_ids m r.1) (update fuel env dt m).
Proof.
  unfold update.
  eapply post_bind.
  { apply (post_for_each (fun a a' => same_ids a.1 a'.1)); [done | |].
    - intros ???. apply same_ids_trans.
    - intros acc sid _. apply move_step_ids. }
  intros [m3 events] H3. simpl in H3.
  eapply post_bind; [apply update_food_ids |].
  intros m4 H4.
  eapply post_bind; [apply check_food_collisions_ids |].
  intros [m5 food_events] H5. simpl in *.
  pose proof (update_ai_snakes_ids env (set_game_time (game_time m + dt)%Q m)) as H2.
  unfold same_ids, snake_ids in *. simpl in *. congruence.
Qed.

(** Every call keeps the ids already in the dict. *)
Lemma run_call_ids (c : Call) (m m' : MultiSnakeGame) (sid : string) :
  run_call c m = Some m' -> sid ∈ snake_ids m -> sid ∈ snake_ids m'.
Proof.
  unfold snake_ids.
  destruct c as [k start d | k start p d | k | fuel env dt | t | n | r]; simpl;
    try (by intros [= <-]).
  - unfold add_player_snake. intros [= <-] Hin.
    repeat case_match; simpl; try done.
    rewrite fmap_app. apply elem_of_app. by left.
  - unfold add_ai_snake. intros [= <-] Hin.
    repeat case_match; simpl; try done.
    rewrite fmap_app. apply elem_of_app. by left.
  - unfold remove_snake. intros [= <-] Hin. by case_match.
  - pose proof (update_ids fuel env dt m) as H.
    destruct (update fuel env dt m) as [[m1 evs] | |]; try done.
    intros [= <-] Hin. unfold same_ids, snake_ids in H. simpl in H.
    by rewrite H.
Qed.

Lemma run_calls_ids (cs : list Call) (m m' : MultiSnakeGame) (sid : string) :
  run_calls cs m = Some m' -> sid ∈ snake_ids m -> sid ∈ snake_ids m'.
Proof.
  revert m. induction cs as [| c cs IH]; intros m; simpl.
  - by intros [= <-].
  - destruct (run_call c m) as [m1 |] eqn:E; [| done].
    intros H Hin. eapply IH; [done |]. by eapply run_call_ids.
Qed.

(** C10 (as amended).  Once [remove_snake] has returned true for an id,
    the id stays a key of the snake dict through every later sequence
    of calls that add, remove and move snakes or set a setting, that
    is, until [reset_game] is called; and up to then adding a player or
    an AI snake under that id returns false and changes nothing,
    whatever the start position. *)
Theorem removed_id_never_reused (sid : string) (m m1 m2 : MultiSnakeGame)
    (cs : list Call) (start : SquareCoord) (d : Direction)
    (p : AIPersonality) (q : Q) :
  remove_snake sid m = (m1, true) ->
  run_calls cs m1 = Some m2 ->
  sid ∈ snake_ids m2
  ∧ add_player_snake sid start d m2 = (m2, false)
  ∧ add_ai_snake sid start p q m2 = (m2, false).
Proof.
  unfold remove_snake. intros Hrm Hcs.
  destruct (snakes_has sid (snakes m)) eqn:Hhas; [| done].
  simpl in Hrm. injection Hrm as <-.
  apply snakes_has_true in Hhas.
  assert (Hin : sid ∈ snake_ids m2) by (eapply run_calls_ids; done).
  apply snakes_has_true in Hin as Hhas2.
  unfold add_player_snake, add_ai_snake. by rewrite Hhas2.
Qed.

(** ** The game: well-formedness is kept and calls do not raise *)

Lemma well_formed_frame (m m' : MultiSnakeGame) :
  snake_ids m' = snake_ids m ->
  (forall sid, is_Some (scores m !! sid) -> is_Some (scores m' !! sid)) ->
  active_snakes m' = active_snakes m ->
  eliminated_snakes m' = eliminated_snakes m ->
  well_formed m -> well_formed m'.
Proof.
  unfold well_formed, dict_ok, sets_ok.
  intros -> Hsc -> -> ([Hnd Hcov] & Ha & He & Hd). repeat split; auto.
Qed.

Lemma wf_step_refl (m : MultiSnakeGame) : well_formed m -> wf_step m m.
Proof. intros H. split; [done |]. by split. Qed.

Lemma wf_step_trans (m1 m2 m3 : MultiSnakeGame) :
  wf_step m1 m2 -> wf_step m2 m3 -> wf_step m1 m3.
Proof.
  unfold wf_step, same_ids. intros (_ & He1 & Hi1) (Hwf & He2 & Hi2).
  split; [done |]. split; [set_solver | congruence].
Qed.

(** A change that leaves dict keys, scores and both sets alone. *)
Lemma wf_step_frame (m0 m m' : MultiSnakeGame) :
  snake_ids m' = snake_ids m ->
  (forall sid, is_Some (scores m !! sid) -> is_Some (scores m' !! sid)) ->
  active_snakes m' = active_snakes m ->
  eliminated_snakes m' = eliminated_snakes m ->
  wf_step m0 m -> wf_step m0 m'.
Proof.
  unfold wf_step, same_ids. intros Hi Hs Ha He (Hwf & Hsub & Hids).
  split; [by eapply well_formed_frame |].
  split; [by rewrite He | congruence].
Qed.

Lemma handle_snake_elimination_wf (sid : string) (m : MultiSnakeGame) :
  well_formed m -> sid ∈ snake_ids m ->
  safe (wf_step m) (handle_snake_elimination sid m).
Proof.
  intros Hwf Hin. unfold handle_snake_elimination. simpl.
  apply snakes_lookup_is_Some in Hin as Hlk. destruct Hlk as [snake ->]. simpl.
  destruct Hwf as ([Hnd Hcov] & Ha & He & Hd).
  unfold wf_step, well_formed, dict_ok, sets_ok, same_ids, snake_ids in *.
  simpl. repeat split; auto.
  - intros x [Hx _]%elem_of_difference. auto.
  - intros x [->%elem_of_singleton | Hx]%elem_of_union; auto.
  - apply elem_of_disjoint.
    intros x [Hx Hne]%elem_of_difference [Hx' | Hx']%elem_of_union;
      [done | by apply (proj1 (elem_of_disjoint _ _) Hd x)].
  - apply union_subseteq_r.
Qed.

Lemma handle_snake_collision_wf (a b : string) (pos : SquareCoord)
    (m : MultiSnakeGame) :
  well_formed m -> a ∈ snake_ids m -> b ∈ snake_ids m ->
  safe (wf_step m) (handle_snake_collision a b pos m).
Proof.
  intros Hwf Ha Hb. unfold handle_snake_collision.
  destruct (game_mode m); try (by apply wf_step_refl).
  - eapply safe_bind; [by apply handle_snake_elimination_wf |].
    intros m1 H1. pose proof H1 as (Hwf1 & _ & Hids).
    pose proof (handle_snake_elimination_wf b m1 Hwf1) as H2.
    rewrite Hids in H2. specialize (H2 Hb).
    destruct (handle_snake_elimination b m1); simpl in *; try done.
    by eapply wf_step_trans.
  - apply snakes_lookup_is_Some in Ha as Hlk. destruct Hlk as [s1 ->].
    case_bool_decide; [by apply handle_snake_elimination_wf |].
    by apply wf_step_refl.
Qed.

Lemma snake_collision_step_wf (m0 : MultiSnakeGame) (sid : string)
    (hd : SquareCoord) (acc : MultiSnakeGame * list CollisionEvent)
    (kv : string * Snake) :
  sid ∈ snake_ids m0 -> kv.1 ∈ snake_ids m0 -> wf_step m0 acc.1 ->
  safe (fun acc' => wf_step m0 acc'.1) (snake_collision_step sid hd acc kv).
Proof.
  destruct acc as [m events], kv as [other_id other_snake]. simpl.
  intros Hsid Hother Hstep. destruct (_ && _); [| done].
  pose proof Hstep as (Hwf & _ & Hids).
  eapply safe_bind.
  - apply handle_snake_collision_wf; [done | by rewrite Hids ..].
  - intros m' Hm'. simpl. by eapply wf_step_trans.
Qed.

Lemma handle_snake_movement_wf (sid : string) (snake : Snake)
    (tl : option SquareCoord) (m : MultiSnakeGame) :
  well_formed m -> sid ∈ snake_ids m ->
  safe (fun r => wf_step m r.1) (handle_snake_movement sid snake tl m).
Proof.
  intros Hwf Hin. unfold handle_snake_movement.
  destruct (get_head snake) as [hd |]; [| by apply wf_step_refl].
  destruct (negb _).
  { eapply safe_bind; [by apply handle_snake_elimination_wf | done]. }
  destruct (check_self_collision snake).
  { eapply safe_bind; [by apply handle_snake_elimination_wf | done]. }
  eapply safe_bind.
  - apply (safe_for_each (fun acc => wf_step m acc.1)).
    + intros acc kv Hkv Hacc. apply snake_collision_step_wf; [done | | done].
      unfold snake_ids. by apply list_elem_of_fmap_2.
    + by apply wf_step_refl.
  - intros [m1 events] H1. simpl in *. by eapply wf_step_frame.
Qed.

Lemma move_step_wf (m0 : MultiSnakeGame)
    (acc : MultiSnakeGame * list CollisionEvent) (sid : string) :
  sid ∈ snake_ids m0 -> wf_step m0 acc.1 ->
  safe (fun acc' => wf_step m0 acc'.1) (move_step acc sid).
Proof.
  destruct acc as [m events]. simpl. intros Hsid Hstep.
  pose proof Hstep as (Hwf & _ & Hids).
  assert (Hin : sid ∈ snake_ids m) by by rewrite Hids.
  apply snakes_lookup_is_Some in Hin as Hlk. destruct Hlk as [snake ->].
  destruct (Snake_move snake) as [snake' tl].
  set (m1 := set_snakes _ m).
  assert (Hi1 : snake_ids m1 = snake_ids m) by apply snakes_alter_ids.
  assert (Hstep1 : wf_step m0 m1) by by eapply wf_step_frame.
  eapply safe_bind.
  - apply handle_snake_movement_wf; [apply Hstep1 | by rewrite Hi1].
  - intros [m2 evs] H2. simpl in *. by eapply wf_step_trans.
Qed.

Lemma update_food_wf (fuel : nat) (env : Env) (i : nat) (m0 m : MultiSnakeGame) :
  wf_step m0 m -> safe (wf_step m0) (update_food fuel env i m).
Proof.
  revert i m. induction fuel as [| fuel IH]; intros i m Hstep; simpl.
  - by destruct (_ <? _).
  - destruct (_ <? _); [| done].
    destruct (Qlt_le_dec _ _); [| by apply IH].
    destruct (spawn_food _ _) as [new_food |]; [| by apply IH].
    apply IH. by eapply wf_step_frame.
Qed.

(** ** Food collisions *)

Lemma eater_id_view (m m' : MultiSnakeGame) (f : Food) :
  same_view m m' -> eater_id m' f = eater_id m f.
Proof.
  intros (Hh & Ha & _). unfold eater_id, find_eater. rewrite Ha.
  unfold heads_view in Hh. revert Hh.
  generalize (snakes m') as l'. generalize (snakes m) as l.
  induction l as [| [k s] l IH]; intros [| [k' s'] l']; simpl; try done.
  intros [= -> Hhd Hl]. rewrite Hhd. destruct (_ && _); [done |].
  by apply IH.
Qed.

Lemma same_view_trans (m1 m2 m3 : MultiSnakeGame) :
  same_view m1 m2 -> same_view m2 m3 -> same_view m1 m3.
Proof. unfold same_view. intros (?&?&?&?&?) (?&?&?&?&?). repeat split; congruence. Qed.

Lemma heads_view_ids (m : MultiSnakeGame) : (heads_view m).*1 = snake_ids m.
Proof.
  unfold heads_view, snake_ids. rewrite <- list_fmap_compose.
  by apply list_fmap_ext.
Qed.

Lemma find_eater_elem (m : MultiSnakeGame) (f : Food) (w : string) (s : Snake) :
  find_eater m f = Some (w, s) ->
  (w, s) ∈ snakes m ∧ w ∈ active_snakes m ∧ get_head s = Some (position f).
Proof.
  unfold find_eater. intros [Hin Hp]%find_some. simpl in Hp.
  apply andb_true_iff in Hp as [Ha Hh].
  apply bool_decide_eq_true in Ha, Hh. split; [| done].
  by apply list_elem_of_In.
Qed.



Lemma fmap_add_zero (o : option Z) : (fun sc => sc + 0) <$> o = o.
Proof. destruct o; simpl; f_equal. lia. Qed.

(** One iteration of the food loop. *)
Lemma food_step_spec (m : MultiSnakeGame) (ev : list CollisionEvent)
    (rm : list nat) (i : nat) (f : Food) :
  dict_ok m ->
  exists m',
    food_step (m, ev, rm) (i, f)
      = Returned (m', ev ++ option_list (food_event m f),
                  rm ++ eaten_refs m [(i, f)])
    ∧ same_view m m' ∧ dict_ok m'
    ∧ forall u, scores m' !! u
        = (fun sc => sc + gain m u [f]) <$> scores m !! u.
Proof.
  intros [Hnd Hcov].
  destruct (find_eater m f) as [[w s] |] eqn:E.
  - assert (Hid : eater_id m f = Some w) by (unfold eater_id; by rewrite E).
    unfold food_step, food_event, eaten_refs. rewrite E. simpl. rewrite Hid.
    apply find_eater_elem in E as (Hin & Ha & Hh).
    assert (Hw : w ∈ snake_ids m).
    { unfold snake_ids. by apply (list_elem_of_fmap_2 fst) in Hin. }
    destruct (Hcov w Hw) as [sc Hsc]. rewrite Hsc. eexists. split; [done |].
    split; [| split].
    + unfold same_view, heads_view. simpl. repeat split; try done.
      unfold snakes_alter. rewrite <- list_fmap_compose.
      apply list_fmap_ext. intros j [k s'] _. simpl.
      by destruct (decide (k = w)).
    + split; unfold snake_ids; simpl; rewrite snakes_alter_ids; [done |].
      intros sid Hsid. destruct (decide (w = sid)) as [-> | Hne].
      * rewrite lookup_insert_eq. by eexists.
      * rewrite lookup_insert_ne by done. by apply Hcov.
    + intros u. simpl. destruct (decide (Some w = Some u)) as [[= ->] | Hne].
      * rewrite lookup_insert_eq, Hsc. simpl. f_equal. lia.
      * rewrite lookup_insert_ne by congruence.
        rewrite Z.add_0_l. by rewrite fmap_add_zero.
  - assert (Hid : eater_id m f = None) by (unfold eater_id; by rewrite E).
    unfold food_step, food_event, eaten_refs. rewrite E. simpl. rewrite Hid.
    exists m. simpl. rewrite !app_nil_r. repeat split; try done.
    intros u. destruct (scores m !! u); simpl; f_equal. lia.
Qed.

Lemma gain_view (m m' : MultiSnakeGame) (u : string) (foods : list Food) :
  same_view m m' -> gain m' u foods = gain m u foods.
Proof.
  intros Hv. induction foods as [| f fs IH]; simpl; [done |].
  by rewrite IH, (eater_id_view m m').
Qed.

(** The whole food loop. *)
Lemma food_loop_spec (refs : list (nat * Food)) (m : MultiSnakeGame)
    (ev : list CollisionEvent) (rm : list nat) :
  dict_ok m ->
  exists m',
    for_each food_step (m, ev, rm) refs
      = Returned (m', ev ++ omap (food_event m) refs.*2,
                  rm ++ eaten_refs m refs)
    ∧ same_view m m' ∧ dict_ok m'
    ∧ forall u, scores m' !! u
        = (fun sc => sc + gain m u refs.*2) <$> scores m !! u.
Proof.
  revert m ev rm. induction refs as [| [i f] refs IH]; intros m ev rm Hok.
  - exists m. simpl. rewrite !app_nil_r. repeat split; try done; try apply Hok.
    intros u. by rewrite fmap_add_zero.
  - destruct (food_step_spec m ev rm i f Hok) as (m1 & E1 & Hv1 & Hok1 & Hs1).
    destruct (IH m1 (ev ++ option_list (food_event m f))
                 (rm ++ eaten_refs m [(i, f)]) Hok1)
      as (m' & E & Hv & Hok' & Hs).
    exists m'. split; [| split; [by eapply same_view_trans | split; [done |]]].
    + cbn [for_each]. rewrite E1. cbn [mbind outcome_bind]. rewrite E.
      f_equal. f_equal; [f_equal |]; rewrite <- app_assoc; f_equal.
      * cbn [fmap list_fmap omap list_omap snd].
        replace (omap (food_event m1) refs.*2)
          with (omap (food_event m) refs.*2).
        { by destruct (food_event m f). }
        apply list_omap_ext. apply Forall2_fmap, Forall_Forall2_diag.
        apply Forall_forall. intros [j g] _. unfold food_event. simpl.
        by rewrite (eater_id_view m m1).
      * unfold eaten_refs. cbn [omap list_omap].
        replace (omap _ refs) with
          (omap (fun jf : nat * Food =>
                   match eater_id m jf.2 with
                   | Some _ => Some jf.1
                   | None => None
                   end) refs).
        { by destruct (eater_id m (i, f).2). }
        apply list_omap_ext, Forall_Forall2_diag, Forall_forall.
        intros [j g] _. simpl. by rewrite (eater_id_view m m1).
    + intros u. rewrite Hs, Hs1, <- option_fmap_compose.
      rewrite (gain_view m m1) by done. simpl.
      destruct (scores m !! u); simpl; f_equal. unfold fmap. lia.
Qed.

(** Removing references other than the first one leaves the first
    item in place. *)
Lemma remove_eaten_skip (j : nat) (f : Food) (rm : list nat) :
  j ∉ rm ->
  forall (items items' : list (nat * Food)) (g g' : Grid),
    for_each remove_eaten (items, g) rm = Returned (items', g') ->
    for_each remove_eaten ((j, f) :: items, g) rm
    = Returned ((j, f) :: items', g').
Proof.
  induction rm as [| i rm IH]; intros Hj items items' g g'.
  - by intros [= -> ->].
  - apply not_elem_of_cons in Hj as [Hne Hj]. cbn [for_each].
    assert (Hstep : remove_eaten ((j, f) :: items, g) i
                    = match remove_eaten (items, g) i with
                      | Returned (it, g1) => Returned ((j, f) :: it, g1)
                      | Raised => Raised
                      | OutOfFuel => OutOfFuel
                      end).
    { unfold remove_eaten. cbn [list_find fst].
      rewrite decide_False by done.
      destruct (list_find (fun jf : nat * Food => jf.1 = i) items)
        as [[n [k food]] |]; simpl; [| done].
      by rewrite decide_False by done. }
    rewrite Hstep.
    destruct (remove_eaten (items, g) i) as [[it g1] | |];
      cbn [mbind outcome_bind]; [| done ..].
    by apply IH.
Qed.

(** The removal loop finds every consumed item and keeps exactly the
    items that were not consumed. *)
Lemma remove_eaten_spec (m : MultiSnakeGame) (refs : list (nat * Food)) :
  NoDup refs.*1 ->
  forall g : Grid, exists g' : Grid,
    for_each remove_eaten (refs, g) (eaten_refs m refs)
    = Returned (filter (fun jf : nat * Food => eater_id m jf.2 = None) refs,
                g').
Proof.
  induction refs as [| [j f] refs IH]; intros Hnd g; [by exists g |].
  apply NoDup_cons in Hnd as [Hj Hnd].
  unfold eaten_refs. cbn [omap list_omap fst snd].
  rewrite filter_cons. cbn [snd].
  destruct (eater_id m f) as [w |] eqn:E.
  - rewrite decide_False by done. cbn [for_each].
    assert (Hstep : remove_eaten ((j, f) :: refs, g) j
                    = Returned (refs, vacate (position f) g)).
    { unfold remove_eaten. cbn [list_find fst].
      rewrite decide_True by done. simpl. by rewrite decide_True by done. }
    rewrite Hstep. cbn [mbind outcome_bind]. by apply IH.
  - rewrite decide_True by done. fold (eaten_refs m refs).
    destruct (IH Hnd g) as [g' Hg']. exists g'.
    apply remove_eaten_skip; [| done].
    intros Hin. apply Hj. unfold eaten_refs in Hin.
    apply list_elem_of_omap in Hin as ([k g0] & Hin & Hk).
    simpl in Hk. destruct (eater_id m g0); [| done].
    injection Hk as <-. by apply (list_elem_of_fmap_2 fst) in Hin.
Qed.

Lemma imap_refs_snd (foods : list Food) :
  (imap (fun i f => (i, f)) foods).*2 = foods.
Proof.
  apply list_eq. intros i.
  rewrite list_lookup_fmap, list_lookup_imap. by destruct (foods !! i).
Qed.

Lemma imap_refs_fst (foods : list Food) :
  (imap (fun i f => (i, f)) foods).*1 = seq 0 (length foods).
Proof.
  apply list_eq. intros i.
  rewrite list_lookup_fmap, list_lookup_imap.
  destruct (foods !! i) as [f |] eqn:E; simpl.
  - symmetry. apply lookup_seq. split; [done |]. by eapply lookup_lt_Some.
  - symmetry. apply lookup_seq_ge. by apply lookup_ge_None.
Qed.

Lemma filter_refs_snd (P : Food -> Prop) `{forall f, Decision (P f)}
    (refs : list (nat * Food)) :
  (filter (fun jf : nat * Food => P jf.2) refs).*2 = filter P refs.*2.
Proof.
  induction refs as [| [j f] refs IH]; [done |].
  rewrite fmap_cons, !filter_cons. cbn [snd].
  destruct (decide (P f)); rewrite ?fmap_cons; by rewrite IH.
Qed.

(** What [_check_food_collisions] returns and leaves behind. *)
Lemma check_food_collisions_spec (m : MultiSnakeGame) :
  dict_ok m ->
  exists m',
    check_food_collisions m
      = Returned (m', omap (food_event m) (food_items m))
    ∧ heads_view m' = heads_view m
    ∧ active_snakes m' = active_snakes m
    ∧ eliminated_snakes m' = eliminated_snakes m
    ∧ dict_ok m'
    ∧ food_items m' = filter (fun f => eater_id m f = None) (food_items m)
    ∧ forall u, scores m' !! u
        = (fun sc => sc + gain m u (food_items m)) <$> scores m !! u.
Proof.
  intros Hok. unfold check_food_collisions.
  pose proof (imap_refs_snd (food_items m)) as H2.
  pose proof (imap_refs_fst (food_items m)) as H1.
  revert H1 H2.
  generalize (imap (fun i f => (i, f)) (food_items m)) as refs.
  intros refs H1 H2.
  destruct (food_loop_spec refs m [] [] Hok) as (m1 & E & Hv & Hok1 & Hs).
  rewrite E, H2. cbn [mbind outcome_bind app].
  pose proof (remove_eaten_spec m refs) as Hrm.
  rewrite H1 in Hrm. destruct (Hrm (NoDup_seq _ _) (grid m1)) as [g Ef].
  rewrite Ef. cbn [mbind outcome_bind].
  eexists. split; [done |].
  destruct Hv as (Hh & Ha & He & _ & _).
  split; [done |]. split; [done |]. split; [done |]. split; [done |].
  split; [| intros u; simpl; by rewrite Hs, H2].
  simpl. rewrite <- H2.
  exact (filter_refs_snd (fun f => eater_id m f = None) refs).
Qed.










(** ** The game: invariants of the id sets *)

Lemma check_food_collisions_wf (m : MultiSnakeGame) :
  well_formed m -> safe (fun r => wf_step m r.1) (check_food_collisions m).
Proof.
  intros [Hok (Ha & He & Hd)].
  destruct (check_food_collisions_spec m Hok)
    as (m' & -> & Hh & Hact & Hel & Hok' & _ & _).
  simpl. assert (Hids : snake_ids m' = snake_ids m).
  { by rewrite <- !heads_view_ids, Hh. }
  split; [| split; [by rewrite Hel | done]].
  split; [done |]. unfold sets_ok. rewrite Hids, Hact, Hel. done.
Qed.

Lemma update_wf (fuel : nat) (env : Env) (dt : Q) (m : MultiSnakeGame) :
  well_formed m -> safe (fun r => wf_step m r.1) (update fuel env dt m).
Proof.
  intros Hwf. unfold update.
  set (m1 := set_game_time _ m). set (m2 := update_ai_snakes env m1).
  assert (H2 : wf_step m m2).
  { apply (wf_step_frame m m);
      [exact (update_ai_snakes_ids env m1) | done | done | done
      | by apply wf_step_refl]. }
  eapply safe_bind.
  { apply (safe_for_each (fun acc => wf_step m acc.1)); [| done].
    intros acc sid Hsid Hacc. apply move_step_wf; [| done].
    apply py_list_of_set_elem in Hsid.
    destruct H2 as ((_ & Ha & _) & _ & Hids). rewrite <- Hids. by apply Ha. }
  intros [m3 events] H3. simpl in H3.
  eapply safe_bind; [by apply (update_food_wf fuel env 0 m m3) |].
  intros m4 H4.
  eapply safe_bind; [apply check_food_collisions_wf, H4 |].
  intros [m5 food_events] H5. simpl in *.
  apply (wf_step_frame m m5); [done | done | done | done |].
  by eapply wf_step_trans.
Qed.

Lemma well_formed_init (g : Grid) (mode : GameMode) :
  well_formed (MultiSnakeGame_init g mode).
Proof.
  split; [split | split; [| split]]; simpl.
  - constructor.
  - by intros ? ?%elem_of_nil.
  - by intros ? ?%not_elem_of_empty.
  - by intros ? ?%not_elem_of_empty.
  - apply disjoint_empty_l.
Qed.

Lemma well_formed_add (sid : string) (s : Snake) (m : MultiSnakeGame) :
  well_formed m -> sid ∉ snake_ids m ->
  well_formed
    (set_active_eliminated ({[sid]} ∪ active_snakes m) (eliminated_snakes m)
       (set_scores (<[sid := 0]> (scores m))
          (set_snakes (snakes m ++ [(sid, s)]) m))).
Proof.
  intros ([Hnd Hcov] & Ha & He & Hd) Hnew.
  unfold well_formed, dict_ok, sets_ok, snake_ids in *. simpl.
  rewrite fmap_app. simpl.
  split; [split |]; [| | split; [| split]].
  - apply NoDup_app. split; [done |]. split; [| apply NoDup_singleton].
    intros x Hx ->%list_elem_of_singleton. done.
  - intros x [Hx | ->%list_elem_of_singleton]%elem_of_app.
    + destruct (decide (sid = x)) as [-> | Hne]; [done |].
      rewrite lookup_insert_ne by done. auto.
    + rewrite lookup_insert_eq. by eexists.
  - intros x [->%elem_of_singleton | Hx]%elem_of_union; apply elem_of_app;
      [right; apply list_elem_of_singleton | left]; auto.
  - intros x Hx. apply elem_of_app. left. auto.
  - apply elem_of_disjoint.
    intros x [->%elem_of_singleton | Hx]%elem_of_union Hx'.
    + apply Hnew. auto.
    + by apply (proj1 (elem_of_disjoint _ _) Hd x).
Qed.

(** Every call that returns keeps the state well formed and keeps the
    eliminated ids eliminated. *)
Lemma run_call_wf (c : Call) (m m' : MultiSnakeGame) :
  well_formed m -> run_call c m = Some m' ->
  well_formed m' ∧ eliminated_snakes m ⊆ eliminated_snakes m'.
Proof.
  intros Hwf.
  destruct c as [sid start d | sid start p d | sid | fuel env dt | t | n | r];
    simpl; try (by intros [= <-]; split; [destruct Hwf as [[? ?] ?] |]).
  - unfold add_player_snake. intros [= <-].
    destruct (snakes_has sid (snakes m)) eqn:Hhas; [done |].
    destruct (negb _); [done |]. simpl. split; [| done].
    apply well_formed_add; [done |]. by apply snakes_has_false.
  - unfold add_ai_snake. intros [= <-].
    destruct (snakes_has sid (snakes m)) eqn:Hhas; [done |].
    destruct (negb _); [done |]. simpl. split; [| done].
    apply well_formed_add; [done |]. by apply snakes_has_false.
  - unfold remove_snake. intros [= <-].
    destruct (snakes_has sid (snakes m)) eqn:Hhas; simpl; [| done].
    apply snakes_has_true in Hhas.
    pose proof (handle_snake_elimination_wf sid m Hwf Hhas) as H.
    unfold handle_snake_elimination in H. simpl in H.
    destruct (snakes_lookup sid (snakes m)); simpl in H; [| done].
    destruct H as (H & Hsub & _). split; [| done].
    eapply well_formed_frame; [| | | | apply H]; done.
  - pose proof (update_wf fuel env dt m Hwf) as H.
    destruct (update fuel env dt m) as [[m1 evs] | |]; try done.
    intros [= <-]. by destruct H as (? & ? & _).
Qed.

Lemma run_calls_wf (cs : list Call) (m m' : MultiSnakeGame) :
  well_formed m -> run_calls cs m = Some m' ->
  well_formed m' ∧ eliminated_snakes m ⊆ eliminated_snakes m'.
Proof.
  revert m. induction cs as [| c cs IH]; intros m Hwf; simpl.
  - by intros [= <-].
  - destruct (run_call c m) as [m1 |] eqn:E; [| done]. intros H.
    destruct (run_call_wf c m m1 Hwf E) as [Hwf1 Hsub1].
    destruct (IH m1 Hwf1 H) as [Hwf' Hsub']. split; [done |].
    by etrans.
Qed.

Lemma reachable_well_formed (m : MultiSnakeGame) :
  reachable m -> well_formed m.
Proof.
  intros (g & mode & cs & H).
  by destruct (run_calls_wf cs _ m (well_formed_init g mode) H).
Qed.

(** From a reachable state [update] never raises: every id it looks up
    in the snake dict or the score dict is there, and every food item it
    removes is in the list. *)
Lemma update_never_raises (fuel : nat) (env : Env) (dt : Q)
    (m : MultiSnakeGame) :
  reachable m -> update fuel env dt m ≠ Raised.
Proof.
  intros Hr E. pose proof (update_wf fuel env dt m (reachable_well_formed m Hr)) as H.
  by rewrite E in H.
Qed.

(** C9.  In every state reached from a fresh game by [add_player_snake],
    [add_ai_snake], [remove_snake] and [update] calls (and by the
    setters), the active and the eliminated set have no id in common;
    and an id that is eliminated stays eliminated, and out of the active
    set, after every further sequence of such calls. *)
Theorem elimination_is_one_way (m : MultiSnakeGame) :
  reachable m ->
  active_snakes m ## eliminated_snakes m
  ∧ forall (cs : list Call) (m' : MultiSnakeGame) (sid : string),
      run_calls cs m = Some m' ->
      sid ∈ eliminated_snakes m ->
      sid ∈ eliminated_snakes m' ∧ sid ∉ active_snakes m'.
Proof.
  intros Hr. pose proof (reachable_well_formed m Hr) as Hwf.
  split; [apply Hwf |].
  intros cs m' sid Hcs Hel.
  destruct (run_calls_wf cs m m' Hwf Hcs) as [(_ & _ & _ & Hd') Hsub].
  assert (sid ∈ eliminated_snakes m') by by apply Hsub.
  split; [done |]. intros Hact.
  by apply (proj1 (elem_of_disjoint _ _) Hd' sid).
Qed.

(** ** Snake against snake in SCORE_RACE *)

(** The events of the loop over the other snakes. *)
Lemma score_race_collision_loop (sid : string) (hd : SquareCoord)
    (l : list (string * Snake)) (m : MultiSnakeGame)
    (events : list CollisionEvent) :
  game_mode m = SCORE_RACE ->
  for_each (snake_collision_step sid hd) (m, events) l
  = Returned
      (m, events ++
          omap (fun kv : string * Snake =>
                  if bool_decide (kv.1 ≠ sid) && occupies_position hd kv.2
                  then Some (mkEvent sid SNAKE hd (Some kv.1)) else None) l).
Proof.
  intros Hmode. revert events.
  induction l as [| [k s] l IH]; intros events; simpl.
  - by rewrite app_nil_r.
  - destruct (_ && _); simpl.
    + unfold handle_snake_collision. rewrite Hmode. simpl.
      rewrite IH. by rewrite <- app_assoc.
    + apply IH.
Qed.

(** C2 (as amended).  In SCORE_RACE mode the collision handler changes
    nothing; when a snake has moved onto an in-bounds cell without
    hitting itself, the movement step emits one SNAKE event per other
    snake lying on that cell and leaves the active and the eliminated
    set as they were: no snake is eliminated. *)
Theorem score_race_collision_eliminates_nobody (m : MultiSnakeGame)
    (sid other : string) (snake : Snake) (tl : option SquareCoord)
    (hd : SquareCoord) :
  game_mode m = SCORE_RACE ->
  get_head snake = Some hd ->
  is_valid_position (grid m) hd = true ->
  check_self_collision snake = false ->
  handle_snake_collision sid other hd m = Returned m
  ∧ exists m',
      handle_snake_movement sid snake tl m
      = Returned
          (m', omap (fun kv : string * Snake =>
                       if bool_decide (kv.1 ≠ sid) && occupies_position hd kv.2
                       then Some (mkEvent sid SNAKE hd (Some kv.1)) else None)
                    (snakes m))
      ∧ active_snakes m' = active_snakes m
      ∧ eliminated_snakes m' = eliminated_snakes m.
Proof.
  intros Hmode Hhd Hvalid Hself. split.
  - unfold handle_snake_collision. by rewrite Hmode.
  - unfold handle_snake_movement. rewrite Hhd, Hvalid, Hself. simpl.
    rewrite score_race_collision_loop by done. simpl. by eexists.
Qed.

(** ** Adding snakes *)

(** C4 (as amended).  For an id not yet in the dict, adding a player or
    an AI snake at a start position that is out of bounds returns false
    and leaves the whole state unchanged.  Whether the start cell is
    occupied is not looked at. *)
Theorem add_snake_out_of_bounds (m : MultiSnakeGame) (sid : string)
    (start : SquareCoord) (d : Direction) (p : AIPersonality) (q : Q) :
  snakes_has sid (snakes m) = false ->
  is_valid_position (grid m) start = false ->
  add_player_snake sid start d m = (m, false)
  ∧ add_ai_snake sid start p q m = (m, false).
Proof.
  intros Hnew Hinvalid. unfold add_player_snake, add_ai_snake.
  by rewrite Hnew, Hinvalid.
Qed.

(** An in-bounds start is accepted whatever the grid occupancy is, and
    the call does not touch the grid. *)
Lemma add_snake_in_bounds (m : MultiSnakeGame) (sid : string)
    (start : SquareCoord) (d : Direction) (p : AIPersonality) (q : Q) :
  snakes_has sid (snakes m) = false ->
  is_valid_position (grid m) start = true ->
  (add_player_snake sid start d m).2 = true
  ∧ (add_ai_snake sid start p q m).2 = true
  ∧ grid (add_player_snake sid start d m).1 = grid m
  ∧ grid (add_ai_snake sid start p q m).1 = grid m.
Proof.
  intros Hnew Hvalid. unfold add_player_snake, add_ai_snake.
  by rewrite Hnew, Hvalid.
Qed.

(** ** The food loop on a small grid *)

Lemma empty_cells_free (g : Grid) (c : SquareCoord) :
  c ∈ empty_cells g -> c ∉ occupied_cells g.
Proof.
  unfold empty_cells. intros (x & H & _)%list_elem_of_bind.
  apply list_elem_of_bind in H as (y & H & _).
  unfold is_occupied in H. case_bool_decide; [by apply elem_of_nil in H |].
  by apply list_elem_of_singleton in H as ->.
Qed.

Lemma spawn_food_free (g : Grid) (pick : nat) (f : Food) :
  spawn_food g pick = Some f ->
  (position f ∉ occupied_cells g)
  ∧ Z.of_nat (size (occupied_cells g)) < width g * height g.
Proof.
  unfold spawn_food, get_random_empty_cell.
  destruct (_ >=? _) eqn:Hfull; [done |].
  destruct (empty_cells g) as [| c cells] eqn:Hcells; [done |].
  destruct ((c :: cells) !! _) as [c' |] eqn:Hlk; [| done].
  intros [= <-]. simpl. split; [| lia].
  apply empty_cells_free. rewrite Hcells. by eapply list_elem_of_lookup_2.
Qed.

(** When the grid has fewer cells than [max_food_items] and every food
    item sits on an occupied cell, the food loop never exits. *)
Lemma update_food_diverges (fuel : nat) (env : Env) :
  forall (i : nat) (m : MultiSnakeGame),
    (length (food_items m) <= size (occupied_cells (grid m)))%nat ->
    Z.of_nat (size (occupied_cells (grid m)))
      <= width (grid m) * height (grid m) ->
    width (grid m) * height (grid m) < max_food_items m ->
    update_food fuel env i m = OutOfFuel.
Proof.
  induction fuel as [| fuel IH]; intros i m Hfood Hsize Hmax; simpl.
  - destruct (_ <? _) eqn:Hlt; [done | lia].
  - destruct (_ <? _) eqn:Hlt; [| lia].
    destruct (Qlt_le_dec _ _); [| by apply IH].
    destruct (spawn_food _ _) as [new_food |] eqn:Hspawn; [| by apply IH].
    apply spawn_food_free in Hspawn as [Hfree Hroom].
    assert (Hsz : size ({[position new_food]} ∪ occupied_cells (grid m))
                  = S (size (occupied_cells (grid m)))).
    { rewrite size_union by (by apply disjoint_singleton_l).
      by rewrite size_singleton. }
    apply IH; simpl; rewrite ?Hsz, ?length_app; simpl; lia.
Qed.

(** On a fresh game whose grid has fewer than five cells, [update]
    does not return. *)
Lemma update_fresh_small_grid (fuel : nat) (env : Env) (dt : Q)
    (w h : Z) (mode : GameMode) :
  0 <= w * h < 5 ->
  update fuel env dt (MultiSnakeGame_init (Grid_init w h) mode) = OutOfFuel.
Proof.
  intros Hwh. unfold update. cbn [active_snakes update_ai_snakes set_snakes
    set_game_time MultiSnakeGame_init].
  rewrite py_list_of_set_empty. simpl.
  rewrite update_food_diverges; [done | | |].
  - apply Nat.le_0_l.
  - change (Z.of_nat (size (∅ : gset (Z * Z))) <= w * h).
    rewrite size_empty. lia.
  - change (w * h < 5). lia.
Qed.

(** With a spawn rate of zero no draw of [random.random()], which is
    never negative, succeeds: the food loop does not exit either. *)
Lemma update_food_rate_zero (fuel : nat) (env : Env) (m : MultiSnakeGame) :
  (forall i, (0 <= draws env i)%Q) ->
  Z.of_nat (length (food_items m)) < max_food_items m ->
  forall i, update_food fuel env i (set_food_spawn_rate 0 m) = OutOfFuel.
Proof.
  intros Hdraw Hlen. induction fuel as [| fuel IH]; intros i; simpl.
  - destruct (_ <? _) eqn:Hlt; [done | lia].
  - destruct (_ <? _) eqn:Hlt; [| lia].
    destruct (Qlt_le_dec _ _) as [Hd | Hd]; [| apply IH].
    exfalso. specialize (Hdraw i).
    apply (Qlt_irrefl 0). eapply Qle_lt_trans; [apply Hdraw |].
    eapply Qlt_le_trans; [apply Hd |]. vm_compute. discriminate.
Qed.

(** C5.  A fresh game on a 2 x 2 grid: whatever the random draws and
    however many iterations the food loop is given, the first
    [update] is still running; it never returns. *)
Theorem update_does_not_terminate (fuel : nat) (env : Env) (dt : Q)
    (mode : GameMode) :
  update fuel env dt (MultiSnakeGame_init (Grid_init 2 2) mode) = OutOfFuel.
Proof. by apply update_fresh_small_grid. Qed.

(** ** Scenarios *)

(** C2 (as stated) fails.  In the crossing game the head of "a" runs
    into "b" on the first tick.  In FREE_FOR_ALL mode "a" is eliminated;
    in SCORE_RACE mode the same SNAKE event is emitted but "a" stays in
    the active set and the eliminated set stays empty. *)
Lemma score_race_hit_not_eliminated :
  (exists m' events,
     update 5 env_spawn (1 # 60) (crossing_game FREE_FOR_ALL)
       = Returned (m', events)
     ∧ events = [mkEvent "a" SNAKE (6, 5) (Some "b")]
     ∧ elements (active_snakes m') = ["b"]
     ∧ elements (eliminated_snakes m') = ["a"])
  ∧ (exists m' events,
       update 5 env_spawn (1 # 60) (crossing_game SCORE_RACE)
         = Returned (m', events)
       ∧ events = [mkEvent "a" SNAKE (6, 5) (Some "b")]
       ∧ elements (active_snakes m') = ["a"; "b"]
       ∧ elements (eliminated_snakes m') = []).
Proof.
  split; eexists _, _; (split; [vm_compute; reflexivity |]);
    repeat split; vm_compute; reflexivity.
Qed.

Lemma score_race_collision_eliminates_nobody_witness :
  let m := crossing_game SCORE_RACE in
  let moved := mkSnake [(6, 5); (5, 5); (4, 5)] RIGHT RIGHT 0 "a" None in
  handle_snake_collision "a" "b" (6, 5) m = Returned m
  ∧ exists m',
      handle_snake_movement "a" moved (Some (3, 5)) m
      = Returned
          (m', omap (fun kv : string * Snake =>
                       if bool_decide (kv.1 ≠ "a")
                          && occupies_position (6, 5) kv.2
                       then Some (mkEvent "a" SNAKE (6, 5) (Some kv.1))
                       else None)
                    (snakes m))
      ∧ active_snakes m' = active_snakes m
      ∧ eliminated_snakes m' = eliminated_snakes m.
Proof.
  apply (score_race_collision_eliminates_nobody
           (crossing_game SCORE_RACE) "a" "b"
           (mkSnake [(6, 5); (5, 5); (4, 5)] RIGHT RIGHT 0 "a" None)
           (Some (3, 5)) (6, 5)); reflexivity.
Defined.

(** C4 (as stated) fails.  After the first tick of a fresh game the cell
    (0, 0) is occupied by a food item; adding a player or an AI snake
    there under a new id returns true and the dict gets the new snake. *)
Lemma add_snake_on_occupied_cell :
  exists m events,
    update 5 env_spawn (1 # 60)
           (MultiSnakeGame_init (Grid_init 10 10) FREE_FOR_ALL)
      = Returned (m, events)
    ∧ snakes_has "a" (snakes m) = false
    ∧ is_occupied (grid m) (0, 0) = true
    ∧ (add_player_snake "a" (0, 0) RIGHT m).2 = true
    ∧ (add_ai_snake "a" (0, 0) BALANCED (1 # 2) m).2 = true
    ∧ snake_ids (add_player_snake "a" (0, 0) RIGHT m).1 = ["a"]
    ∧ snake_ids (add_ai_snake "a" (0, 0) BALANCED (1 # 2) m).1 = ["a"].
Proof.
  eexists _, _. split; [vm_compute; reflexivity |].
  repeat split; vm_compute; reflexivity.
Qed.

Lemma add_snake_out_of_bounds_witness :
  let m := MultiSnakeGame_init (Grid_init 10 10) FREE_FOR_ALL in
  add_player_snake "a" (-1, 0) RIGHT m = (m, false)
  ∧ add_ai_snake "a" (-1, 0) BALANCED (1 # 2) m = (m, false).
Proof.
  apply (add_snake_out_of_bounds
           (MultiSnakeGame_init (Grid_init 10 10) FREE_FOR_ALL) "a" (-1, 0));
    reflexivity.
Defined.

Lemma elimination_is_one_way_witness :
  active_snakes removed_game ## eliminated_snakes removed_game
  ∧ forall (cs : list Call) (m' : MultiSnakeGame) (sid : string),
      run_calls cs removed_game = Some m' ->
      sid ∈ eliminated_snakes removed_game ->
      sid ∈ eliminated_snakes m' ∧ sid ∉ active_snakes m'.
Proof.
  apply (elimination_is_one_way removed_game).
  exists (Grid_init 10 10), SURVIVAL,
    [CallAddPlayer "a" (5, 5) RIGHT; CallRemove "a"].
  reflexivity.
Defined.

Lemma removed_id_never_reused_witness :
  let m2 := (add_player_snake "b" (1, 1) UP removed_game).1 in
  "a" ∈ snake_ids m2
  ∧ add_player_snake "a" (3, 3) LEFT m2 = (m2, false)
  ∧ add_ai_snake "a" (3, 3) RANDOM 1 m2 = (m2, false).
Proof.
  apply (removed_id_never_reused "a"
           (add_player_snake "a" (5, 5) RIGHT
              (MultiSnakeGame_init (Grid_init 10 10) SURVIVAL)).1
           removed_game
           (add_player_snake "b" (1, 1) UP removed_game).1
           [CallAddPlayer "b" (1, 1) UP]); reflexivity.
Defined.



(** The same through two whole ticks of the meeting game: on the second
    tick both heads reach the food on (4, 3); one FOOD event is emitted,
    for "a", whose score becomes 10 while "b" stays at 0, and four of
    the five food items are left. *)
Example shared_food_tick :
  exists m1 ev1 m2 ev2,
    update 5 env_food_ahead (1 # 60) meeting_game = Returned (m1, ev1)
    ∧ update 5 env_spawn (1 # 60) m1 = Returned (m2, ev2)
    ∧ ev1 = []
    ∧ mkFood (4, 3) "apple" 10 ∈ food_items m1
    ∧ ev2 = [mkEvent "b" SNAKE (4, 3) (Some "a");
             mkEvent "a" FOOD (4, 3) None]
    ∧ scores m2 !! "a" = Some 10
    ∧ scores m2 !! "b" = Some 0
    ∧ length (food_items m2) = 4%nat.
Proof.
  eexists _, _, _, _. split; [vm_compute; reflexivity |].
  split; [vm_compute; reflexivity |].
  repeat split; try (vm_compute; reflexivity).
  vm_compute. apply list_elem_of_here.
Qed.

(** ** The events of one tick *)

Lemma handle_snake_movement_events (sid : string) (snake : Snake)
    (tl : option SquareCoord) (m : MultiSnakeGame) :
  post (fun r => no_food_event r.2) (handle_snake_movement sid snake tl m).
Proof.
  unfold handle_snake_movement, no_food_event.
  destruct (get_head snake) as [hd |]; [| by constructor].
  destruct (negb _).
  { destruct (handle_snake_elimination sid m); simpl; [| done ..].
    by repeat constructor. }
  destruct (check_self_collision snake).
  { destruct (handle_snake_elimination sid m); simpl; [| done ..].
    by repeat constructor. }
  eapply post_bind.
  - apply (post_for_each
             (fun a a' : MultiSnakeGame * list CollisionEvent =>
                no_food_event a.2 -> no_food_event a'.2)); [done | auto |].
    intros [m0 events] [k s] _. simpl.
    destruct (_ && _); [| simpl; auto].
    destruct (handle_snake_collision sid k hd m0); simpl; [| done ..].
    intros H. apply Forall_app. split; [done |]. by repeat constructor.
  - intros [m1 events] H. simpl in *. apply H. constructor.
Qed.

Lemma move_step_events (acc : MultiSnakeGame * list CollisionEvent)
    (sid : string) :
  post (fun acc' => no_food_event acc.2 -> no_food_event acc'.2)
       (move_step acc sid).
Proof.
  destruct acc as [m events]. simpl.
  destruct (snakes_lookup sid (snakes m)) as [snake |]; [| done].
  destruct (Snake_move snake) as [snake' tl].
  eapply post_bind; [apply handle_snake_movement_events |].
  intros [m2 evs] H. simpl in *. intros Hev. by apply Forall_app.
Qed.

(** The FOOD events of a tick are those of its one food resolution: a
    tick that returns has resolved food collisions once, in a state with
    a well-formed dict, after movement events none of which is a FOOD
    event. *)
Lemma update_food_events (fuel : nat) (env : Env) (dt : Q)
    (m m' : MultiSnakeGame) (events : list CollisionEvent) :
  well_formed m ->
  update fuel env dt m = Returned (m', events) ->
  exists (m4 : MultiSnakeGame) (moves : list CollisionEvent),
    dict_ok m4
    ∧ no_food_event moves
    ∧ events = moves ++ omap (food_event m4) (food_items m4).
Proof.
  intros Hwf. unfold update.
  set (m2 := update_ai_snakes env _).
  assert (H2 : wf_step m m2).
  { apply (wf_step_frame m m);
      [exact (update_ai_snakes_ids env _) | done | done | done
      | by apply wf_step_refl]. }
  assert (H3 : safe (fun acc : MultiSnakeGame * list CollisionEvent =>
                       wf_step m acc.1)
                    (for_each move_step (m2, [])
                       (py_list_of_set (set_order env) (active_snakes m2)))).
  { apply (safe_for_each (fun acc => wf_step m acc.1)); [| done].
    intros acc sid Hsid Hacc. apply move_step_wf; [| done].
    apply py_list_of_set_elem in Hsid.
    destruct H2 as ((_ & Ha & _) & _ & Hids). rewrite <- Hids. by apply Ha. }
  pose proof (post_for_each
                (fun a a' : MultiSnakeGame * list CollisionEvent =>
                   no_food_event a.2 -> no_food_event a'.2)
                move_step
                (py_list_of_set (set_order env) (active_snakes m2))
                (fun _ H => H) (fun _ _ _ H1 H2 H => H2 (H1 H))
                (fun acc sid _ => move_step_events acc sid) (m2, [])) as Hev.
  destruct (for_each move_step (m2, [])
              (py_list_of_set (set_order env) (active_snakes m2)))
    as [[m3 moves] | |]; [| done ..].
  simpl in Hev, H3. specialize (Hev (Forall_nil_2 _)).
  cbn [mbind outcome_bind].
  pose proof (update_food_wf fuel env 0 m m3 H3) as H4.
  destruct (update_food fuel env 0 m3) as [m4 | |]; [| done ..].
  simpl in H4. cbn [mbind outcome_bind].
  destruct H4 as ([Hok4 _] & _).
  destruct (check_food_collisions_spec m4 Hok4) as (m5 & -> & _).
  cbn [mbind outcome_bind]. intros [= _ <-].
  by exists m4, moves.
Qed.

(** * Further properties *)

(** ** Grid occupancy *)

Lemma zrange_elem (n x : Z) : x ∈ zrange n <-> 0 <= x < n.
Proof.
  unfold zrange. rewrite list_elem_of_fmap. split.
  - intros (i & -> & Hi). apply elem_of_seq in Hi. lia.
  - intros Hx. exists (Z.to_nat x). split; [lia |]. apply elem_of_seq. lia.
Qed.

Lemma zrange_NoDup (n : Z) : NoDup (zrange n).
Proof.
  unfold zrange. apply NoDup_fmap_2; [| apply NoDup_seq].
  intros a b H. lia.
Qed.

Lemma zrange_length (n : Z) : length (zrange n) = Z.to_nat n.
Proof. unfold zrange. by rewrite length_fmap, length_seq. Qed.

Lemma all_cells_elem (g : Grid) (c : SquareCoord) :
  c ∈ all_cells g <-> is_valid_position g c = true.
Proof.
  unfold all_cells, is_valid_position. destruct c as [x y].
  unfold coord_x, coord_y. simpl. rewrite list_elem_of_bind. split.
  - intros (x' & H & Hx). apply list_elem_of_bind in H as (y' & H & Hy).
    apply list_elem_of_singleton in H as [= -> ->].
    apply zrange_elem in Hx, Hy. lia.
  - intros H. exists x. split; [| apply zrange_elem; lia].
    apply list_elem_of_bind. exists y.
    split; [by apply list_elem_of_singleton | apply zrange_elem; lia].
Qed.

Lemma all_cells_NoDup (g : Grid) : NoDup (all_cells g).
Proof.
  unfold all_cells. apply NoDup_bind; [| | apply zrange_NoDup].
  - intros x1 x2 c _ _ H1 H2.
    apply list_elem_of_bind in H1 as (y1 & H1 & _).
    apply list_elem_of_bind in H2 as (y2 & H2 & _).
    apply list_elem_of_singleton in H1, H2. congruence.
  - intros x _. apply NoDup_bind; [| | apply zrange_NoDup].
    + intros y1 y2 c _ _ H1 H2.
      apply list_elem_of_singleton in H1, H2. congruence.
    + intros y _. apply NoDup_singleton.
Qed.

Lemma bind_length_const {A B} (f : A -> list B) (k : nat) (l : list A) :
  (forall a, length (f a) = k) -> length (l ≫= f) = (length l * k)%nat.
Proof.
  intros Hk. induction l as [| a l IH]; [done |].
  rewrite bind_cons, length_app, Hk, IH. simpl. lia.
Qed.

Lemma all_cells_length (g : Grid) :
  length (all_cells g) = (Z.to_nat (width g) * Z.to_nat (height g))%nat.
Proof.
  unfold all_cells.
  rewrite (bind_length_const _ (Z.to_nat (height g))), zrange_length; [done |].
  intros x. rewrite (bind_length_const _ 1%nat), zrange_length; [lia | done].
Qed.

Lemma empty_cells_filter (g : Grid) :
  empty_cells g = filter (fun c => c ∉ occupied_cells g) (all_cells g).
Proof.
  unfold empty_cells, all_cells.
  assert (Hrow : forall (x : Z) (ys : list Z),
            ys ≫= (fun y => if is_occupied g (x, y) then [] else [(x, y)])
            = filter (fun c => c ∉ occupied_cells g)
                     (ys ≫= fun y => [(x, y)])).
  { intros x ys. induction ys as [| y ys IHy]; [done |].
    rewrite !bind_cons, filter_app, IHy. f_equal.
    unfold is_occupied. rewrite filter_cons, filter_nil.
    case_bool_decide; [by rewrite decide_False by auto | by rewrite decide_True]. }
  induction (zrange (width g)) as [| x xs IHx]; [done |].
  by rewrite !bind_cons, filter_app, IHx, Hrow.
Qed.

Lemma empty_cells_elem (g : Grid) (c : SquareCoord) :
  c ∈ empty_cells g
  <-> is_valid_position g c = true ∧ is_occupied g c = false.
Proof.
  rewrite empty_cells_filter, list_elem_of_filter, all_cells_elem.
  unfold is_occupied. rewrite bool_decide_eq_false. tauto.
Qed.

(** [occupy], [vacate] and [is_occupied] act on the occupancy set as
    insertion, removal and lookup, and [count_empty_cells] follows. *)
Theorem occupancy_updates (g : Grid) (c c' : SquareCoord) :
  is_occupied (occupy c g) c' = bool_decide (c' = c) || is_occupied g c'
  ∧ is_occupied (vacate c g) c'
    = negb (bool_decide (c' = c)) && is_occupied g c'
  ∧ count_empty_cells (occupy c g)
    = count_empty_cells g - (if is_occupied g c then 0 else 1)
  ∧ count_empty_cells (vacate c g)
    = count_empty_cells g + (if is_occupied g c then 1 else 0).
Proof.
  unfold is_occupied, occupy, vacate, count_empty_cells. simpl.
  split; [| split; [| split]].
  - repeat case_bool_decide; simpl; try done; set_unfold; tauto.
  - repeat case_bool_decide; simpl; try done; set_unfold; tauto.
  - case_bool_decide as Hc.
    + replace ({[c]} ∪ occupied_cells g) with (occupied_cells g); [lia |].
      apply set_eq. intros x. rewrite elem_of_union, elem_of_singleton.
      split; [auto | intros [-> | ?]; auto].
    + rewrite size_union by (by apply disjoint_singleton_l).
      rewrite size_singleton. lia.
  - case_bool_decide as Hc.
    + rewrite size_difference by (by apply singleton_subseteq_l).
      rewrite size_singleton.
      assert (size (occupied_cells g) ≠ 0)%nat.
      { apply size_non_empty_iff. intros He.
        by apply (proj1 (elem_of_equiv_empty _) He c). }
      lia.
    + replace (occupied_cells g ∖ {[c]}) with (occupied_cells g); [lia |].
      apply set_eq. intros x. rewrite elem_of_difference, elem_of_singleton.
      split; [intros ?; split; [done | by intros ->] | tauto].
Qed.

Lemma get_neighbors_elem (g : Grid) (c n : SquareCoord) :
  n ∈ get_neighbors g c
  <-> is_valid_position g n = true ∧ adjacent4 c n = true.
Proof.
  unfold get_neighbors, adjacent4. rewrite list_elem_of_filter.
  rewrite list_elem_of_fmap. destruct c as [cx cy], n as [nx ny].
  unfold coord_x, coord_y. simpl. rewrite Z.eqb_eq. split.
  - intros [Hv (d & [= -> ->] & Hd)]. split; [done |].
    repeat (apply elem_of_cons in Hd as [-> | Hd]; [simpl; lia |]).
    by apply elem_of_nil in Hd.
  - intros [Hv Hadj]. split; [done |].
    exists (nx - cx, ny - cy). split; [simpl; f_equal; lia |].
    assert ((nx - cx, ny - cy) = (0, -1) ∨ (nx - cx, ny - cy) = (0, 1)
            ∨ (nx - cx, ny - cy) = (-1, 0) ∨ (nx - cx, ny - cy) = (1, 0))
      as [-> | [-> | [-> | ->]]].
    { assert (nx - cx = 0 ∧ ny - cy = -1 ∨ nx - cx = 0 ∧ ny - cy = 1
              ∨ nx - cx = -1 ∧ ny - cy = 0 ∨ nx - cx = 1 ∧ ny - cy = 0)
        as [[-> ->] | [[-> ->] | [[-> ->] | [-> ->]]]] by lia; auto. }
    all: repeat first [apply list_elem_of_here | apply list_elem_of_further].
Qed.

Lemma get_random_empty_cell_free (g : Grid) (pick : nat) (c : SquareCoord) :
  get_random_empty_cell g pick = Some c ->
  is_valid_position g c = true ∧ is_occupied g c = false.
Proof.
  unfold get_random_empty_cell. destruct (_ >=? _); [done |].
  destruct (empty_cells g) as [| c0 cells] eqn:E; [done |].
  intros H. apply empty_cells_elem. rewrite E.
  by eapply list_elem_of_lookup_2.
Qed.

Lemma get_random_empty_cell_full (g : Grid) (pick : nat) :
  0 <= width g -> 0 <= height g ->
  get_random_empty_cell g pick = None
  <-> width g * height g <= Z.of_nat (size (occupied_cells g)).
Proof.
  intros Hw Hh. unfold get_random_empty_cell.
  destruct (_ >=? _) eqn:Hfull; [split; [lia | done] |].
  split; [| lia]. intros Hnone.
  assert (Hempty : empty_cells g = []).
  { destruct (empty_cells g) as [| c0 cells] eqn:E; [done |].
    apply lookup_ge_None in Hnone.
    pose proof (Nat.mod_upper_bound pick (length (c0 :: cells))) as Hlt.
    simpl in *. lia. }
  assert (Hsub : (list_to_set (all_cells g) : gset (Z * Z))
                 ⊆ occupied_cells g).
  { intros c Hc. apply elem_of_list_to_set in Hc.
    destruct (decide (c ∈ occupied_cells g)) as [| Hfree]; [done |].
    assert (c ∈ empty_cells g) as Hin.
    { rewrite empty_cells_filter. by apply list_elem_of_filter. }
    rewrite Hempty in Hin. by apply elem_of_nil in Hin. }
  apply subseteq_size in Hsub.
  rewrite size_list_to_set in Hsub by apply all_cells_NoDup.
  rewrite all_cells_length in Hsub. nia.
Qed.

(** ** Snake movement *)

Lemma unit_step_adjacent (c : SquareCoord) (d : Direction) :
  adjacent4 (coord_x c + (get_dx_dy d).1, coord_y c + (get_dx_dy d).2) c
  = true.
Proof.
  unfold adjacent4, coord_x, coord_y. destruct c as [x y], d; simpl;
    apply Z.eqb_eq; lia.
Qed.

(** What one [move] does to a snake with at least one segment. *)
Lemma Snake_move_cons (s : Snake) (hd : SquareCoord) (tl : list SquareCoord) :
  segments s = hd :: tl ->
  let d := next_direction s in
  let new := (coord_x hd + (get_dx_dy d).1, coord_y hd + (get_dx_dy d).2) in
  Snake_move s
  = if 0 <? growth_pending s
    then (mkSnake (new :: hd :: tl) d d (growth_pending s - 1)
                  (snake_id s) (ai_attrs s), None)
    else (mkSnake (new :: removelast (hd :: tl)) d d (growth_pending s)
                  (snake_id s) (ai_attrs s), last (hd :: tl)).
Proof.
  intros Hseg. unfold Snake_move, get_head. rewrite Hseg. cbn [head].
  destruct (get_dx_dy (next_direction s)) as [dx dy]. cbn [fst snd].
  destruct (0 <? growth_pending s); [done |].
  unfold list_pop.
  change (last ((coord_x hd + dx, coord_y hd + dy) :: hd :: tl))
    with (last (hd :: tl)).
  destruct (last (hd :: tl)) as [x |] eqn:E; [done |].
  by apply last_None in E.
Qed.

Lemma chain_removelast (l : list SquareCoord) :
  chain l = true -> chain (removelast l) = true.
Proof.
  induction l as [| a [| b l] IH]; try done.
  intros [Hab Hl]%andb_true_iff. specialize (IH Hl).
  destruct l as [| c l]; [done |].
  change (removelast (a :: b :: c :: l))
    with (a :: b :: removelast (c :: l)).
  change (removelast (b :: c :: l)) with (b :: removelast (c :: l)) in IH.
  cbn [chain]. by rewrite Hab.
Qed.

Lemma chain_fmap_seq (f : nat -> SquareCoord) (n k : nat) :
  (forall i, adjacent4 (f i) (f (S i)) = true) ->
  chain (f <$> seq k n) = true.
Proof.
  intros Hadj. revert k. induction n as [| n IH]; intros k; [done |].
  specialize (IH (S k)). destruct n as [| n]; [done |].
  simpl in *. by rewrite Hadj, IH.
Qed.

Lemma create_initial_segments_chain (start : SquareCoord) (d : Direction)
    (n : nat) :
  chain (create_initial_segments start d n) = true.
Proof.
  unfold create_initial_segments.
  destruct (get_dx_dy d) as [dx dy] eqn:Ed.
  assert (Hunit : Z.abs dx + Z.abs dy = 1) by (destruct d; injection Ed; lia).
  apply chain_fmap_seq. intros i.
  unfold adjacent4, coord_x, coord_y. simpl. apply Z.eqb_eq. nia.
Qed.

Lemma removelast_cons_length {A} (a : A) (l : list A) :
  length (removelast (a :: l)) = length l.
Proof.
  revert a. induction l as [| b l IH]; intros a; [done |].
  change (removelast (a :: b :: l)) with (a :: removelast (b :: l)).
  cbn [length]. f_equal. apply IH.
Qed.

(** A snake that is not empty is, after [n] moves, longer by the number
    of moves or by its pending growth, whichever is smaller; an empty
    snake is left as it is. *)
Theorem move_n_length (n : nat) (s : Snake) :
  (segments s = [] -> move_n n s = s)
  ∧ (segments s ≠ [] ->
     get_length (move_n n s)
     = (get_length s + Nat.min n (Z.to_nat (growth_pending s)))%nat).
Proof.
  split.
  - intros Hnil. induction n as [| n IH]; [done |].
    cbn [move_n]. unfold Snake_move, get_head. by rewrite Hnil.
  - revert s. unfold get_length.
    induction n as [| n IH]; intros s Hne; [simpl; lia |].
    destruct (segments s) as [| hd tl] eqn:Hseg; [done |].
    cbn [move_n]. rewrite (Snake_move_cons s hd tl Hseg).
    destruct (0 <? growth_pending s) eqn:Hg.
    + rewrite IH by done. cbn [fst segments growth_pending length].
      apply Z.ltb_lt in Hg.
      replace (Z.to_nat (growth_pending s))
        with (S (Z.to_nat (growth_pending s - 1))) by lia.
      rewrite <- Nat.succ_min_distr. lia.
    + rewrite IH by done. cbn [fst segments growth_pending].
      apply Z.ltb_ge in Hg.
      replace (Z.to_nat (growth_pending s)) with 0%nat by lia.
      rewrite !Nat.min_0_r. cbn [length].
      rewrite removelast_cons_length. simpl. lia.
Qed.

(** The body of a snake is a connected chain of cells: it is so when
    the snake is created, and [move], [set_direction] and [grow] keep
    it so. *)
Theorem snake_body_connected :
  (forall start d sid attrs,
     chain (segments (Snake_init start d sid attrs)) = true)
  ∧ forall s : Snake,
      chain (segments s) = true ->
      chain (segments (Snake_move s).1) = true
      ∧ (forall d, chain (segments (set_direction d s).1) = true)
      ∧ (forall k, chain (segments (grow_by k s)) = true).
Proof.
  split; [intros; apply create_initial_segments_chain |].
  intros s Hc. split; [| split].
  - destruct (segments s) as [| hd tl] eqn:Hseg.
    + unfold Snake_move, get_head. rewrite Hseg. simpl. by rewrite Hseg.
    + rewrite (Snake_move_cons s hd tl Hseg).
      destruct (0 <? growth_pending s); cbn [fst segments].
      * cbn [chain]. by rewrite unit_step_adjacent.
      * apply (chain_removelast (_ :: hd :: tl)). cbn [chain].
        by rewrite unit_step_adjacent.
  - intros d. unfold set_direction.
    destruct (get_dx_dy (direction s)), (get_dx_dy d).
    by destruct (_ && _).
  - done.
Qed.

Lemma set_direction_cases (d : Direction) (s : Snake) :
  (set_direction d s).1
  = if decide (d = opposite (direction s)) then s
    else with_next_direction d s.
Proof.
  unfold set_direction.
  pose proof (reversal_test (direction s) d) as Ht.
  destruct (get_dx_dy (direction s)), (get_dx_dy d). simpl in Ht.
  rewrite Ht. by case_bool_decide; [rewrite decide_True | rewrite decide_False].
Qed.

(** A snake never steps back onto its second segment.  The pending
    direction never reverses the current one and the head lies one step
    ahead of the second segment: this holds for a new snake and is kept
    by [set_direction], however often it is called, and by [move]; so
    the cell a move puts the head on is not the second segment. *)
Theorem snake_never_reverses :
  (forall start d sid attrs, heading_ok (Snake_init start d sid attrs))
  ∧ forall s : Snake,
      heading_ok s ->
      (forall d, heading_ok (set_direction d s).1)
      ∧ heading_ok (Snake_move s).1
      ∧ forall hd neck rest,
          segments s = hd :: neck :: rest ->
          get_head (Snake_move s).1 ≠ Some neck.
Proof.
  split.
  - intros [x y] d sid attrs. split; [by destruct d |].
    unfold Snake_init, create_initial_segments. simpl.
    destruct d; simpl; unfold coord_x, coord_y; simpl; f_equal; lia.
  - intros s [Hnext Hneck]. split; [| split].
    + intros d. rewrite set_direction_cases.
      destruct (decide (d = opposite (direction s))); [done |].
      by split.
    + destruct (segments s) as [| hd tl] eqn:Hseg.
      * unfold Snake_move, get_head. rewrite Hseg. simpl.
        split; [done | by rewrite Hseg].
      * rewrite (Snake_move_cons s hd tl Hseg).
        destruct (0 <? growth_pending s); cbn [fst]; split; simpl;
          try (by destruct (next_direction s)).
        -- unfold coord_x, coord_y; destruct hd; simpl.
           destruct (get_dx_dy (next_direction s)); simpl. f_equal; lia.
        -- destruct tl as [| neck rest]; [done |].
           change (removelast (hd :: neck :: rest))
             with (hd :: removelast (neck :: rest)).
           unfold coord_x, coord_y; destruct hd; simpl.
           destruct (get_dx_dy (next_direction s)); simpl. f_equal; lia.
    + intros hd neck rest Hseg. rewrite Hseg in Hneck.
      rewrite (Snake_move_cons s hd (neck :: rest) Hseg).
      assert (Hd : get_dx_dy (next_direction s)
                   ≠ ((- (get_dx_dy (direction s)).1)%Z,
                      (- (get_dx_dy (direction s)).2)%Z)).
      { clear Hneck.
        destruct (next_direction s), (direction s); cbv in *; congruence. }
      rewrite <- Hneck in Hd.
      destruct hd as [hx hy], neck as [nx ny].
      unfold coord_x, coord_y in *. simpl in *.
      destruct (get_dx_dy (next_direction s)) as [dx dy]. simpl.
      destruct (0 <? growth_pending s); unfold get_head; cbn [fst segments head];
        intros [= Hx Hy]; apply Hd; f_equal; lia.
Qed.

(** The neighbours of a cell are exactly the in-bounds cells one step
    away from it, horizontally or vertically; so two in-bounds cells
    are neighbours of each other or not at all. *)
Theorem get_neighbors_spec (g : Grid) (c n : SquareCoord) :
  (n ∈ get_neighbors g c
   <-> is_valid_position g n = true ∧ adjacent4 c n = true)
  ∧ (is_valid_position g c = true -> n ∈ get_neighbors g c ->
     c ∈ get_neighbors g n).
Proof.
  split; [apply get_neighbors_elem |].
  intros Hc [Hn Hadj]%get_neighbors_elem. apply get_neighbors_elem.
  split; [done |]. unfold adjacent4 in *. apply Z.eqb_eq in Hadj.
  apply Z.eqb_eq. lia.
Qed.

(** [Food.spawn_food] puts an apple worth 10 points on a cell that is
    in bounds and not occupied; on a grid of non-negative dimensions it
    returns nothing exactly when the occupancy set has at least
    width x height elements (the test on the list of empty cells in
    [get_random_empty_cell] never decides). *)
Theorem spawn_food_spec (g : Grid) (pick : nat) :
  (forall f, spawn_food g pick = Some f ->
     is_valid_position g (position f) = true
     ∧ is_occupied g (position f) = false
     ∧ point_value f = 10 ∧ food_type f = "apple")
  ∧ (0 <= width g -> 0 <= height g ->
     (spawn_food g pick = None
      <-> width g * height g <= Z.of_nat (size (occupied_cells g)))).
Proof.
  unfold spawn_food. split.
  - intros f. destruct (get_random_empty_cell g pick) as [c |] eqn:E; [| done].
    intros [= <-]. simpl.
    by destruct (get_random_empty_cell_free g pick c E).
  - intros Hw Hh. rewrite <- (get_random_empty_cell_full g pick Hw Hh).
    by destruct (get_random_empty_cell g pick).
Qed.

(** ** Safe moves, the heuristic and the greedy search *)

(** The safe moves from a position are exactly the free cells one step
    away from it. *)
Lemma get_safe_moves_elem (grid : Grid) (pos n : SquareCoord)
    (obstacles : gset (Z * Z)) :
  n ∈ get_safe_moves grid pos obstacles
  <-> free_cell grid obstacles n = true ∧ adjacent4 pos n = true.
Proof.
  unfold get_safe_moves, free_cell.
  rewrite list_elem_of_filter, get_neighbors_elem.
  rewrite andb_true_iff, negb_true_iff, bool_decide_eq_false. tauto.
Qed.

(** When [get_dead_end_ahead] answers true there is exactly one safe
    move, and from the cell it leads to every in-bounds step other than
    the step back ends on an obstacle. *)
Theorem dead_end_ahead_trapped (grid : Grid) (pos : SquareCoord)
    (obstacles : gset (Z * Z)) :
  get_dead_end_ahead grid pos obstacles = true ->
  exists next_pos,
    get_safe_moves grid pos obstacles = [next_pos]
    ∧ free_cell grid obstacles next_pos = true
    ∧ adjacent4 pos next_pos = true
    ∧ forall n, is_valid_position grid n = true ->
                adjacent4 next_pos n = true ->
                n = pos ∨ n ∈ obstacles.
Proof.
  unfold get_dead_end_ahead.
  destruct (get_safe_moves grid pos obstacles) as [| next_pos [| ? ?]] eqn:E;
    try done.
  destruct (get_safe_moves grid next_pos _) as [| ? ?] eqn:E2; [| done].
  intros _. exists next_pos.
  assert (Hin : next_pos ∈ get_safe_moves grid pos obstacles)
    by (rewrite E; left).
  apply get_safe_moves_elem in Hin as [Hfree Hadj].
  repeat split; try done.
  intros n Hv Hn.
  destruct (decide (n = pos)) as [| Hne]; [by left |].
  destruct (decide (n ∈ obstacles)) as [| Hobs]; [by right |].
  assert (Hin : n ∈ get_safe_moves grid next_pos (obstacles ∪ {[pos]})).
  { apply get_safe_moves_elem. split; [| done].
    unfold free_cell. rewrite Hv. simpl. apply negb_true_iff.
    apply bool_decide_eq_false. rewrite elem_of_union, elem_of_singleton.
    tauto. }
  rewrite E2 in Hin. by apply elem_of_nil in Hin.
Qed.

Lemma chain_snoc (l : list SquareCoord) (x : SquareCoord) :
  chain (l ++ [x])
  = chain l && match last l with
               | Some y => adjacent4 y x
               | None => true
               end.
Proof.
  induction l as [| a [| b l] IH]; [done | simpl; by rewrite andb_true_r |].
  change ((a :: b :: l) ++ [x]) with (a :: (b :: l) ++ [x]).
  change (last (a :: b :: l)) with (last (b :: l)).
  change (chain (a :: (b :: l) ++ [x]))
    with (adjacent4 a b && chain ((b :: l) ++ [x])).
  rewrite IH. cbn [chain]. by rewrite andb_assoc.
Qed.

(** The Manhattan heuristic never overestimates: a cell is at least
    [heuristic a b] steps away from [b] along any chain of cells from
    [a] to [b], and a single step changes the estimate by at most one. *)
Theorem heuristic_admissible (a b : SquareCoord) :
  (forall p, chain p = true -> head p = Some a -> last p = Some b ->
             heuristic a b <= Z.of_nat (length p) - 1)
  ∧ (forall c goal, adjacent4 a c = true ->
                    Z.abs (heuristic a goal - heuristic c goal) <= 1)
  ∧ (heuristic a b = 0 <-> a = b)
  ∧ heuristic a b = heuristic b a.
Proof.
  split; [| split; [| split]].
  - intros p. revert a. induction p as [| x [| y p] IH]; intros a Hc Hh Hl.
    + done.
    + injection Hh as ->. injection Hl as ->.
      unfold heuristic. simpl. lia.
    + injection Hh as ->. apply andb_true_iff in Hc as [Hxy Hc].
      specialize (IH y Hc eq_refl Hl).
      unfold adjacent4 in Hxy. apply Z.eqb_eq in Hxy.
      unfold heuristic in *. cbn [length] in *. lia.
  - intros c goal Hadj. unfold adjacent4 in Hadj. apply Z.eqb_eq in Hadj.
    unfold heuristic. lia.
  - unfold heuristic, coord_x, coord_y. destruct a, b. simpl. split.
    + intros H. f_equal; lia.
    + intros [= -> ->]. lia.
  - unfold heuristic. lia.
Qed.

Lemma py_min_by_elem {A} (key : A -> Z) (x : A) (l : list A) :
  py_min_by key x l ∈ x :: l.
Proof.
  unfold py_min_by. revert x. induction l as [| y l IH]; intros x; [left |].
  simpl. destruct (key y <? key x).
  - right. apply IH.
  - specialize (IH x). apply elem_of_cons in IH as [-> | IH]; [left |].
    by do 2 right.
Qed.

Lemma py_min_by_least {A} (key : A -> Z) (x : A) (l : list A) (y : A) :
  y ∈ x :: l -> key (py_min_by key x l) <= key y.
Proof.
  unfold py_min_by. revert x.
  assert (Hmono : forall l x,
            key (foldl (fun best y => if key y <? key best then y else best)
                       x l) <= key x).
  { clear. induction l as [| z l IH]; intros x; [simpl; lia |].
    simpl. destruct (key z <? key x) eqn:E.
    - apply Z.ltb_lt in E. specialize (IH z). lia.
    - apply IH. }
  induction l as [| z l IH]; intros x Hy.
  - apply list_elem_of_singleton in Hy as ->. simpl. lia.
  - simpl. apply elem_of_cons in Hy as [-> | Hy].
    + destruct (key z <? key x) eqn:E.
      * apply Z.ltb_lt in E. specialize (Hmono l z). lia.
      * apply Hmono.
    + destruct (key z <? key x) eqn:E.
      * apply IH. by apply elem_of_cons in Hy as [-> | Hy]; [left | right].
      * apply Z.ltb_ge in E. apply elem_of_cons in Hy as [-> | Hy].
        -- specialize (Hmono l x). lia.
        -- apply IH. by right.
Qed.

Lemma greedy_loop_sound (grid : Grid) (start goal : SquareCoord)
    (obstacles : gset (Z * Z)) (budget : nat) :
  forall (current : SquareCoord) (path : list SquareCoord)
         (visited : gset (Z * Z)) (result : list SquareCoord),
    head path = Some start -> last path = Some current ->
    chain path = true -> forallb (free_cell grid obstacles) path = true ->
    NoDup path -> (forall c, c ∈ visited <-> c ∈ path) ->
    (length path + budget <= 101)%nat ->
    greedy_loop budget grid goal obstacles current path visited = Some result ->
    is_path grid obstacles start goal result = true
    ∧ NoDup result ∧ (length result <= 101)%nat.
Proof.
  induction budget as [| budget IH];
    intros current path visited result Hh Hl Hc Hf Hnd Hvis Hlen; simpl.
  - destruct (decide (current = goal)) as [-> | Hne]; [| done].
    intros [= <-]. split; [| split; [done | lia]].
    unfold is_path. by rewrite Hh, Hl, Hf, Hc, !bool_decide_eq_true_2.
  - destruct (decide (current = goal)) as [-> | Hne].
    { intros [= <-]. split; [| split; [done | lia]].
      unfold is_path. by rewrite Hh, Hl, Hf, Hc, !bool_decide_eq_true_2. }
    destruct (filter _ (get_neighbors grid current)) as [| n ns] eqn:E;
      [done |].
    set (best := py_min_by (fun n => heuristic n goal) n ns).
    assert (Hbest : best ∈ filter (fun n => (n ∉ obstacles) ∧ (n ∉ visited))
                                  (get_neighbors grid current)).
    { rewrite E. apply py_min_by_elem. }
    apply list_elem_of_filter in Hbest as [[Hobs Hnew] Hnb].
    apply get_neighbors_elem in Hnb as [Hvalid Hadj].
    apply IH.
    + by destruct path.
    + by rewrite last_snoc.
    + by rewrite chain_snoc, Hc, Hl.
    + rewrite forallb_app, Hf. simpl. unfold free_cell.
      by rewrite Hvalid, bool_decide_eq_false_2.
    + apply NoDup_app. split; [done |]. split; [| apply NoDup_singleton].
      intros c Hc' ->%list_elem_of_singleton. apply Hnew. by apply Hvis.
    + intros c. rewrite elem_of_union, elem_of_singleton, elem_of_app,
        list_elem_of_singleton, Hvis. tauto.
    + rewrite length_app. simpl. lia.
Qed.

(** [find_path_greedy] always comes back within its 100 iterations, and
    what it returns is never a wrong or partial path: a returned path
    runs from start to goal through free cells one step apart, visits
    no cell twice and has at most 101 cells.  It refuses a start or
    goal that is out of bounds or an obstacle, and answers the one-cell
    path when start and goal are the same free cell. *)
Theorem find_path_greedy_sound (grid : Grid) (start goal : SquareCoord)
    (obstacles : gset (Z * Z)) :
  (forall path, find_path_greedy grid start goal obstacles = Some path ->
     is_path grid obstacles start goal path = true
     ∧ NoDup path ∧ (length path <= 101)%nat)
  ∧ (free_cell grid obstacles start && free_cell grid obstacles goal = false ->
     find_path_greedy grid start goal obstacles = None)
  ∧ (free_cell grid obstacles start = true ->
     find_path_greedy grid start start obstacles = Some [start]).
Proof.
  unfold find_path_greedy, free_cell. split; [| split].
  - intros path.
    destruct (is_valid_position grid start) eqn:Hs; [| done].
    destruct (is_valid_position grid goal) eqn:Hg; [| done].
    cbn [negb orb].
    case_bool_decide as Hso; [done |]. case_bool_decide as Hgo; [done |].
    cbn [orb]. apply greedy_loop_sound; try done.
    + cbn [forallb]. unfold free_cell. by rewrite Hs, bool_decide_eq_false_2.
    + apply NoDup_singleton.
    + intros c. by rewrite elem_of_singleton, list_elem_of_singleton.
  - destruct (is_valid_position grid start), (is_valid_position grid goal);
      cbn [negb orb andb]; try done;
      destruct (bool_decide (start ∈ obstacles)),
               (bool_decide (goal ∈ obstacles)); cbn [negb orb andb]; done.
  - intros [-> Hobs%negb_true_iff]%andb_true_iff. cbn [negb orb].
    rewrite Hobs. cbn [orb greedy_loop]. by rewrite decide_True.
Qed.

(** ** A* search: what is returned is a path *)

Lemma list_insert_elem {A} (l : list A) (i : nat) (x y : A) :
  y ∈ <[i := x]> l -> y = x ∨ y ∈ l.
Proof.
  revert i. induction l as [| a l IH]; intros [| i]; simpl; try by right.
  - intros [-> | H]%elem_of_cons; [by left | right; by right].
  - intros [-> | H]%elem_of_cons; [right; left |].
    destruct (IH i H); [by left | right; by right].
Qed.

Section HeapElements.
Context {A : Type} (lt : A -> A -> bool).

(** The sifting loops only move items around. *)
Lemma siftdown_loop_elem (n : nat) (heap : list A) (startpos pos : nat)
    (newitem y : A) :
  y ∈ siftdown_loop lt n heap startpos pos newitem -> y = newitem ∨ y ∈ heap.
Proof.
  revert heap pos. induction n as [| n IH]; intros heap pos; simpl.
  - apply list_insert_elem.
  - destruct (startpos <? pos)%nat; [| apply list_insert_elem].
    destruct (heap !! Nat.div2 (pos - 1)) as [par |] eqn:E;
      [| apply list_insert_elem].
    destruct (lt newitem par); [| apply list_insert_elem].
    intros [-> | H]%IH; [by left |].
    apply list_insert_elem in H as [-> | H]; [| by right].
    right. by eapply list_elem_of_lookup_2.
Qed.

Lemma siftdown_elem (heap : list A) (startpos pos : nat) (y : A) :
  y ∈ siftdown lt heap startpos pos -> y ∈ heap.
Proof.
  unfold siftdown. destruct (heap !! pos) as [newitem |] eqn:E; [| done].
  intros [-> | H]%siftdown_loop_elem; [| done].
  by eapply list_elem_of_lookup_2.
Qed.

Lemma siftup_loop_elem (n : nat) (heap : list A) (pos : nat) (y : A) :
  y ∈ (siftup_loop lt n heap pos).1 -> y ∈ heap.
Proof.
  revert heap pos. induction n as [| n IH]; intros heap pos; simpl; [done |].
  destruct (_ <? _)%nat; [| done].
  match goal with |- context [heap !! ?i] =>
    match i with
    | (match _ with _ => _ end) => destruct (heap !! i) as [c |] eqn:E
    end
  end; [| done].
  intros H%IH. apply list_insert_elem in H as [-> | H]; [| done].
  by eapply list_elem_of_lookup_2.
Qed.

Lemma siftup_elem (heap : list A) (pos : nat) (y : A) :
  y ∈ siftup lt heap pos -> y ∈ heap.
Proof.
  unfold siftup. destruct (heap !! pos) as [newitem |] eqn:E; [| done].
  pose proof (siftup_loop_elem (length heap) heap pos) as Hloop.
  destruct (siftup_loop lt (length heap) heap pos) as [heap' pos'].
  intros H%siftdown_elem. apply list_insert_elem in H as [-> | H].
  - by eapply list_elem_of_lookup_2.
  - by apply Hloop.
Qed.

Lemma heappush_elem (heap : list A) (item y : A) :
  y ∈ heappush lt heap item -> y = item ∨ y ∈ heap.
Proof.
  unfold heappush. intros H%siftdown_elem.
  apply elem_of_app in H as [H | H%list_elem_of_singleton]; auto.
Qed.

Lemma removelast_elem (l : list A) (y : A) : y ∈ removelast l -> y ∈ l.
Proof.
  induction l as [| a [| b l] IH]; simpl; try done.
  - by intros ?%elem_of_nil.
  - intros [-> | H]%elem_of_cons; [left | right; by apply IH].
Qed.

Lemma heappop_elem (heap heap' : list A) (x : A) :
  heappop lt heap = Some (heap', x) ->
  x ∈ heap ∧ forall y, y ∈ heap' -> y ∈ heap.
Proof.
  unfold heappop, list_pop.
  destruct (last heap) as [lastelt |] eqn:El; [| done].
  assert (Hlast : lastelt ∈ heap).
  { apply last_Some in El as [l' ->]. apply elem_of_app. right. left. }
  destruct (removelast heap) as [| r rest] eqn:Er.
  - intros [= <- <-]. split; [done | by intros ? ?%elem_of_nil].
  - intros [= <- <-].
    assert (Hsub : forall y, y ∈ r :: rest -> y ∈ heap).
    { intros y Hy. apply removelast_elem. by rewrite Er. }
    split; [apply Hsub; left |].
    intros y H%siftup_elem. cbn [insert list_insert] in H.
    apply elem_of_cons in H as [-> | H]; [done |].
    apply Hsub. by right.
Qed.
End HeapElements.

Lemma node_at_lookup (nodes : gmap (Z * Z) PathNode) (p : Z * Z)
    (node : PathNode) :
  nodes !! p = Some node -> node_at nodes p = node.
Proof. unfold node_at. by intros ->. Qed.

Section AStarSound.
Context (grid : Grid) (start goal : SquareCoord) (obstacles : gset (Z * Z)).

(** Storing, for a cell that is not closed, a node whose parent is the
    closed node under expansion. *)
Lemma astar_inv_update (st : AStar) (current neighbor : Z * Z)
    (nc newnode : PathNode) (open' : list (Z * Z)) :
  astar_inv grid start obstacles st ->
  current ∈ closed_set st ->
  all_nodes st !! current = Some nc ->
  neighbor ∉ closed_set st ->
  neighbor ≠ start ->
  free_cell grid obstacles neighbor = true ->
  adjacent4 current neighbor = true ->
  g_cost newnode = g_cost nc + 1 ->
  parent newnode = Some current ->
  (forall p, p ∈ open' -> p = neighbor ∨ p ∈ open_set st) ->
  astar_inv grid start obstacles
    (mkAStar open' (closed_set st) (<[neighbor := newnode]> (all_nodes st))).
Proof.
  intros (Hstart & Hpos & Hpar & Hopen & Hfree)
         Hcl Hnc Hncl Hns Hnfree Hadj Hg Hp Hsub.
  assert (Hcn : current ≠ neighbor) by (intros ->; done).
  unfold astar_inv. cbn [all_nodes closed_set open_set].
  split; [| split; [| split; [| split]]].
  - destruct Hstart as (n0 & H0 & ?). exists n0.
    by rewrite lookup_insert_ne by done.
  - intros p node. destruct (decide (neighbor = p)) as [<- | Hne].
    + rewrite lookup_insert_eq. intros [= <-].
      specialize (Hpos _ _ Hnc). lia.
    + rewrite lookup_insert_ne by done. apply Hpos.
  - intros p node. destruct (decide (neighbor = p)) as [<- | Hne].
    + rewrite lookup_insert_eq. intros [= <-] _. exists current, nc.
      by rewrite lookup_insert_ne by done.
    + rewrite lookup_insert_ne by done. intros Hnode Hps.
      destruct (Hpar p node Hnode Hps) as (q & nq & ? & Hq & Hqc & ?).
      exists q, nq. rewrite lookup_insert_ne by (intros <-; done). done.
  - intros p [-> | Hp']%Hsub.
    + rewrite lookup_insert_eq. by eexists.
    + destruct (decide (neighbor = p)) as [<- | Hne].
      * rewrite lookup_insert_eq. by eexists.
      * rewrite lookup_insert_ne by done. by apply Hopen.
  - done.
Qed.

(** One neighbour visit keeps the loop's facts. *)
Lemma visit_neighbor_inv (st : AStar) (current neighbor : Z * Z) :
  astar_inv grid start obstacles st ->
  current ∈ closed_set st ->
  is_Some (all_nodes st !! current) ->
  neighbor ∈ get_neighbors grid current ->
  let st' := visit_neighbor goal obstacles current st neighbor in
  astar_inv grid start obstacles st'
  ∧ current ∈ closed_set st'
  ∧ is_Some (all_nodes st' !! current).
Proof.
  intros Hinv Hcl [nc Hnc] [Hvalid Hadj]%get_neighbors_elem.
  unfold visit_neighbor.
  case_bool_decide as Hclosed; [by eauto |].
  case_bool_decide as Hobs; [by eauto |]. cbn [orb].
  assert (Hfree : free_cell grid obstacles neighbor = true).
  { unfold free_cell. by rewrite Hvalid, bool_decide_eq_false_2. }
  assert (Hcn : neighbor ≠ current) by (intros ->; done).
  rewrite (node_at_lookup _ _ _ Hnc).
  pose proof Hinv as (Hstart & Hpos & Hrest).
  destruct (all_nodes st !! neighbor) as [nn |] eqn:Enn.
  - destruct (g_cost nc + 1 <? g_cost nn) eqn:Hlt; [| by eauto].
    apply Z.ltb_lt in Hlt.
    assert (Hns : neighbor ≠ start).
    { intros ->. destruct Hstart as (n0 & H0 & Hg0 & _).
      rewrite H0 in Enn. injection Enn as <-.
      specialize (Hpos _ _ Hnc). lia. }
    split; [| split; [done |]].
    + eapply (astar_inv_update st current neighbor nc); try done.
      intros p. apply heappush_elem.
    + cbn [all_nodes]. rewrite lookup_insert_ne by done. by eexists.
  - assert (Hns : neighbor ≠ start).
    { intros ->. destruct Hstart as (n0 & H0 & _). congruence. }
    split; [| split; [done |]].
    + eapply (astar_inv_update st current neighbor nc); try done.
      intros p. apply heappush_elem.
    + cbn [all_nodes]. rewrite lookup_insert_ne by done. by eexists.
Qed.

Lemma visit_neighbors_inv (neighbors : list (Z * Z)) (current : Z * Z) :
  forall st : AStar,
    (forall n, n ∈ neighbors -> n ∈ get_neighbors grid current) ->
    astar_inv grid start obstacles st ->
    current ∈ closed_set st ->
    is_Some (all_nodes st !! current) ->
    astar_inv grid start obstacles
      (foldl (visit_neighbor goal obstacles current) st neighbors).
Proof.
  induction neighbors as [| n ns IH]; intros st Hsub Hinv Hcl Hcur; [done |].
  simpl.
  destruct (visit_neighbor_inv st current n Hinv Hcl Hcur) as (? & ? & ?).
  { apply Hsub. left. }
  apply IH; try done. intros m Hm. apply Hsub. by right.
Qed.

(** The walk back along the parents ends at the start and runs through
    free cells one step apart. *)
Lemma reconstruct_path_loop_sound (st : AStar) (fuel : nat) :
  astar_inv grid start obstacles st ->
  forall (p : Z * Z) (acc path : list SquareCoord),
    is_Some (all_nodes st !! p) ->
    reconstruct_path_loop fuel (all_nodes st) (Some p) acc = Returned path ->
    exists back,
      path = acc ++ back
      ∧ head back = Some p ∧ last back = Some start
      ∧ forallb (free_cell grid obstacles) back = true
      ∧ chain (reverse back) = true.
Proof.
  intros (Hstart & Hpos & Hpar & Hopen & Hfree).
  induction fuel as [| fuel IH]; intros p acc path [node Hnode]; [done |].
  cbn [reconstruct_path_loop]. rewrite (node_at_lookup _ _ _ Hnode).
  destruct (decide (p = start)) as [-> | Hne].
  - destruct Hstart as (n0 & H0 & _ & Hp0). rewrite H0 in Hnode.
    injection Hnode as <-. rewrite Hp0.
    destruct fuel; cbn [reconstruct_path_loop]; intros [= <-];
      exists [start]; cbn [forallb]; by rewrite Hfree.
  - destruct (Hpar p node Hnode Hne) as (q & nq & Hq & Hnq & _ & _ & Hadj & Hf).
    rewrite Hq. intros Hrec.
    destruct (IH q (acc ++ [p]) path (ex_intro _ nq Hnq) Hrec)
      as (back & -> & Hh & Hl & Hfb & Hcb).
    exists (p :: back). rewrite <- app_assoc. split; [done |].
    split; [done |]. split; [by destruct back |].
    split; [cbn [forallb]; by rewrite Hf, Hfb |].
    rewrite reverse_cons, chain_snoc, Hcb, last_reverse, Hh. done.
Qed.

Lemma astar_loop_sound (fuel : nat) :
  forall (st : AStar) (path : list SquareCoord),
    astar_inv grid start obstacles st ->
    astar_loop fuel grid goal obstacles st = Returned (Some path) ->
    is_path grid obstacles start goal path = true.
Proof.
  induction fuel as [| fuel IH]; intros st path Hinv; simpl.
  - by destruct (open_set st).
  - destruct (open_set st) as [| o os] eqn:Eopen; [done |].
    rewrite <- Eopen.
    destruct (heappop _ (open_set st)) as [[open' current] |] eqn:Epop;
      [| done].
    apply heappop_elem in Epop as [Hcur Hsub].
    pose proof Hinv as (Hstart & Hpos & Hpar & Hopen & Hfree).
    pose proof (Hopen _ Hcur) as Hnode.
    destruct (decide (current = goal)) as [-> | Hne].
    + unfold reconstruct_path.
      destruct (reconstruct_path_loop _ _ _ _) as [back | |] eqn:Erec;
        [| done ..].
      cbn [mbind outcome_bind]. intros [= <-].
      destruct (reconstruct_path_loop_sound st _ Hinv goal [] back Hnode Erec)
        as (back' & -> & Hh & Hl & Hfb & Hcb).
      cbn [app]. unfold is_path.
      rewrite head_reverse, last_reverse, Hh, Hl, Hcb.
      rewrite !bool_decide_eq_true_2 by done. cbn [andb].
      rewrite andb_true_r. rewrite forallb_forall in *.
      intros c Hc. apply Hfb. apply list_elem_of_In.
      apply list_elem_of_In in Hc. by apply elem_of_reverse.
    + apply IH. apply visit_neighbors_inv; [done | | |].
      * unfold astar_inv. cbn [all_nodes closed_set open_set].
        split; [done |]. split; [done |]. split; [| split; [| done]].
        -- intros p node Hp Hps.
           destruct (Hpar p node Hp Hps) as (q & nq & ? & ? & ? & ?).
           exists q, nq. split; [done |]. split; [done |].
           split; [| done]. apply elem_of_union. by right.
        -- intros p Hp. apply Hopen. by apply Hsub.
      * cbn [closed_set]. apply elem_of_union. left. by apply elem_of_singleton.
      * done.
Qed.

Lemma astar_inv_init :
  free_cell grid obstacles start = true ->
  let nodes : gmap (Z * Z) PathNode :=
    {[start := PathNode_init 0 (heuristic start goal) None]} in
  astar_inv grid start obstacles
    (mkAStar (heappush (node_lt nodes) [] start) ∅ nodes).
Proof.
  intros Hfree nodes. unfold astar_inv. cbn [all_nodes closed_set open_set].
  split; [| split; [| split; [| split]]].
  - eexists. split; [apply lookup_singleton_eq | done].
  - intros p node [-> <-]%lookup_singleton_Some. simpl. lia.
  - intros p node [-> <-]%lookup_singleton_Some. done.
  - intros p [-> | H]%heappush_elem.
    + unfold nodes. rewrite lookup_singleton_eq. by eexists.
    + by apply elem_of_nil in H.
  - done.
Qed.
End AStarSound.

(** Whatever [find_path_astar] returns as a path is a path: it starts at
    the start, ends at the goal, and runs through in-bounds cells that
    are not obstacles, each one step from the one before. *)
Theorem find_path_astar_sound (fuel : nat) (grid : Grid)
    (start goal : SquareCoord) (obstacles : gset (Z * Z))
    (path : list SquareCoord) :
  find_path_astar fuel grid start goal obstacles = Returned (Some path) ->
  is_path grid obstacles start goal path = true.
Proof.
  unfold find_path_astar.
  destruct (is_valid_position grid start) eqn:Hs; [| done].
  destruct (is_valid_position grid goal) eqn:Hg; [| done]. cbn [negb orb].
  case_bool_decide as Hso; [done |]. case_bool_decide as Hgo; [done |].
  cbn [orb]. apply astar_loop_sound, astar_inv_init.
  unfold free_cell. by rewrite Hs, bool_decide_eq_false_2.
Qed.

Lemma find_path_astar_sound_witness :
  is_path (Grid_init 3 3) {[ (1, 1) ]} (0, 0) (2, 2)
          [(0, 0); (0, 1); (0, 2); (1, 2); (2, 2)] = true.
Proof.
  apply (find_path_astar_sound 20 (Grid_init 3 3) (0, 0) (2, 2) {[ (1, 1) ]}).
  vm_compute. reflexivity.
Defined.

Lemma dead_end_ahead_trapped_witness :
  let grid := Grid_init 3 3 in
  let obstacles : gset (Z * Z) := {[ (0, 1); (2, 0); (1, 1) ]} in
  exists next_pos,
    get_safe_moves grid (0, 0) obstacles = [next_pos]
    ∧ free_cell grid obstacles next_pos = true
    ∧ adjacent4 (0, 0) next_pos = true
    ∧ forall n, is_valid_position grid n = true ->
                adjacent4 next_pos n = true ->
                n = (0, 0) ∨ n ∈ obstacles.
Proof.
  apply (dead_end_ahead_trapped (Grid_init 3 3) (0, 0)
           {[ (0, 1); (2, 0); (1, 1) ]}).
  vm_compute. reflexivity.
Defined.

(** ** The AI snake: steering helpers *)

Lemma get_all_obstacles_elem (self : Snake) (others : list Snake)
    (c : SquareCoord) :
  c ∈ get_all_obstacles self others
  <-> c ∈ segments self
      ∨ exists o, o ∈ others ∧ snake_id o ≠ snake_id self ∧ c ∈ segments o.
Proof.
  unfold get_all_obstacles, get_segments.
  assert (Hgen : forall (acc : gset (Z * Z)),
    c ∈ foldl (fun obstacles snake =>
                 if bool_decide (snake_id snake ≠ snake_id self)
                 then obstacles ∪ list_to_set (segments snake)
                 else obstacles) acc others
    <-> c ∈ acc
        ∨ exists o, o ∈ others ∧ snake_id o ≠ snake_id self ∧ c ∈ segments o).
  { induction others as [| o os IH]; intros acc; simpl.
    - split; [by left | intros [H | (o & H & _)]; [done |]].
      by apply elem_of_nil in H.
    - rewrite IH. case_bool_decide as Hid.
      + rewrite elem_of_union, elem_of_list_to_set. split.
        * intros [[H | H] | (o' & Ho' & H)]; [by left | right | right].
          -- exists o. split; [left | done].
          -- exists o'. split; [by right | done].
        * intros [H | (o' & [-> | Ho']%elem_of_cons & Hne & Hc)].
          -- left. by left.
          -- left. by right.
          -- right. by exists o'.
      + split.
        * intros [H | (o' & Ho' & H)]; [by left | right].
          exists o'. split; [by right | done].
        * intros [H | (o' & [-> | Ho']%elem_of_cons & Hne & Hc)];
            [by left | done | right; by exists o']. }
  rewrite Hgen, elem_of_list_to_set. done.
Qed.

(** The path search [move_to_food] would start can never succeed: the
    obstacle set an AI snake computes contains its own head, and
    [find_path_astar] gives up when its start is an obstacle. *)
Theorem path_from_own_head_is_none (fuel : nat) (grid : Grid)
    (self : Snake) (others : list Snake) (target : SquareCoord) :
  match get_head self with
  | Some head =>
      head ∈ get_all_obstacles self others
      ∧ find_path_astar fuel grid head target (get_all_obstacles self others)
        = Returned None
  | None => True
  end.
Proof.
  destruct (get_head self) as [head |] eqn:Hh; [| done].
  assert (Hin : head ∈ get_all_obstacles self others).
  { apply get_all_obstacles_elem. left. unfold get_head in Hh.
    destruct (segments self); [done |]. injection Hh as ->. left. }
  split; [done |]. apply find_path_astar_guard.
  unfold free_cell. rewrite (bool_decide_eq_true_2 _ Hin).
  by rewrite andb_false_r.
Qed.

Lemma head_after_move (s : Snake) (head : SquareCoord) :
  get_head s = Some head ->
  get_head (Snake_move s).1
  = Some (coord_x head + (get_dx_dy (next_direction s)).1,
          coord_y head + (get_dx_dy (next_direction s)).2).
Proof.
  unfold get_head. destruct (segments s) as [| hd tl] eqn:Hseg; [done |].
  intros [= ->]. rewrite (Snake_move_cons s head tl Hseg).
  by destruct (0 <? growth_pending s).
Qed.

(** Steering towards a cell other than the head: when the call is
    accepted, the next move brings the head one step closer to the
    target (so onto it, if it was one step away); it is refused exactly
    when the direction chosen is the reverse of the current one, and
    then nothing changes. *)
Theorem set_direction_to_position_approaches (s : Snake)
    (head target : SquareCoord) :
  get_head s = Some head ->
  target ≠ head ->
  let r := set_direction_to_position target s in
  if r.2
  then exists head',
         get_head (Snake_move r.1).1 = Some head'
         ∧ heuristic head' target = heuristic head target - 1
  else r.1 = s
       ∧ heuristic (coord_x head - (get_dx_dy (direction s)).1,
                    coord_y head - (get_dx_dy (direction s)).2) target
         = heuristic head target - 1.
Proof.
  intros Hh Hne. unfold set_direction_to_position. rewrite Hh.
  destruct head as [hx hy], target as [tx ty]. unfold coord_x, coord_y.
  cbn [fst snd].
  assert (Hd : tx ≠ hx ∨ ty ≠ hy).
  { destruct (decide (tx = hx)) as [-> |]; [right | by left].
    intros ->. done. }
  set (d := if Z.abs (ty - hy) <? Z.abs (tx - hx)
            then if 0 <? tx - hx then RIGHT else LEFT
            else if 0 <? ty - hy then DOWN else UP).
  assert (Hstep : heuristic (hx + (get_dx_dy d).1, hy + (get_dx_dy d).2)
                            (tx, ty)
                  = heuristic (hx, hy) (tx, ty) - 1).
  { unfold heuristic, coord_x, coord_y, d. cbn [fst snd].
    destruct (Z.abs (ty - hy) <? Z.abs (tx - hx)) eqn:E1;
      [apply Z.ltb_lt in E1 | apply Z.ltb_ge in E1].
    - destruct (0 <? tx - hx) eqn:E2;
        [apply Z.ltb_lt in E2 | apply Z.ltb_ge in E2]; simpl; lia.
    - destruct (0 <? ty - hy) eqn:E2;
        [apply Z.ltb_lt in E2 | apply Z.ltb_ge in E2]; simpl; lia. }
  clearbody d. unfold set_direction.
  pose proof (reversal_test (direction s) d) as Ht.
  destruct (get_dx_dy (direction s)) as [dx dy] eqn:Edir.
  destruct (get_dx_dy d) as [ndx ndy] eqn:End. cbn [fst snd] in *.
  rewrite Ht. case_bool_decide as Hopp; cbn [fst snd].
  - split; [done |]. rewrite <- Hstep. f_equal.
    subst d. destruct (direction s); cbv in Edir, End;
      injection Edir as <- <-; injection End as <- <-; f_equal; lia.
  - eexists. split.
    + apply head_after_move. done.
    + cbn [with_next_direction next_direction]. by rewrite End.
Qed.

(** The directions [explore] regards as safe are those that lead onto a
    cell listed by [get_safe_moves], and every safe move is one step in
    some direction. *)
Theorem is_direction_safe_safe_moves (grid : Grid) (obstacles : gset (Z * Z))
    (s : Snake) (head : SquareCoord) :
  get_head s = Some head ->
  (forall d,
      is_direction_safe grid d obstacles s = true
      <-> (coord_x head + (get_dx_dy d).1, coord_y head + (get_dx_dy d).2)
          ∈ get_safe_moves grid head obstacles)
  ∧ (forall n,
      n ∈ get_safe_moves grid head obstacles ->
      exists d,
        n = (coord_x head + (get_dx_dy d).1, coord_y head + (get_dx_dy d).2)
        ∧ is_direction_safe grid d obstacles s = true).
Proof.
  intros Hh.
  assert (Hdir : forall d,
    is_direction_safe grid d obstacles s = true
    <-> (coord_x head + (get_dx_dy d).1, coord_y head + (get_dx_dy d).2)
        ∈ get_safe_moves grid head obstacles).
  { intros d. unfold is_direction_safe. rewrite Hh.
    rewrite get_safe_moves_elem. unfold free_cell.
    destruct (get_dx_dy d) as [dx dy] eqn:Ed. cbn [fst snd].
    pose proof (unit_step_adjacent head d) as Hadj. rewrite Ed in Hadj.
    cbn [fst snd] in Hadj.
    assert (Hsym : adjacent4 head (coord_x head + dx, coord_y head + dy)
                   = true).
    { revert Hadj. unfold adjacent4, coord_x, coord_y. cbn [fst snd].
      rewrite !Z.eqb_eq. lia. }
    tauto. }
  split; [done |].
  intros n Hn. pose proof Hn as [_ Hadj]%get_safe_moves_elem.
  assert (exists d, n = (coord_x head + (get_dx_dy d).1,
                         coord_y head + (get_dx_dy d).2)) as [d ->].
  { destruct head as [hx hy], n as [nx ny].
    revert Hadj. unfold adjacent4, coord_x, coord_y. cbn [fst snd].
    rewrite Z.eqb_eq. intros Hadj.
    assert (nx - hx = 0 ∧ ny - hy = -1 ∨ nx - hx = 0 ∧ ny - hy = 1
            ∨ nx - hx = -1 ∧ ny - hy = 0 ∨ nx - hx = 1 ∧ ny - hy = 0)
      as [[? ?] | [[? ?] | [[? ?] | [? ?]]]] by lia;
      [exists UP | exists DOWN | exists LEFT | exists RIGHT];
      cbn; f_equal; lia. }
  exists d. split; [done |]. by apply Hdir.
Qed.

(** ** Behaviour trees *)

Lemma action_keys_selector (c : BehaviorNode) (l : list BehaviorNode) :
  action_keys (SelectorNode (c :: l))
  = action_keys c ++ action_keys (SelectorNode l).
Proof. done. Qed.

Lemma action_keys_sequence (c : BehaviorNode) (l : list BehaviorNode) :
  action_keys (SequenceNode (c :: l))
  = action_keys c ++ action_keys (SequenceNode l).
Proof. done. Qed.

(** A tree none of whose action keys is in the context dict returns
    without raising and without having touched the snake. *)
Lemma execute_without_actions (ctx : gmap string CtxValue)
    (node : BehaviorNode) :
  forall s : Snake,
    (forall key, key ∈ action_keys node -> ctx !! key = None) ->
    exists b, execute node ctx s = Returned (s, b).
Proof.
  induction node as [children IH | children IH | key | key]
    using BehaviorNode_ind; intros s Hkeys.
  - induction IH as [| c l Hc _ IHl]; [by exists false |].
    rewrite action_keys_selector in Hkeys.
    destruct (Hc s) as [b Hb].
    { intros key Hk. apply Hkeys, elem_of_app. by left. }
    destruct IHl as [b' Hb'].
    { intros key Hk. apply Hkeys, elem_of_app. by right. }
    cbn [execute] in *. rewrite Hb. destruct b; eauto.
  - induction IH as [| c l Hc _ IHl]; [by exists true |].
    rewrite action_keys_sequence in Hkeys.
    destruct (Hc s) as [b Hb].
    { intros key Hk. apply Hkeys, elem_of_app. by left. }
    destruct IHl as [b' Hb'].
    { intros key Hk. apply Hkeys, elem_of_app. by right. }
    cbn [execute] in *. rewrite Hb. destruct b; eauto.
  - by eexists.
  - exists false. cbn [execute]. rewrite Hkeys; [done | left].
Qed.

Lemma context_dict_keys (food_positions danger_positions : list SquareCoord)
    (other_snakes : list Snake) (obstacles : gset (Z * Z)) (s : Snake)
    (key : string) :
  key ∈ ["move_to_food"; "escape_danger"; "explore"; "random_move";
         "safe_explore"] ->
  context_dict food_positions danger_positions other_snakes obstacles s
    !! key = None.
Proof.
  intros H. unfold context_dict.
  repeat (apply elem_of_cons in H as [-> | H];
          [by repeat (rewrite lookup_insert_ne by done) |]).
  by apply elem_of_nil in H.
Qed.

(** The decision procedure of an AI snake never steers.  The move
    suggestions are stored in the context under the single key
    [move_suggestions], while every action node looks its action up
    under the action's own name, finds nothing and fails; so, whatever
    the personality, the food, the other snakes and the timing,
    [update_ai] returns with the snake as it was. *)
Theorem update_ai_never_steers (p : AIPersonality) (swapped : bool)
    (due has_pathfinder : bool) (food_positions : list SquareCoord)
    (other_snakes : list Snake) (s : Snake) :
  AISnake_update_ai (create_behavior_tree p swapped) due has_pathfinder
                    food_positions other_snakes s
  = Returned s.
Proof.
  unfold AISnake_update_ai.
  destruct due, has_pathfinder; cbn [negb]; try done.
  destruct (get_head s) as [head |]; [| done].
  set (ctx := context_dict _ _ _ _ _).
  destruct (execute_without_actions ctx (create_behavior_tree p swapped) s)
    as [b ->]; [| done].
  intros key Hkey. apply context_dict_keys.
  destruct p, swapped; cbn in Hkey;
    repeat (apply elem_of_cons in Hkey as [-> | Hkey];
            [repeat first [apply list_elem_of_here
                          | apply list_elem_of_further] |]);
    by apply elem_of_nil in Hkey.
Qed.

(** ** The nearest food *)

Lemma nearest_fold (sp : SquareCoord) (foods : list SquareCoord) :
  let dist := fun f => Z.abs (coord_x f - coord_x sp)
                       + Z.abs (coord_y f - coord_y sp) in
  forall (d0 : Z) (f0 : SquareCoord) (seen : list SquareCoord),
    dist f0 = d0 ->
    (exists l1 l2, seen = l1 ++ f0 :: l2
                   ∧ (forall g, g ∈ l1 -> d0 < dist g)
                   ∧ (forall g, g ∈ l2 -> d0 <= dist g)) ->
    exists f l1 l2,
      foldl (nearest_step sp) (Some d0, Some f0) foods = (Some (dist f), Some f)
      ∧ seen ++ foods = l1 ++ f :: l2
      ∧ (forall g, g ∈ l1 -> dist f < dist g)
      ∧ (forall g, g ∈ l2 -> dist f <= dist g).
Proof.
  intros dist. induction foods as [| food foods IH];
    intros d0 f0 seen Hd0 (l1 & l2 & Hseen & H1 & H2).
  - exists f0, l1, l2. rewrite app_nil_r, Hd0. done.
  - cbn [foldl]. unfold nearest_step at 2. cbn [fst].
    fold (dist food).
    destruct (dist food <? d0) eqn:Hlt;
      [apply Z.ltb_lt in Hlt | apply Z.ltb_ge in Hlt].
    + destruct (IH (dist food) food (seen ++ [food]) eq_refl)
        as (f & l1' & l2' & Hf & Happ & Hl1 & Hl2).
      { exists seen, []. split; [done |]. split; [| by intros ? ?%elem_of_nil].
        intros g Hg. rewrite Hseen in Hg.
        apply elem_of_app in Hg as [Hg | [-> | Hg]%elem_of_cons].
        - specialize (H1 g Hg). lia.
        - lia.
        - specialize (H2 g Hg). lia. }
      exists f, l1', l2'. rewrite <- app_assoc in Happ. done.
    + destruct (IH d0 f0 (seen ++ [food]) Hd0)
        as (f & l1' & l2' & Hf & Happ & Hl1 & Hl2).
      { exists l1, (l2 ++ [food]). rewrite Hseen, <- app_assoc.
        split; [done |]. split; [done |].
        intros g [Hg | ->%list_elem_of_singleton]%elem_of_app; [auto | lia]. }
      exists f, l1', l2'. rewrite <- app_assoc in Happ. done.
Qed.

(** [get_nearest_food] answers [None] only for an empty food list;
    otherwise it returns a food position at the least Manhattan distance
    from the snake, and among several such the first in the list. *)
Theorem get_nearest_food_spec (foods : list SquareCoord) (sp : SquareCoord) :
  let dist := fun f => Z.abs (coord_x f - coord_x sp)
                       + Z.abs (coord_y f - coord_y sp) in
  match get_nearest_food foods (Some sp) with
  | None => foods = []
  | Some f =>
      exists l1 l2,
        foods = l1 ++ f :: l2
        ∧ (forall g, g ∈ l1 -> dist f < dist g)
        ∧ (forall g, g ∈ l2 -> dist f <= dist g)
  end.
Proof.
  intros dist. destruct foods as [| f0 foods]; [done |].
  unfold get_nearest_food. cbn [foldl].
  change (nearest_step sp (None, None) f0) with (Some (dist f0), Some f0).
  destruct (nearest_fold sp foods (dist f0) f0 [f0] eq_refl)
    as (f & l1 & l2 & -> & Happ & H1 & H2).
  { exists [], []. split; [done |]. split; by intros ? ?%elem_of_nil. }
  cbn [snd]. by exists l1, l2.
Qed.

(** ** Difficulty *)

Lemma clamp_difficulty_idempotent (d : Q) :
  clamp_difficulty (clamp_difficulty d) = clamp_difficulty d.
Proof.
  unfold clamp_difficulty, py_max, py_min.
  destruct (Qlt_le_dec d 1) as [H1 | H1].
  - destruct (Qlt_le_dec (1 # 10) d) as [H2 | H2].
    + destruct (Qlt_le_dec d 1) as [_ | H3];
        [| exfalso; exact (Qlt_not_le _ _ H1 H3)].
      destruct (Qlt_le_dec (1 # 10) d) as [_ | H4];
        [done | exfalso; exact (Qlt_not_le _ _ H2 H4)].
    + done.
  - done.
Qed.

Lemma clamp_difficulty_levels (d : Q) :
  ((clamp_difficulty d < 3 # 10)%Q <-> (d < 3 # 10)%Q)
  ∧ ((7 # 10 <= clamp_difficulty d)%Q <-> (7 # 10 <= d)%Q).
Proof.
  unfold clamp_difficulty, py_max, py_min.
  destruct (Qlt_le_dec d 1) as [H1 | H1].
  - destruct (Qlt_le_dec (1 # 10) d) as [H2 | H2]; [done |].
    destruct d as [n m]. unfold Qlt, Qle in *. simpl in *. lia.
  - destruct (Qlt_le_dec (1 # 10) 1) as [_ | H2]; [| by vm_compute in H2].
    destruct d as [n m]. unfold Qlt, Qle in *. simpl in *. lia.
Qed.

(** After [set_difficulty], whatever value was passed: the difficulty
    lies in [0.1, 1], the chance of a mistake in [0, 0.9] and the
    decision delay in [0.05, 0.185]; setting the stored difficulty again
    changes nothing; and the level shown is "Easy" below 0.3, "Hard"
    from 0.7 on. *)
Theorem set_difficulty_ranges (d : Q) (a : AIAttrs) :
  let a' := set_difficulty d a in
  ((1 # 10) <= difficulty a' <= 1)%Q
  ∧ (0 <= mistake_chance a' <= 9 # 10)%Q
  ∧ ((5 # 100) <= decision_delay a' <= 185 # 1000)%Q
  ∧ set_difficulty (difficulty a') a' = a'
  ∧ (get_difficulty_level a' = "Easy" <-> (d < 3 # 10)%Q)
  ∧ (get_difficulty_level a' = "Hard" <-> (7 # 10 <= d)%Q).
Proof.
  intros a'. pose proof (clamp_difficulty_range d) as [Hlo Hhi].
  assert (Hd : difficulty a' = clamp_difficulty d) by done.
  split; [by rewrite Hd |].
  split.
  { change (mistake_chance a') with (1 - clamp_difficulty d)%Q.
    revert Hlo Hhi. generalize (clamp_difficulty d).
    intros [n m] Hlo Hhi. unfold Qle, Qminus, Qplus, Qmult, Qopp in *.
    simpl in *. lia. }
  split.
  { change (decision_delay a')
      with ((2 # 10) - clamp_difficulty d * (15 # 100))%Q.
    revert Hlo Hhi. generalize (clamp_difficulty d).
    intros [n m] Hlo Hhi. unfold Qle, Qminus, Qplus, Qmult, Qopp in *.
    simpl in *. lia. }
  split.
  { unfold set_difficulty. cbn [difficulty personality].
    unfold a', set_difficulty. cbn [difficulty personality].
    by rewrite clamp_difficulty_idempotent. }
  pose proof (clamp_difficulty_levels d) as [Heasy Hhard].
  unfold get_difficulty_level. rewrite Hd.
  destruct (Qlt_le_dec (clamp_difficulty d) (3 # 10)) as [H3 | H3].
  - split; [by split; [intros _; apply Heasy | ] |].
    split; [done |]. intros H7%Hhard. exfalso.
    apply (Qlt_irrefl (3 # 10)). eapply Qle_lt_trans; [| exact H3].
    eapply Qle_trans; [| exact H7]. by vm_compute.
  - split.
    + split.
      * by destruct (Qlt_le_dec (clamp_difficulty d) (7 # 10)).
      * intros Hlt%Heasy. exfalso. exact (Qlt_not_le _ _ Hlt H3).
    + destruct (Qlt_le_dec (clamp_difficulty d) (7 # 10)) as [H7 | H7].
      * split; [done |]. intros H%Hhard. exfalso.
        exact (Qlt_not_le _ _ H7 H).
      * split; [intros _; by apply Hhard | done].
Qed.


Lemma set_direction_to_position_approaches_witness :
  let s := Snake_init (5, 5) RIGHT "a" None in
  let r := set_direction_to_position (5, 8) s in
  if r.2
  then exists head',
         get_head (Snake_move r.1).1 = Some head'
         ∧ heuristic head' (5, 8) = heuristic (5, 5) (5, 8) - 1
  else r.1 = s
       ∧ heuristic (coord_x (5, 5) - (get_dx_dy (direction s)).1,
                    coord_y (5, 5) - (get_dx_dy (direction s)).2) (5, 8)
         = heuristic (5, 5) (5, 8) - 1.
Proof.
  apply (set_direction_to_position_approaches
           (Snake_init (5, 5) RIGHT "a" None) (5, 5) (5, 8));
    [reflexivity | discriminate].
Defined.

Lemma is_direction_safe_safe_moves_witness :
  let grid := Grid_init 10 10 in
  let s := Snake_init (5, 5) RIGHT "a" None in
  let obstacles := get_all_obstacles s [] in
  (forall d,
      is_direction_safe grid d obstacles s = true
      <-> (coord_x (5, 5) + (get_dx_dy d).1, coord_y (5, 5) + (get_dx_dy d).2)
          ∈ get_safe_moves grid (5, 5) obstacles)
  ∧ (forall n,
      n ∈ get_safe_moves grid (5, 5) obstacles ->
      exists d,
        n = (coord_x (5, 5) + (get_dx_dy d).1,
             coord_y (5, 5) + (get_dx_dy d).2)
        ∧ is_direction_safe grid d obstacles s = true).
Proof.
  apply (is_direction_safe_safe_moves (Grid_init 10 10)
           (get_all_obstacles (Snake_init (5, 5) RIGHT "a" None) [])
           (Snake_init (5, 5) RIGHT "a" None) (5, 5)).
  reflexivity.
Defined.

(** ** Leaderboard and winner *)

Lemma insert_desc_filter (v : Z) (x : string * Z) (l : list (string * Z)) :
  filter (fun e : string * Z => e.2 = v) (insert_desc x l)
  = filter (fun e : string * Z => e.2 = v) (x :: l).
Proof.
  induction l as [| y l IH]; [done |]. cbn [insert_desc].
  destruct (x.2 <? y.2) eqn:E; [| done]. apply Z.ltb_lt in E.
  rewrite filter_cons, IH, !filter_cons.
  repeat case_decide; try done; lia.
Qed.

Lemma insert_desc_perm (x : string * Z) (l : list (string * Z)) :
  insert_desc x l ≡ₚ x :: l.
Proof.
  induction l as [| y l IH]; [done |]. cbn [insert_desc].
  destruct (x.2 <? y.2); [| done]. rewrite IH. apply Permutation_swap.
Qed.

Lemma insert_desc_sorted (x : string * Z) (l : list (string * Z)) :
  StronglySorted (fun a b : string * Z => b.2 <= a.2) l ->
  StronglySorted (fun a b : string * Z => b.2 <= a.2) (insert_desc x l).
Proof.
  induction 1 as [| y l Hs IH Hy]; cbn [insert_desc].
  - repeat constructor.
  - destruct (x.2 <? y.2) eqn:E;
      [apply Z.ltb_lt in E | apply Z.ltb_ge in E].
    + constructor; [done |]. rewrite insert_desc_perm.
      constructor; [lia | done].
    + constructor; [by constructor |]. constructor; [done |].
      eapply Forall_impl; [exact Hy |]. intros z Hz. simpl in Hz. lia.
Qed.

(** The leaderboard holds the score entries, each once; the scores do
    not increase along it; and entries with the same score keep the
    order in which the snakes were added. *)
Theorem get_leaderboard_sorted (m : MultiSnakeGame) :
  get_leaderboard m ≡ₚ scores_items m
  ∧ StronglySorted (fun a b : string * Z => b.2 <= a.2) (get_leaderboard m)
  ∧ forall v : Z,
      filter (fun e : string * Z => e.2 = v) (get_leaderboard m)
      = filter (fun e : string * Z => e.2 = v) (scores_items m).
Proof.
  unfold get_leaderboard. generalize (scores_items m) as l.
  induction l as [| x l (IHp & IHs & IHf)]; [repeat split; constructor |].
  cbn [sorted_desc foldr]. fold (sorted_desc l).
  split; [by rewrite insert_desc_perm, IHp |].
  split; [by apply insert_desc_sorted |].
  intros v. rewrite insert_desc_filter, !filter_cons, IHf. done.
Qed.







(** ** Elimination and collisions between snakes *)

Lemma vacate_all_occupied (segs : list SquareCoord) (g : Grid)
    (c : SquareCoord) :
  is_occupied (foldl (fun g seg => vacate seg g) g segs) c
  = is_occupied g c && negb (bool_decide (c ∈ segs)).
Proof.
  revert g. induction segs as [| seg segs IH]; intros g; cbn [foldl].
  - rewrite bool_decide_eq_false_2 by apply not_elem_of_nil.
    by rewrite andb_true_r.
  - rewrite IH. unfold is_occupied, vacate. cbn [occupied_cells].
    destruct (decide (c = seg)) as [-> | Hne].
    + rewrite (bool_decide_eq_false_2 (seg ∈ _ ∖ _)).
      2:{ intros [_ H]%elem_of_difference. apply H. by apply elem_of_singleton. }
      rewrite (bool_decide_eq_true_2 (seg ∈ seg :: segs)) by left.
      by rewrite andb_false_r.
    + assert (Hiff : bool_decide (c ∈ occupied_cells g ∖ {[seg]})
                     = bool_decide (c ∈ occupied_cells g)).
      { apply bool_decide_ext. rewrite elem_of_difference, elem_of_singleton.
        tauto. }
      rewrite Hiff. f_equal. f_equal. apply bool_decide_ext.
      rewrite elem_of_cons. tauto.
Qed.

Lemma vacate_all_dims (segs : list SquareCoord) (g : Grid) :
  width (foldl (fun g seg => vacate seg g) g segs) = width g
  ∧ height (foldl (fun g seg => vacate seg g) g segs) = height g.
Proof.
  revert g. induction segs as [| seg segs IH]; intros g; [done |].
  cbn [foldl]. by destruct (IH (vacate seg g)) as [-> ->].
Qed.

Lemma handle_snake_elimination_eq (sid : string) (snake : Snake)
    (m : MultiSnakeGame) :
  snakes_lookup sid (snakes m) = Some snake ->
  exists m', handle_snake_elimination sid m = Returned m'
             ∧ eliminated_from sid snake m m'.
Proof.
  intros Hlk. unfold handle_snake_elimination. cbn [snakes set_active_eliminated].
  rewrite Hlk. eexists. split; [done |].
  unfold eliminated_from, get_segments. cbn.
  destruct (vacate_all_dims (segments snake) (grid m)) as [-> ->].
  repeat split; try done. intros c. apply vacate_all_occupied.
Qed.

(** Eliminating a snake: for an id of the dict the call returns; the id
    leaves the active set and enters the eliminated set; exactly the
    cells of the snake are vacated, whoever else lies on them; and the
    snake, its score and the food stay as they are.  For an unknown id
    the call raises, after nothing but the two sets could have changed. *)
Theorem handle_snake_elimination_spec (sid : string) (m : MultiSnakeGame) :
  match snakes_lookup sid (snakes m) with
  | Some snake =>
      exists m', handle_snake_elimination sid m = Returned m'
                 ∧ eliminated_from sid snake m m'
                 ∧ (sid ∉ active_snakes m') ∧ sid ∈ eliminated_snakes m'
                 ∧ forall c, c ∈ segments snake ->
                             is_occupied (grid m') c = false
  | None => handle_snake_elimination sid m = Raised
  end.
Proof.
  destruct (snakes_lookup sid (snakes m)) as [snake |] eqn:Hlk.
  - destruct (handle_snake_elimination_eq sid snake m Hlk) as (m' & E & H).
    exists m'. split; [done |]. split; [done |].
    destruct H as (_ & _ & _ & _ & Ha & He & _ & _ & Hocc).
    rewrite Ha, He. split; [| split].
    + intros [_ H]%elem_of_difference. apply H. by apply elem_of_singleton.
    + apply elem_of_union. left. by apply elem_of_singleton.
    + intros c Hc. rewrite Hocc, (bool_decide_eq_true_2 _ Hc).
      by rewrite andb_false_r.
  - unfold handle_snake_elimination. cbn [snakes set_active_eliminated].
    by rewrite Hlk.
Qed.

(** What a collision between two snakes of the dict does, mode by mode:
    SURVIVAL eliminates both; FREE_FOR_ALL eliminates the first snake
    when its head is on the collision cell, and otherwise nothing
    happens; COOPERATIVE and SCORE_RACE change nothing.  The call
    returns in every mode. *)
Theorem handle_snake_collision_modes (a b : string) (sa sb : Snake)
    (pos : SquareCoord) (m : MultiSnakeGame) :
  snakes_lookup a (snakes m) = Some sa ->
  snakes_lookup b (snakes m) = Some sb ->
  exists m',
    handle_snake_collision a b pos m = Returned m'
    ∧ match game_mode m with
      | SURVIVAL =>
          active_snakes m' = active_snakes m ∖ {[a; b]}
          ∧ eliminated_snakes m' = {[a; b]} ∪ eliminated_snakes m
          ∧ forall c, c ∈ segments sa ∨ c ∈ segments sb ->
                      is_occupied (grid m') c = false
      | FREE_FOR_ALL =>
          if bool_decide (get_head sa = Some pos)
          then eliminated_from a sa m m'
          else m' = m
      | COOPERATIVE | SCORE_RACE => m' = m
      end.
Proof.
  intros Ha Hb. unfold handle_snake_collision.
  destruct (game_mode m) eqn:Emode.
  - destruct (handle_snake_elimination_eq a sa m Ha) as (m1 & -> & H1).
    cbn [mbind outcome_bind].
    pose proof H1 as (Hs1 & _ & _ & _ & Ha1 & He1 & _ & _ & Ho1).
    rewrite <- Hs1 in Hb.
    destruct (handle_snake_elimination_eq b sb m1 Hb) as (m2 & -> & H2).
    destruct H2 as (_ & _ & _ & _ & Ha2 & He2 & _ & _ & Ho2).
    exists m2. split; [done |]. rewrite Ha2, He2, Ha1, He1.
    split; [| split].
    + apply set_eq. intros x. rewrite !elem_of_difference, elem_of_union,
        !elem_of_singleton. tauto.
    + apply set_eq. intros x. rewrite !elem_of_union, !elem_of_singleton.
      tauto.
    + intros c Hc. rewrite Ho2, Ho1.
      destruct Hc as [Hc | Hc]; rewrite (bool_decide_eq_true_2 _ Hc);
        cbn [negb]; by rewrite ?andb_false_r.
  - by exists m.
  - rewrite Ha. case_bool_decide; [| by exists m].
    destruct (handle_snake_elimination_eq a sa m Ha) as (m1 & -> & H1).
    by exists m1.
  - by exists m.
Qed.

Lemma handle_snake_collision_modes_witness :
  let m := crossing_game SURVIVAL in
  exists sa sb m',
    snakes_lookup "a" (snakes m) = Some sa
    ∧ snakes_lookup "b" (snakes m) = Some sb
    ∧ handle_snake_collision "a" "b" (6, 5) m = Returned m'
    ∧ active_snakes m' = active_snakes m ∖ {[ "a"; "b" ]}
    ∧ eliminated_snakes m' = {[ "a"; "b" ]} ∪ eliminated_snakes m
    ∧ forall c, c ∈ segments sa ∨ c ∈ segments sb ->
                is_occupied (grid m') c = false.
Proof.
  destruct (snakes_lookup "a" (snakes (crossing_game SURVIVAL)))
    as [sa |] eqn:Ea; [| by vm_compute in Ea].
  destruct (snakes_lookup "b" (snakes (crossing_game SURVIVAL)))
    as [sb |] eqn:Eb; [| by vm_compute in Eb].
  destruct (handle_snake_collision_modes "a" "b" sa sb (6, 5)
              (crossing_game SURVIVAL) Ea Eb) as (m' & E & H).
  exists sa, sb, m'. split; [done |]. split; [done |]. split; [done |].
  exact H.
Defined.

(** ** Reset *)

(** [reset_game] forgets every snake, score, food item and event and
    empties the grid, but keeps the mode, the time limit, the food
    limit and the spawn rate; afterwards every id, also one that had
    been removed or eliminated, is accepted again on any in-bounds
    start cell and begins with score 0. *)
Theorem reset_game_accepts_ids_again (m : MultiSnakeGame) (sid : string)
    (start : SquareCoord) (d : Direction) :
  let m0 := reset_game m in
  well_formed m0
  ∧ (snakes m0 = [] ∧ food_items m0 = [] ∧ collision_events m0 = [])
  ∧ count_empty_cells (grid m0) = width (grid m) * height (grid m)
  ∧ (game_mode m0, time_limit m0, max_food_items m0, food_spawn_rate m0)
    = (game_mode m, time_limit m, max_food_items m, food_spawn_rate m)
  ∧ (is_valid_position (grid m) start = true ->
     exists m1,
       add_player_snake sid start d m0 = (m1, true)
       ∧ snake_ids m1 = [sid]
       ∧ scores m1 !! sid = Some 0
       ∧ active_snakes m1 = {[sid]}
       ∧ eliminated_snakes m1 = ∅).
Proof.
  intros m0. split; [| split; [done | split; [| split; [done |]]]].
  - unfold well_formed, dict_ok, sets_ok, snake_ids. cbn.
    repeat split; try apply NoDup_nil_2; try by intros ? ?%elem_of_nil.
    all: try (intros x Hx; by apply not_elem_of_empty in Hx).
  - unfold count_empty_cells. cbn. rewrite size_empty. lia.
  - intros Hvalid. unfold add_player_snake.
    change (snakes_has sid (snakes m0)) with false. cbn iota.
    change (is_valid_position (grid m0) start)
      with (is_valid_position (grid m) start).
    rewrite Hvalid. cbn [negb]. eexists. split; [done |]. cbn.
    rewrite lookup_insert_eq. repeat split; try done.
    apply set_eq. intros x. rewrite elem_of_union, elem_of_singleton.
    split; [intros [? | H]; [done | by apply not_elem_of_empty in H] | by left].
Qed.

(** ** One tick: who is concerned, and what stays on the board *)

Lemma is_valid_position_dims (g g' : Grid) (c : SquareCoord) :
  width g' = width g -> height g' = height g ->
  is_valid_position g' c = is_valid_position g c.
Proof. unfold is_valid_position. by intros -> ->. Qed.

Lemma tick_step_refl (A : gset string) (m : MultiSnakeGame) : tick_step A m m.
Proof. by repeat split. Qed.

Lemma tick_step_trans (A : gset string) (m1 m2 m3 : MultiSnakeGame) :
  tick_step A m1 m2 -> tick_step A m2 m3 -> tick_step A m1 m3.
Proof.
  intros (Hw1 & Hh1 & Ha1 & Hu1 & Hb1 & Hf1) (Hw2 & Hh2 & Ha2 & Hu2 & Hb2 & Hf2).
  split; [congruence |]. split; [congruence |].
  split; [by etrans |]. split; [| by auto].
  intros u Hu. destruct (Hu1 u Hu) as [<- <-]. by apply Hu2.
Qed.

Lemma tick_loop_refl (A : gset string)
    (acc : MultiSnakeGame * list CollisionEvent) :
  tick_loop A acc acc.
Proof. split; [apply tick_step_refl | done]. Qed.

Lemma tick_loop_trans (A : gset string)
    (a1 a2 a3 : MultiSnakeGame * list CollisionEvent) :
  tick_loop A a1 a2 -> tick_loop A a2 a3 -> tick_loop A a1 a3.
Proof.
  intros [H1 E1] [H2 E2]. split; [by eapply tick_step_trans | auto].
Qed.

Lemma frame_step_refl (m : MultiSnakeGame) : frame_step m m.
Proof. by repeat split. Qed.

Lemma frame_step_trans (m1 m2 m3 : MultiSnakeGame) :
  frame_step m1 m2 -> frame_step m2 m3 -> frame_step m1 m3.
Proof.
  intros (? & ? & ? & ? & ? & ?) (? & ? & ? & ? & ? & ?).
  repeat split; try congruence. by etrans.
Qed.

Lemma frame_step_tick (A : gset string) (m m' : MultiSnakeGame) :
  frame_step m m' -> tick_step A m m'.
Proof.
  intros (Hs & Hsc & Hf & Hw & Hh & Ha).
  split; [done |]. split; [done |]. split; [done |].
  split; [by rewrite Hs, Hsc |]. split.
  - intros Hb sid s Hsid Hlk. rewrite Hs in Hlk.
    destruct (Hb sid s (Ha _ Hsid) Hlk) as (hd & ? & ?). exists hd.
    by rewrite (is_valid_position_dims _ _ _ Hw Hh).
  - intros Hb f Hin. rewrite Hf in Hin.
    rewrite (is_valid_position_dims _ _ _ Hw Hh). by apply Hb.
Qed.

Lemma handle_snake_elimination_frame (sid : string) (m : MultiSnakeGame) :
  post (fun m' => frame_step m m' ∧ sid ∉ active_snakes m')
       (handle_snake_elimination sid m).
Proof.
  destruct (snakes_lookup sid (snakes m)) as [snake |] eqn:Hlk.
  - destruct (handle_snake_elimination_eq sid snake m Hlk)
      as (m' & -> & (? & ? & ? & ? & Ha & ? & ? & ? & ?)).
    cbn [post]. split.
    + repeat split; try done. rewrite Ha. apply subseteq_difference_l. done.
    + rewrite Ha. intros [_ Hx]%elem_of_difference. apply Hx.
      by apply elem_of_singleton.
  - unfold handle_snake_elimination. cbn [snakes set_active_eliminated].
    by rewrite Hlk.
Qed.

Lemma handle_snake_collision_frame (a b : string) (pos : SquareCoord)
    (m : MultiSnakeGame) :
  post (frame_step m) (handle_snake_collision a b pos m).
Proof.
  unfold handle_snake_collision.
  destruct (game_mode m); try apply frame_step_refl.
  - eapply post_bind; [apply handle_snake_elimination_frame |].
    intros m1 [H1 _]. pose proof (handle_snake_elimination_frame b m1) as H2.
    destruct (handle_snake_elimination b m1); cbn [post] in *; try done.
    eapply frame_step_trans; [done | apply H2].
  - destruct (snakes_lookup a (snakes m)); [| done].
    case_bool_decide as Hhead; [| apply frame_step_refl].
    pose proof (handle_snake_elimination_frame a m) as He.
    destruct (handle_snake_elimination a m); cbn [post] in *; try done.
    apply He.
Qed.

Lemma handle_snake_movement_frame (sid : string) (snake : Snake)
    (tl : option SquareCoord) (m : MultiSnakeGame) :
  post (fun r : MultiSnakeGame * list CollisionEvent =>
          frame_step m r.1
          ∧ Forall (fun e => ev_snake_id e = sid) r.2
          ∧ (sid ∈ active_snakes r.1 ->
             forall hd, get_head snake = Some hd ->
                        is_valid_position (grid m) hd = true))
       (handle_snake_movement sid snake tl m).
Proof.
  unfold handle_snake_movement.
  destruct (get_head snake) as [hd |];
    [| cbn [post]; split; [apply frame_step_refl | by split]].
  destruct (is_valid_position (grid m) hd) eqn:Hvalid; cbn [negb].
  2:{ pose proof (handle_snake_elimination_frame sid m) as H.
      destruct (handle_snake_elimination sid m); cbn [mbind outcome_bind post] in *;
        try done.
      destruct H as [H Hn]. split; [done |]. split; [by repeat constructor |].
      by intros Hin. }
  destruct (check_self_collision snake).
  { pose proof (handle_snake_elimination_frame sid m) as H.
    destruct (handle_snake_elimination sid m); cbn [mbind outcome_bind post] in *;
      try done.
    destruct H as [H Hn]. split; [done |]. split; [by repeat constructor |].
    by intros Hin. }
  eapply post_bind.
  - apply (post_for_each
             (fun a a' : MultiSnakeGame * list CollisionEvent =>
                frame_step a.1 a'.1
                ∧ (Forall (fun e => ev_snake_id e = sid) a.2 ->
                   Forall (fun e => ev_snake_id e = sid) a'.2))).
    + intros a. split; [apply frame_step_refl | done].
    + intros a1 a2 a3 [H1 E1] [H2 E2].
      split; [by eapply frame_step_trans | auto].
    + intros [m0 events] [k s] _. cbn [snake_collision_step].
      destruct (_ && _); [| cbn [post]; split; [apply frame_step_refl | done]].
      pose proof (handle_snake_collision_frame sid k hd m0) as H.
      destruct (handle_snake_collision sid k hd m0);
        cbn [mbind outcome_bind post] in *; try done.
      split; [done |]. cbn [snd]. intros Hev. apply Forall_app.
      split; [done |]. by repeat constructor.
  - intros [m1 events] [(Hs & Hsc & Hf & Hw & Hh & Ha) Hev]. cbn [post fst snd] in *.
    split; [| split; [by apply Hev | by intros _ ? [= <-]]].
    repeat split; try done; by destruct tl.
Qed.

Lemma snakes_lookup_alter (f : Snake -> Snake) (sid u : string)
    (l : list (string * Snake)) :
  snakes_lookup u (snakes_alter f sid l)
  = if decide (u = sid) then f <$> snakes_lookup u l else snakes_lookup u l.
Proof.
  induction l as [| [k s] l IH]; [by case_decide |].
  cbn [snakes_alter fmap list_fmap fst snd] in *.
  fold (snakes_alter f sid l). 
  destruct (decide (k = sid)) as [-> | Hk]; cbn [snakes_lookup fst snd].
  - destruct (decide (sid = u)) as [<- | Hu].
    + by rewrite decide_True.
    + rewrite IH. by rewrite (decide_False (P := u = sid)).
  - destruct (decide (k = u)) as [<- | Hu].
    + by rewrite decide_False.
    + done.
Qed.

Lemma move_step_tick (A : gset string)
    (acc : MultiSnakeGame * list CollisionEvent) (sid : string) :
  sid ∈ A -> post (tick_loop A acc) (move_step acc sid).
Proof.
  intros HA. destruct acc as [m events]. cbn [move_step].
  destruct (snakes_lookup sid (snakes m)) as [snake |] eqn:Hlk; [| done].
  destruct (Snake_move snake) as [snake' tl] eqn:Emove.
  set (m1 := set_snakes _ m).
  pose proof (handle_snake_movement_frame sid snake' tl m1) as H.
  destruct (handle_snake_movement sid snake' tl m1) as [[m2 evs] | |];
    cbn [mbind outcome_bind post fst snd] in *; try done.
  destruct H as ((Hs & Hsc & Hf & Hw & Hh & Ha) & Hev & Hhead).
  assert (Hother : forall u, u ≠ sid ->
            snakes_lookup u (snakes m2) = snakes_lookup u (snakes m)).
  { intros u Hu. rewrite Hs. unfold m1. cbn [snakes set_snakes].
    by rewrite snakes_lookup_alter, decide_False. }
  assert (Hself : snakes_lookup sid (snakes m2) = Some snake').
  { rewrite Hs. unfold m1. cbn [snakes set_snakes].
    by rewrite snakes_lookup_alter, decide_True, Hlk. }
  unfold tick_loop. cbn [fst snd]. split.
  - split; [done |]. split; [done |]. split; [done |].
    split; [| split].
    + intros u Hu. split; [| by rewrite Hsc].
      apply Hother. by intros ->.
    + intros Hb u s Hu Hlku.
      destruct (decide (u = sid)) as [-> | Hne].
      * rewrite Hself in Hlku. injection Hlku as <-.
        destruct (Hb sid snake (Ha _ Hu) Hlk) as (hd & Hhd & _).
        pose proof (head_after_move snake hd Hhd) as Hnew.
        rewrite Emove in Hnew. eexists. split; [exact Hnew |].
        rewrite (is_valid_position_dims _ _ _ Hw Hh).
        by apply (Hhead Hu).
      * rewrite (Hother u Hne) in Hlku.
        destruct (Hb u s (Ha _ Hu) Hlku) as (hd & ? & ?). exists hd.
        rewrite (is_valid_position_dims (grid m) (grid m2)); [done | | ];
          [exact Hw | exact Hh].
    + intros Hb f Hin. rewrite Hf in Hin.
      rewrite (is_valid_position_dims (grid m) (grid m2)); [| exact Hw | exact Hh].
      by apply Hb.
  - intros Hevs. apply Forall_app. split; [done |].
    eapply Forall_impl; [exact Hev |]. by intros e ->.
Qed.


Lemma update_ai_head (calls : list Direction) (s : Snake) :
  get_head (update_ai calls s) = get_head s.
Proof.
  unfold update_ai. revert s. induction calls as [| d calls IH]; intros s;
    [done |].
  cbn [foldl]. rewrite IH, set_direction_cases. by case_decide.
Qed.

Lemma update_ai_snakes_lookup (env : Env) (m : MultiSnakeGame) (u : string) :
  snakes_lookup u (snakes (update_ai_snakes env m))
  = (fun s => if bool_decide (u ∈ active_snakes m)
                 && bool_decide (is_Some (ai_attrs s))
              then update_ai (ai_calls env u) s else s)
      <$> snakes_lookup u (snakes m).
Proof.
  unfold update_ai_snakes. cbn [snakes set_snakes].
  induction (snakes m) as [| [k s] l IH]; [done |].
  cbn [fmap list_fmap fst snd] in *.
  destruct (bool_decide (k ∈ active_snakes m)
            && bool_decide (is_Some (ai_attrs s))) eqn:E;
    cbn [snakes_lookup]; destruct (decide (k = u)) as [-> | Hne];
    cbn [fmap option_fmap option_map]; by rewrite ?E.
Qed.

Lemma update_ai_snakes_tick (A : gset string) (env : Env)
    (m : MultiSnakeGame) :
  active_snakes m ⊆ A -> tick_step A m (update_ai_snakes env m).
Proof.
  intros HA. split; [done |]. split; [done |]. split; [done |].
  split; [| split; [| done]].
  - intros u Hu. split; [| done]. rewrite update_ai_snakes_lookup.
    rewrite (bool_decide_eq_false_2 (u ∈ active_snakes m)) by auto.
    by destruct (snakes_lookup u (snakes m)).
  - intros Hb u s Hu. rewrite update_ai_snakes_lookup.
    destruct (snakes_lookup u (snakes m)) as [s0 |] eqn:Hlk; [| done].
    cbn [fmap option_fmap option_map]. intros [= <-].
    destruct (Hb u s0 Hu Hlk) as (hd & Hhd & Hv). exists hd.
    split; [| done]. destruct (_ && _); [| done].
    by rewrite update_ai_head.
Qed.

Lemma update_food_tick (A : gset string) (fuel : nat) (env : Env) :
  forall (i : nat) (m : MultiSnakeGame),
    post (tick_step A m) (update_food fuel env i m).
Proof.
  induction fuel as [| fuel IH]; intros i m; cbn [update_food].
  - destruct (_ <? _); [done | apply tick_step_refl].
  - destruct (_ <? _); [| apply tick_step_refl].
    destruct (Qlt_le_dec _ _); [| apply IH].
    destruct (spawn_food (grid m) (picks env i)) as [new_food |] eqn:Es;
      [| apply IH].
    match goal with |- post _ (update_food _ _ _ ?m1) =>
      specialize (IH (S i) m1); set (m' := m1) in * end.
    destruct (update_food fuel env (S i) m') as [m2 | |]; cbn [post] in *;
      try done.
    eapply tick_step_trans; [| exact IH].
    split; [done |]. split; [done |]. split; [done |].
    split; [done |]. split; [done |].
    intros Hb f. unfold m'. cbn [food_items set_grid set_food_items grid].
    change (is_valid_position (occupy (position new_food) (grid m)) (position f))
      with (is_valid_position (grid m) (position f)).
    intros [Hf | ->%list_elem_of_singleton]%elem_of_app; [by apply Hb |].
    unfold spawn_food in Es.
    destruct (get_random_empty_cell (grid m) (picks env i)) as [c |] eqn:Ec;
      [| done].
    injection Es as <-. cbn [position].
    by destruct (get_random_empty_cell_free _ _ _ Ec).
Qed.

Lemma grow_head (s : Snake) : get_head (grow s) = get_head s.
Proof. done. Qed.

Lemma food_step_tick (A : gset string)
    (acc : MultiSnakeGame * list CollisionEvent * list nat)
    (ifood : nat * Food) :
  post (fun acc' : MultiSnakeGame * list CollisionEvent * list nat =>
          active_snakes acc.1.1 ⊆ A ->
          tick_step A acc.1.1 acc'.1.1
          ∧ (tick_events A acc.1.2 -> tick_events A acc'.1.2))
       (food_step acc ifood).
Proof.
  destruct acc as [[m events] rm], ifood as [i food]. cbn [food_step fst snd].
  destruct (find_eater m food) as [[sid s] |] eqn:E;
    [| cbn [post fst snd]; intros _; split; [apply tick_step_refl | done]].
  apply find_eater_elem in E as (_ & Hact & _).
  cbn [scores set_snakes].
  destruct (scores m !! sid) as [sc |]; [| done].
  cbn [post fst snd]. intros HA. split.
  - split; [done |]. split; [done |]. split; [done |].
    split; [| split; [| done]].
    + intros u Hu. assert (Hne : u ≠ sid) by (intros ->; auto).
      cbn [snakes scores set_scores set_snakes].
      rewrite snakes_lookup_alter, decide_False by done.
      by rewrite lookup_insert_ne.
    + intros Hb u s' Hu. cbn [snakes scores set_scores set_snakes].
      rewrite snakes_lookup_alter.
      destruct (decide (u = sid)) as [-> | Hne]; [| by apply Hb].
      destruct (snakes_lookup sid (snakes m)) as [s0 |] eqn:Hlk; [| done].
      cbn [fmap option_fmap option_map]. intros [= <-].
      rewrite grow_head. by apply (Hb sid).
  - intros Hev. apply Forall_app. split; [done |].
    repeat constructor. cbn [ev_snake_id]. auto.
Qed.

Lemma remove_ref_elem (i : nat) (l : list (nat * Food)) (x : nat * Food) :
  x ∈ remove_ref i l -> x ∈ l.
Proof.
  induction l as [| [j f] l IH]; [done |]. cbn [remove_ref].
  destruct (decide (j = i)); [by right |].
  intros [-> | H]%elem_of_cons; [left | right; auto].
Qed.

Lemma remove_eaten_tick (acc : list (nat * Food) * Grid) (i : nat) :
  post (fun acc' : list (nat * Food) * Grid =>
          (forall x, x ∈ acc'.1 -> x ∈ acc.1)
          ∧ width acc'.2 = width acc.2 ∧ height acc'.2 = height acc.2)
       (remove_eaten acc i).
Proof.
  destruct acc as [items g]. cbn [remove_eaten].
  destruct (list_find _ items) as [[? [? food]] |]; [| done].
  cbn [post fst snd]. split; [apply remove_ref_elem | done].
Qed.

Lemma check_food_collisions_tick (A : gset string) (m : MultiSnakeGame) :
  active_snakes m ⊆ A ->
  post (fun r : MultiSnakeGame * list CollisionEvent =>
          tick_step A m r.1 ∧ tick_events A r.2)
       (check_food_collisions m).
Proof.
  intros HA. unfold check_food_collisions.
  set (refs := imap (fun i f => (i, f)) (food_items m)).
  assert (Hrefs : forall x, x ∈ refs -> x.2 ∈ food_items m).
  { intros [i f]. unfold refs.
    intros (j & f' & [= -> ->] & Hj)%elem_of_lookup_imap.
    by eapply list_elem_of_lookup_2. }
  pose proof (post_for_each
    (fun a a' : MultiSnakeGame * list CollisionEvent * list nat =>
       active_snakes a.1.1 ⊆ A ->
       tick_step A a.1.1 a'.1.1
       ∧ (tick_events A a.1.2 -> tick_events A a'.1.2))
    food_step refs) as Hloop.
  specialize (Hloop
    (fun a _ => conj (tick_step_refl A a.1.1) (fun H => H))).
  assert (Htrans : forall s1 s2 s3 :
            MultiSnakeGame * list CollisionEvent * list nat,
    (active_snakes s1.1.1 ⊆ A ->
     tick_step A s1.1.1 s2.1.1
     ∧ (tick_events A s1.1.2 -> tick_events A s2.1.2)) ->
    (active_snakes s2.1.1 ⊆ A ->
     tick_step A s2.1.1 s3.1.1
     ∧ (tick_events A s2.1.2 -> tick_events A s3.1.2)) ->
    active_snakes s1.1.1 ⊆ A ->
    tick_step A s1.1.1 s3.1.1
    ∧ (tick_events A s1.1.2 -> tick_events A s3.1.2)).
  { intros s1 s2 s3 H12 H23 H1. destruct (H12 H1) as [T12 E12].
    assert (H2 : active_snakes s2.1.1 ⊆ A).
    { destruct T12 as (_ & _ & Hsub & _). by etrans. }
    destruct (H23 H2) as [T23 E23].
    split; [by eapply tick_step_trans | auto]. }
  specialize (Hloop Htrans (fun s a _ => food_step_tick A s a) (m, [], [])).
  destruct (for_each food_step (m, [], []) refs) as [[[m1 events] rm] | |];
    cbn [mbind outcome_bind post fst snd] in *; try done.
  destruct (Hloop HA) as [Hstep Hev].
  pose proof (post_for_each
    (fun a a' : list (nat * Food) * Grid =>
       (forall x, x ∈ a'.1 -> x ∈ a.1)
       ∧ width a'.2 = width a.2 ∧ height a'.2 = height a.2)
    remove_eaten rm) as Hrm.
  specialize (Hrm (fun a => conj (fun x H => H) (conj eq_refl eq_refl))).
  assert (Htr : forall a1 a2 a3 : list (nat * Food) * Grid,
    (forall x, x ∈ a2.1 -> x ∈ a1.1)
    ∧ width a2.2 = width a1.2 ∧ height a2.2 = height a1.2 ->
    (forall x, x ∈ a3.1 -> x ∈ a2.1)
    ∧ width a3.2 = width a2.2 ∧ height a3.2 = height a2.2 ->
    (forall x, x ∈ a3.1 -> x ∈ a1.1)
    ∧ width a3.2 = width a1.2 ∧ height a3.2 = height a1.2).
  { intros a1 a2 a3 (S1 & W1 & H1) (S2 & W2 & H2).
    split; [auto |]. split; congruence. }
  specialize (Hrm Htr (fun s a _ => remove_eaten_tick s a) (refs, grid m1)).
  destruct (for_each remove_eaten (refs, grid m1) rm) as [[items g] | |];
    cbn [mbind outcome_bind post fst snd] in *; try done.
  destruct Hrm as (Hsub & Hw & Hh).
  split; [| apply Hev; constructor].
  destruct Hstep as (Hw1 & Hh1 & Ha1 & Hu1 & Hb1 & _).
  split; [cbn [grid set_grid]; congruence |].
  split; [cbn [grid set_grid]; congruence |].
  split; [done |]. split; [done |]. split.
  - intros Hb u s Hu Hlk. destruct (Hb1 Hb u s Hu Hlk) as (hd & ? & ?).
    exists hd. split; [done |].
    cbn [grid set_grid]. by rewrite (is_valid_position_dims _ _ _ Hw Hh).
  - intros Hb f Hf. cbn [food_items set_grid set_food_items grid] in *.
    apply list_elem_of_fmap in Hf as (x & -> & Hx).
    rewrite (is_valid_position_dims (grid m) g) by congruence.
    apply Hb, Hrefs, Hsub, Hx.
Qed.

Lemma update_tick (fuel : nat) (env : Env) (dt : Q) (m : MultiSnakeGame) :
  post (fun r : MultiSnakeGame * list CollisionEvent =>
          tick_step (active_snakes m) m r.1
          ∧ tick_events (active_snakes m) r.2)
       (update fuel env dt m).
Proof.
  unfold update. set (A := active_snakes m).
  set (m1 := set_game_time _ m). set (m2 := update_ai_snakes env m1).
  assert (H2 : tick_step A m m2) by by apply (update_ai_snakes_tick A env m1).
  pose proof (post_for_each (tick_loop A) move_step
                (py_list_of_set (set_order env) (active_snakes m2))
                (tick_loop_refl A)
                (tick_loop_trans A)) as Hloop.
  specialize (Hloop (fun acc sid Hsid =>
    move_step_tick A acc sid (proj1 (py_list_of_set_elem _ _ _) Hsid))
    (m2, [])).
  destruct (for_each move_step (m2, [])
              (py_list_of_set (set_order env) (active_snakes m2)))
    as [[m3 events] | |]; cbn [mbind outcome_bind post fst snd] in *;
    try done.
  destruct Hloop as [H3 Hev3]. cbn [fst snd] in *.
  pose proof (update_food_tick A fuel env 0 m3) as H4.
  destruct (update_food fuel env 0 m3) as [m4 | |];
    cbn [mbind outcome_bind post] in *; try done.
  assert (H04 : tick_step A m m4).
  { eapply tick_step_trans; [exact H2 |].
    eapply tick_step_trans; [exact H3 | exact H4]. }
  assert (HA4 : active_snakes m4 ⊆ A) by apply H04.
  pose proof (check_food_collisions_tick A m4 HA4) as H5.
  destruct (check_food_collisions m4) as [[m5 food_events] | |];
    cbn [mbind outcome_bind post fst snd] in *; try done.
  destruct H5 as [H5 Hev5]. split.
  - eapply tick_step_trans; [exact H04 |].
    eapply tick_step_trans; [exact H5 |]. by apply frame_step_tick.
  - apply Forall_app. split; [apply Hev3; constructor | done].
Qed.

(** A tick concerns only the snakes that were active when it began:
    every event it returns is attributed to one of them, no snake
    becomes active, and every other snake of the dict, eliminated or
    removed, keeps its cells, direction, growth and score. *)
Theorem update_concerns_active_snakes (fuel : nat) (env : Env) (dt : Q)
    (m m' : MultiSnakeGame) (events : list CollisionEvent) :
  update fuel env dt m = Returned (m', events) ->
  (forall e, e ∈ events -> ev_snake_id e ∈ active_snakes m)
  ∧ active_snakes m' ⊆ active_snakes m
  ∧ forall u, u ∉ active_snakes m ->
      snakes_lookup u (snakes m') = snakes_lookup u (snakes m)
      ∧ scores m' !! u = scores m !! u.
Proof.
  intros E. pose proof (update_tick fuel env dt m) as H. rewrite E in H.
  destruct H as [(_ & _ & Ha & Hu & _) Hev]. cbn [fst snd] in *.
  split; [| by split].
  intros e He. by apply (proj1 (Forall_forall _ _) Hev).
Qed.

Lemma snakes_lookup_app (l : list (string * Snake)) (k u : string)
    (s : Snake) :
  snakes_lookup u (l ++ [(k, s)])
  = match snakes_lookup u l with
    | Some x => Some x
    | None => if decide (k = u) then Some s else None
    end.
Proof.
  induction l as [| [k' s'] l IH]; [done |]. cbn [app snakes_lookup].
  by destruct (decide (k' = u)).
Qed.

Lemma Snake_init_head (start : SquareCoord) (d : Direction) (sid : string)
    (attrs : option AIAttrs) :
  get_head (Snake_init start d sid attrs) = Some start.
Proof.
  destruct start as [x y]. unfold get_head, Snake_init, create_initial_segments.
  destruct d; cbn; do 2 f_equal; lia.
Qed.

Lemma on_board_add (m : MultiSnakeGame) (sid : string) (start : SquareCoord)
    (snake : Snake) :
  snakes_has sid (snakes m) = false ->
  is_valid_position (grid m) start = true ->
  get_head snake = Some start ->
  on_board m ->
  on_board
    (set_active_eliminated ({[sid]} ∪ active_snakes m) (eliminated_snakes m)
       (set_scores (<[sid := 0]> (scores m))
          (set_snakes (snakes m ++ [(sid, snake)]) m))).
Proof.
  intros Hnew Hvalid Hhead [Hb Hf]. split; [| done].
  intros u s. cbn. rewrite snakes_lookup_app.
  apply snakes_has_false, (not_iff_compat (snakes_lookup_is_Some _ _)) in Hnew.
  destruct (snakes_lookup u (snakes m)) as [s0 |] eqn:Hlk.
  - intros Hu [= <-]. apply (Hb u); [| done].
    apply elem_of_union in Hu as [->%elem_of_singleton | Hu]; [| done].
    exfalso. apply Hnew. by eexists.
  - case_decide as Hk; [| done]. intros _ [= <-]. by exists start.
Qed.

Lemma run_call_on_board (c : Call) (m m' : MultiSnakeGame) :
  on_board m -> run_call c m = Some m' -> on_board m'.
Proof.
  intros Hb.
  destruct c as [sid start d | sid start p d | sid | fuel env dt | t | n | r];
    cbn [run_call]; try (by intros [= <-]).
  - unfold add_player_snake. intros [= <-].
    destruct (snakes_has sid (snakes m)) eqn:Hhas; [done |].
    destruct (is_valid_position (grid m) start) eqn:Hv; [| done].
    cbn [negb fst]. apply (on_board_add m sid start); try done.
    apply Snake_init_head.
  - unfold add_ai_snake. intros [= <-].
    destruct (snakes_has sid (snakes m)) eqn:Hhas; [done |].
    destruct (is_valid_position (grid m) start) eqn:Hv; [| done].
    cbn [negb fst]. apply (on_board_add m sid start); try done.
    apply Snake_init_head.
  - unfold remove_snake. intros [= <-].
    destruct (negb _); [done |]. cbn [fst]. destruct Hb as [Hh Hf].
    split; [| done]. intros u s [Hu _]%elem_of_difference. by apply Hh.
  - pose proof (update_tick fuel env dt m) as H.
    destruct (update fuel env dt m) as [[m1 evs] | |]; try done.
    intros [= <-]. destruct H as [(_ & _ & _ & _ & Hh & Hf) _].
    destruct Hb. split; auto.
Qed.

(** In every state reached from a fresh game, every active snake has
    its head inside the grid (a snake whose head leaves it is
    eliminated within the same tick), and every food item lies inside
    the grid. *)
Theorem reachable_on_board (m : MultiSnakeGame) :
  reachable m -> on_board m.
Proof.
  intros (g & mode & cs & Hcs).
  assert (H0 : on_board (MultiSnakeGame_init g mode)).
  { split; [| by intros f ?%elem_of_nil].
    intros u s Hu. by apply not_elem_of_empty in Hu. }
  revert Hcs H0. generalize (MultiSnakeGame_init g mode) as m0.
  induction cs as [| c cs IH]; intros m0; cbn [run_calls].
  - by intros [= <-].
  - destruct (run_call c m0) as [m1 |] eqn:E; [| done].
    intros Hcs H0. apply (IH m1 Hcs). by eapply run_call_on_board.
Qed.


Lemma update_concerns_active_snakes_witness :
  exists m' events,
    update 5 env_spawn (1 # 60) removed_game = Returned (m', events)
    ∧ (forall e, e ∈ events -> ev_snake_id e ∈ active_snakes removed_game)
    ∧ active_snakes m' ⊆ active_snakes removed_game
    ∧ forall u, u ∉ active_snakes removed_game ->
        snakes_lookup u (snakes m') = snakes_lookup u (snakes removed_game)
        ∧ scores m' !! u = scores removed_game !! u.
Proof.
  destruct (update 5 env_spawn (1 # 60) removed_game)
    as [[m' events] | |] eqn:E; [| by vm_compute in E ..].
  exists m', events. split; [done |].
  exact (update_concerns_active_snakes 5 env_spawn (1 # 60) removed_game
           m' events E).
Defined.

Lemma reachable_on_board_witness :
  match run_calls [CallAddPlayer "a" (8, 5) RIGHT;
                   CallUpdate 5 env_spawn (1 # 60);
                   CallUpdate 5 env_spawn (1 # 60)]
                  (MultiSnakeGame_init (Grid_init 10 10) FREE_FOR_ALL) with
  | Some m => on_board m
  | None => False
  end.
Proof.
  destruct (run_calls _ _) as [m |] eqn:E; [| by vm_compute in E].
  apply (reachable_on_board m).
  by exists (Grid_init 10 10), FREE_FOR_ALL,
    [CallAddPlayer "a" (8, 5) RIGHT;
     CallUpdate 5 env_spawn (1 # 60);
     CallUpdate 5 env_spawn (1 # 60)].
Defined.

(** ** The food loop when there is room *)

(** When every draw of the food loop succeeds and the grid has as many
    empty cells as food items are missing, [_update_food] returns after
    one iteration per missing item: the food list is filled up to
    [max_food_items] with items on pairwise distinct cells that were in
    bounds and empty, exactly these cells become occupied, and snakes,
    scores and id sets are untouched. *)
Theorem update_food_fills (env : Env) (fuel : nat) :
  forall (i : nat) (m : MultiSnakeGame),
    0 <= width (grid m) -> 0 <= height (grid m) ->
    (forall j, (draws env j < food_spawn_rate m)%Q) ->
    max_food_items m - Z.of_nat (length (food_items m))
      <= count_empty_cells (grid m) ->
    (Z.to_nat (max_food_items m - Z.of_nat (length (food_items m))) <= fuel)%nat ->
    exists m' new,
      update_food fuel env i m = Returned m'
      ∧ food_items m' = food_items m ++ new
      ∧ length new
        = Z.to_nat (max_food_items m - Z.of_nat (length (food_items m)))
      ∧ NoDup (position <$> new)
      ∧ (forall f, f ∈ new ->
           is_valid_position (grid m) (position f) = true
           ∧ is_occupied (grid m) (position f) = false)
      ∧ occupied_cells (grid m')
        = occupied_cells (grid m) ∪ list_to_set (position <$> new)
      ∧ (snakes m', scores m', active_snakes m', eliminated_snakes m')
        = (snakes m, scores m, active_snakes m, eliminated_snakes m).
Proof.
  induction fuel as [| fuel IH]; intros i m Hw Hh Hdraw Hroom Hfuel;
    cbn [update_food];
    destruct (Z.of_nat (length (food_items m)) <? max_food_items m) eqn:Hlt;
    [apply Z.ltb_lt in Hlt; lia | apply Z.ltb_ge in Hlt | | apply Z.ltb_ge in Hlt].
  1,3: exists m, []; rewrite app_nil_r;
       replace (Z.to_nat _) with 0%nat by lia;
       split; [done |]; split; [done |]; split; [done |];
       split; [apply NoDup_nil_2 |];
       split; [by intros ? ?%elem_of_nil |];
       split; [symmetry; apply union_empty_r_L | done].
  apply Z.ltb_lt in Hlt.
  destruct (Qlt_le_dec (draws env i) (food_spawn_rate m)) as [_ | Hno];
    [| exfalso; exact (Qlt_not_le _ _ (Hdraw i) Hno)].
  unfold spawn_food.
  destruct (get_random_empty_cell (grid m) (picks env i)) as [c |] eqn:Ec.
  2:{ apply (get_random_empty_cell_full _ _ Hw Hh) in Ec.
      unfold count_empty_cells in Hroom. lia. }
  destruct (get_random_empty_cell_free _ _ _ Ec) as [Hvalid Hfree].
  set (food := mkFood c "apple" 10).
  set (m1 := set_grid _ _). cbn [position] in m1.
  assert (Hlen1 : length (food_items m1) = S (length (food_items m))).
  { unfold m1. cbn. rewrite length_app. cbn. lia. }
  assert (Hcount : count_empty_cells (grid m1) = count_empty_cells (grid m) - 1).
  { unfold m1, count_empty_cells, occupy. cbn.
    apply bool_decide_eq_false in Hfree.
    rewrite size_union by (by apply disjoint_singleton_l).
    rewrite size_singleton. lia. }
  destruct (IH (S i) m1) as (m' & new & E & Hitems & Hlen & Hnd & Hnew & Hocc & Hrest);
    try done.
  { change (max_food_items m1) with (max_food_items m). lia. }
  { change (max_food_items m1) with (max_food_items m). lia. }
  exists m', (food :: new). split; [done |].
  split; [rewrite Hitems; unfold m1; cbn; by rewrite <- app_assoc |].
  change (max_food_items m1) with (max_food_items m) in Hlen.
  split; [cbn [length]; lia |].
  assert (Hfresh : forall f, f ∈ new -> position f ≠ c).
  { intros f Hf Hpos. destruct (Hnew f Hf) as [_ Ho]. rewrite Hpos in Ho.
    unfold m1, is_occupied in Ho. cbn in Ho.
    apply bool_decide_eq_false in Ho. apply Ho, elem_of_union. left.
    by apply elem_of_singleton. }
  split; [| split; [| split]].
  - cbn [fmap list_fmap]. apply NoDup_cons. split; [| done].
    intros (f & Hpos & Hf)%list_elem_of_fmap. cbn [position] in Hpos.
    by apply (Hfresh f Hf).
  - intros f [-> | Hf]%elem_of_cons; [done |].
    destruct (Hnew f Hf) as [Hv Ho]. split; [done |].
    unfold m1, is_occupied in Ho. cbn in Ho.
    apply bool_decide_eq_false in Ho. apply bool_decide_eq_false.
    intros Hin. apply Ho, elem_of_union. by right.
  - rewrite Hocc. unfold m1. cbn. apply set_eq. intros x.
    rewrite !elem_of_union, elem_of_singleton. tauto.
  - done.
Qed.

Lemma update_food_fills_witness :
  let m := MultiSnakeGame_init (Grid_init 10 10) FREE_FOR_ALL in
  exists m' new,
    update_food 5 env_spawn 0 m = Returned m'
    ∧ food_items m' = food_items m ++ new
    ∧ length new
      = Z.to_nat (max_food_items m - Z.of_nat (length (food_items m)))
    ∧ NoDup (position <$> new)
    ∧ (forall f, f ∈ new ->
         is_valid_position (grid m) (position f) = true
         ∧ is_occupied (grid m) (position f) = false)
    ∧ occupied_cells (grid m')
      = occupied_cells (grid m) ∪ list_to_set (position <$> new)
    ∧ (snakes m', scores m', active_snakes m', eliminated_snakes m')
      = (snakes m, scores m, active_snakes m, eliminated_snakes m).
Proof.
  apply (update_food_fills env_spawn 5 0
           (MultiSnakeGame_init (Grid_init 10 10) FREE_FOR_ALL)).
  - by vm_compute.
  - by vm_compute.
  - intros j. by vm_compute.
  - by vm_compute.
  - vm_compute. lia.
Defined.

(** ** The game factory *)

Lemma is_valid_position_bounds (g : Grid) (c : SquareCoord) :
  is_valid_position g c = true
  <-> 0 <= coord_x c < width g ∧ 0 <= coord_y c < height g.
Proof.
  unfold is_valid_position.
  rewrite !andb_true_iff, !Z.leb_le, !Z.ltb_lt. lia.
Qed.

Lemma start_clamp_bounds (x w : Z) :
  5 <= w -> 2 <= Z.max 2 (Z.min x (w - 3)) <= w - 3.
Proof. lia. Qed.

Lemma get_spaced_start_positions_spec (g : Grid) (n : Z) :
  1 <= n -> 5 <= width g -> 5 <= height g ->
  exists ps,
    get_spaced_start_positions g n = Returned ps
    ∧ length ps = Z.to_nat n
    ∧ Forall (fun p : SquareCoord =>
                2 <= coord_x p <= width g - 3
                ∧ 2 <= coord_y p <= height g - 3) ps.
Proof.
  intros Hn Hw Hh. unfold get_spaced_start_positions.
  destruct (n <? 1) eqn:E; [apply Z.ltb_lt in E; lia |].
  eexists. split; [done |]. split.
  - by rewrite length_fmap, zrange_length.
  - apply Forall_fmap, Forall_forall. intros i _.
    unfold coord_x, coord_y. cbn [fst snd].
    split; by apply start_clamp_bounds.
Qed.

Lemma ai_name_inj (i j : nat) : ai_name i = ai_name j -> i = j.
Proof.
  unfold ai_name. intros H.
  apply (inj (String.app "ai_")) in H. by apply (inj pretty) in H.
Qed.

Lemma AISnake_init_segments (start : SquareCoord) (p : AIPersonality)
    (d : Q) (sid : string) (c : SquareCoord) :
  c ∈ segments (AISnake_init start RIGHT p d sid) ->
  coord_y c = coord_y start
  ∧ coord_x start - 2 <= coord_x c <= coord_x start.
Proof.
  destruct start as [x y]. cbn.
  intros Hc. repeat (apply elem_of_cons in Hc as [-> | Hc]; [cbn; lia |]).
  by apply elem_of_nil in Hc.
Qed.

Lemma add_ai_snakes_spec (personalities : nat -> AIPersonality) (d : Q)
    (ps : list SquareCoord) (game : MultiSnakeGame) (k : nat) :
  snakes game = [] -> active_snakes game = ∅ -> eliminated_snakes game = ∅ ->
  food_items game = [] ->
  (k <= length ps)%nat ->
  Forall (fun p : SquareCoord =>
            2 <= coord_x p <= width (grid game) - 3
            ∧ 2 <= coord_y p <= height (grid game) - 3) ps ->
  let game' := add_ai_snakes personalities d ps (Z.of_nat k) game in
  factory_game (grid game) (Z.of_nat k) game'
  ∧ game_mode game' = game_mode game ∧ time_limit game' = time_limit game.
Proof.
  intros Hs Ha He Hf Hk Hps. unfold add_ai_snakes. rewrite Nat2Z.id.
  unfold factory_game. rewrite Nat2Z.id.
  induction k as [| k IH].
  - cbn. unfold snake_ids. rewrite Hs, Ha, He, Hf.
    split; [| done]. do 5 (split; [done |]). by intros ? ? ?%elem_of_nil.
  - rewrite seq_S, foldl_app. cbn [foldl Nat.add].
    set (g1 := foldl _ game (seq 0 k)) in *.
    destruct IH as ((Hids & Hact & Helim & Hfood & Hgrid & Hsn) & Hmode & Hlim);
      [lia |].
    destruct (lookup_lt_is_Some_2 ps k) as [pos Hpos]; [lia |].
    rewrite Hpos.
    pose proof (proj1 (Forall_forall _ _) Hps pos
                  (list_elem_of_lookup_2 _ _ _ Hpos)) as [Hx Hy].
    unfold add_ai_snake.
    assert (Hnew : snakes_has (ai_name k) (snakes g1) = false).
    { apply snakes_has_false. fold (snake_ids g1). rewrite Hids.
      intros (j & Hj%ai_name_inj & Hin)%list_elem_of_fmap. subst j.
      apply elem_of_seq in Hin. lia. }
    rewrite Hnew.
    assert (Hvalid : is_valid_position (grid g1) pos = true).
    { rewrite Hgrid. apply is_valid_position_bounds. lia. }
    rewrite Hvalid. cbn [negb fst].
    split; [| done].
    split; [| split; [| split; [| split; [| split]]]]; cbn.
    + unfold snake_ids in *. cbn. by rewrite fmap_app, Hids, fmap_app.
    + unfold snake_ids in *. cbn. rewrite Hact, fmap_app, list_to_set_app_L.
      cbn. apply set_eq. intros x.
      rewrite !elem_of_union, elem_of_singleton, elem_of_empty. tauto.
    + done.
    + done.
    + done.
    + intros sid s [Hin | Heq%list_elem_of_singleton]%elem_of_app.
      * destruct (Hsn sid s Hin) as (? & ? & ? & Hsc & ?).
        repeat split; try done.
        rewrite lookup_insert_ne; [done |]. intros <-.
        apply snakes_has_false in Hnew. apply Hnew.
        apply list_elem_of_fmap. by exists (ai_name k, s).
      * injection Heq as -> ->. rewrite lookup_insert_eq.
        repeat split; try done. intros c Hc.
        apply AISnake_init_segments in Hc as [Hcy Hcx].
        apply is_valid_position_bounds. lia.
Qed.

(** On a grid of at least 5 x 5 cells each creator of the factory
    returns a game in its mode that holds exactly the requested AI
    snakes [ai_0], [ai_1], ...: all active, with score 0, facing right,
    and lying with all three segments inside the grid.  The score race
    also has its time limit set. *)
Theorem factory_games (g : Grid) (num_ai : nat) (limit d : Q)
    (personalities : nat -> AIPersonality) :
  5 <= width g -> 5 <= height g ->
  exists survival race ffa,
    create_survival_game g (Z.of_nat num_ai) d personalities
    = Returned survival
    ∧ create_score_race_game g limit (Z.of_nat num_ai) d personalities
      = Returned race
    ∧ create_free_for_all_game g (Z.of_nat num_ai) d personalities
      = Returned ffa
    ∧ factory_game g (Z.of_nat num_ai) survival
    ∧ factory_game g (Z.of_nat num_ai) race
    ∧ factory_game g (Z.of_nat num_ai) ffa
    ∧ game_mode survival = SURVIVAL
    ∧ game_mode race = SCORE_RACE ∧ time_limit race = Some limit
    ∧ game_mode ffa = FREE_FOR_ALL.
Proof.
  intros Hw Hh.
  destruct (get_spaced_start_positions_spec g (Z.of_nat num_ai + 1))
    as (ps & Eps & Hlen & Hps); [lia | done | done |].
  unfold create_survival_game, create_score_race_game,
    create_free_for_all_game. rewrite Eps. cbn [mbind outcome_bind].
  assert (Hk : (num_ai <= length ps)%nat) by lia.
  destruct (add_ai_snakes_spec personalities d ps
              (MultiSnakeGame_init g SURVIVAL) num_ai) as (H1 & M1 & _);
    try done.
  destruct (add_ai_snakes_spec personalities d ps
              (set_time_limit limit (MultiSnakeGame_init g SCORE_RACE)) num_ai)
    as (H2 & M2 & L2); try done.
  destruct (add_ai_snakes_spec personalities d ps
              (MultiSnakeGame_init g FREE_FOR_ALL) num_ai) as (H3 & M3 & _);
    try done.
  eexists _, _, _. do 3 (split; [reflexivity |]).
  split; [exact H1 |]. split; [exact H2 |]. split; [exact H3 |].
  split; [exact M1 |]. split; [exact M2 |]. split; [exact L2 | exact M3].
Qed.

Lemma factory_games_witness :
  exists survival race ffa,
    create_survival_game (Grid_init 20 15) (Z.of_nat 3) (1 # 2)
                         (fun _ => BALANCED)
    = Returned survival
    ∧ create_score_race_game (Grid_init 20 15) 120 (Z.of_nat 3) (1 # 2)
                             (fun _ => BALANCED)
      = Returned race
    ∧ create_free_for_all_game (Grid_init 20 15) (Z.of_nat 3) (1 # 2)
                               (fun _ => BALANCED)
      = Returned ffa
    ∧ factory_game (Grid_init 20 15) (Z.of_nat 3) survival
    ∧ factory_game (Grid_init 20 15) (Z.of_nat 3) race
    ∧ factory_game (Grid_init 20 15) (Z.of_nat 3) ffa
    ∧ game_mode survival = SURVIVAL
    ∧ game_mode race = SCORE_RACE ∧ time_limit race = Some 120%Q
    ∧ game_mode ffa = FREE_FOR_ALL.
Proof.
  apply (factory_games (Grid_init 20 15) 3 120 (1 # 2) (fun _ => BALANCED));
    by vm_compute.
Defined.

(** ** A* search: it ends, and it only gives up when there is no path *)

Lemma list_insert_swap_elem {A} (l : list A) (i j : nat) (a x y : A) :
  i ≠ j -> l !! i = Some a -> (j < length l)%nat ->
  y ∈ <[j := x]> l -> y ∈ <[i := x]> (<[j := a]> l).
Proof.
  intros Hij Hi Hjlen (k & Hk)%list_elem_of_lookup_1.
  assert (Hlen : (i < length l)%nat) by (by eapply lookup_lt_Some).
  apply list_lookup_insert_Some in Hk as [(<- & <- & Hj) | [Hjk Hk]].
  - apply (list_elem_of_lookup_2 _ i).
    apply list_lookup_insert_eq. rewrite length_insert. exact Hlen.
  - destruct (decide (k = i)) as [-> | Hki].
    + rewrite Hi in Hk. injection Hk as <-.
      apply (list_elem_of_lookup_2 _ j).
      rewrite list_lookup_insert_ne by done.
      apply list_lookup_insert_eq. exact Hjlen.
    + apply (list_elem_of_lookup_2 _ k).
      by rewrite !list_lookup_insert_ne by done.
Qed.

Section HeapKeeps.
Context {A : Type} (lt : A -> A -> bool).

Lemma siftdown_loop_keeps (n : nat) (startpos : nat) (newitem y : A) :
  forall (heap : list A) (pos : nat),
    (pos < length heap)%nat ->
    y ∈ <[pos := newitem]> heap ->
    y ∈ siftdown_loop lt n heap startpos pos newitem.
Proof.
  induction n as [| n IH]; intros heap pos Hpos Hy; cbn [siftdown_loop];
    [done |].
  destruct (startpos <? pos)%nat eqn:Hlt; [| done].
  apply Nat.ltb_lt in Hlt.
  destruct (heap !! Nat.div2 (pos - 1)) as [par |] eqn:Epar; [| done].
  destruct (lt newitem par); [| done].
  apply lookup_lt_Some in Epar as Hpar.
  apply IH; [by rewrite length_insert |].
  apply list_insert_swap_elem; [| done | done | done].
  pose proof (Nat.div2_decr (pos - 1) (pos - 1)). lia.
Qed.

Lemma siftdown_loop_length (n : nat) (startpos : nat) (newitem : A) :
  forall (heap : list A) (pos : nat),
    length (siftdown_loop lt n heap startpos pos newitem) = length heap.
Proof.
  induction n as [| n IH]; intros heap pos; cbn [siftdown_loop];
    [by rewrite length_insert |].
  destruct (startpos <? pos)%nat; [| by rewrite length_insert].
  destruct (heap !! Nat.div2 (pos - 1)); [| by rewrite length_insert].
  destruct (lt newitem a); [| by rewrite length_insert].
  by rewrite IH, length_insert.
Qed.

Lemma siftdown_keeps (heap : list A) (startpos pos : nat) (y : A) :
  y ∈ heap -> y ∈ siftdown lt heap startpos pos.
Proof.
  unfold siftdown. destruct (heap !! pos) as [newitem |] eqn:E; [| done].
  intros Hy. apply siftdown_loop_keeps; [by eapply lookup_lt_Some |].
  by rewrite list_insert_id.
Qed.

Lemma siftdown_length (heap : list A) (startpos pos : nat) :
  length (siftdown lt heap startpos pos) = length heap.
Proof.
  unfold siftdown. destruct (heap !! pos); [| done].
  apply siftdown_loop_length.
Qed.

Lemma siftup_loop_keeps (n : nat) (x y : A) :
  forall (heap : list A) (pos : nat),
    (pos < length heap)%nat ->
    y ∈ <[pos := x]> heap ->
    y ∈ <[(siftup_loop lt n heap pos).2 := x]> (siftup_loop lt n heap pos).1.
Proof.
  induction n as [| n IH]; intros heap pos Hpos Hy; cbn [siftup_loop];
    [done |].
  destruct (2 * pos + 1 <? length heap)%nat eqn:Hlt; [| done].
  set (childpos' := match heap !! (2 * pos + 1)%nat with
                    | Some l => _ | None => _ end).
  assert (Hne : childpos' ≠ pos).
  { unfold childpos'. repeat case_match; lia. }
  destruct (heap !! childpos') as [c |] eqn:Ec; [| done].
  apply lookup_lt_Some in Ec as Hc.
  apply IH; [by rewrite length_insert |]. by apply list_insert_swap_elem.
Qed.

Lemma siftup_loop_length (n : nat) :
  forall (heap : list A) (pos : nat),
    length (siftup_loop lt n heap pos).1 = length heap.
Proof.
  induction n as [| n IH]; intros heap pos; cbn [siftup_loop]; [done |].
  destruct (_ <? _)%nat; [| done].
  match goal with |- context [heap !! ?i] =>
    match i with
    | (match _ with _ => _ end) => destruct (heap !! i) as [c |]
    end
  end; [| done].
  by rewrite IH, length_insert.
Qed.

Lemma siftup_keeps (heap : list A) (pos : nat) (y : A) :
  y ∈ heap -> y ∈ siftup lt heap pos.
Proof.
  unfold siftup. destruct (heap !! pos) as [newitem |] eqn:E; [| done].
  intros Hy.
  pose proof (siftup_loop_keeps (length heap) newitem y heap pos) as Hloop.
  destruct (siftup_loop lt (length heap) heap pos) as [heap' pos'].
  apply siftdown_keeps, Hloop; [by eapply lookup_lt_Some |].
  by rewrite list_insert_id.
Qed.

Lemma siftup_length (heap : list A) (pos : nat) :
  length (siftup lt heap pos) = length heap.
Proof.
  unfold siftup. destruct (heap !! pos) as [newitem |]; [| done].
  pose proof (siftup_loop_length (length heap) heap pos) as Hlen.
  destruct (siftup_loop lt (length heap) heap pos) as [heap' pos'].
  by rewrite siftdown_length, length_insert.
Qed.

Lemma heappush_keeps (heap : list A) (item y : A) :
  y = item ∨ y ∈ heap -> y ∈ heappush lt heap item.
Proof.
  intros Hy. apply siftdown_keeps, elem_of_app.
  destruct Hy as [-> | Hy]; [right; left | by left].
Qed.

Lemma heappush_length (heap : list A) (item : A) :
  length (heappush lt heap item) = S (length heap).
Proof.
  unfold heappush. rewrite siftdown_length, length_app. cbn. lia.
Qed.

(** Popping a heap that is not empty succeeds, takes one item out and
    loses none of the others. *)
Lemma heappop_keeps (heap : list A) :
  heap ≠ [] ->
  exists heap' x,
    heappop lt heap = Some (heap', x)
    ∧ S (length heap') = length heap
    ∧ forall y, y ∈ heap -> y = x ∨ y ∈ heap'.
Proof.
  intros Hne. unfold heappop, list_pop.
  destruct (last heap) as [lastelt |] eqn:El;
    [| by apply last_None in El].
  apply last_Some in El as [front ->].
  rewrite removelast_last.
  destruct front as [| r rest].
  - exists [], lastelt. split; [done |]. split; [done |].
    intros y [-> | Hy]%elem_of_cons; [by left | by right].
  - eexists _, r. split; [done |]. split.
    + rewrite siftup_length. cbn. rewrite length_app. cbn. lia.
    + intros y [[-> | Hy]%elem_of_cons | ->%list_elem_of_singleton]%elem_of_app.
      * by left.
      * right. apply siftup_keeps. cbn. by right.
      * right. apply siftup_keeps. cbn. left.
Qed.
End HeapKeeps.

Section AStarCover.
Context (grid : Grid) (start goal : SquareCoord) (obstacles : gset (Z * Z)).

Lemma visit_neighbor_cover (st : AStar) (current n : Z * Z)
    (rest : list (Z * Z)) :
  astar_cover grid goal obstacles current (n :: rest) st ->
  astar_cover grid goal obstacles current rest
    (visit_neighbor goal obstacles current st n).
Proof.
  intros (Hq & Hcd & Hnb & Hg). unfold visit_neighbor.
  assert (Hsame : (n ∈ closed_set st ∨ n ∈ obstacles
                   ∨ is_Some (all_nodes st !! n)) ->
                  astar_cover grid goal obstacles current rest st).
  { intros Hn. split; [done |]. split; [done |]. split; [| done].
    intros c m Hc Hadj Hfree.
    destruct (Hnb c m Hc Hadj Hfree) as [[-> Hm] | Hm]; [| by right].
    apply elem_of_cons in Hm as [-> | Hm]; [| by left].
    right. destruct Hn as [Hn | [Hn | Hn]]; [by apply Hcd | | done].
    unfold free_cell in Hfree. rewrite (bool_decide_eq_true_2 _ Hn) in Hfree.
    by rewrite andb_false_r in Hfree. }
  case_bool_decide as Hclosed; [apply Hsame; by left |].
  case_bool_decide as Hobs; [apply Hsame; right; by left |]. cbn [orb].
  assert (Hgrow : forall (node : PathNode) (open' : list (Z * Z)),
    (forall p, p = n ∨ p ∈ open_set st -> p ∈ open') ->
    astar_cover grid goal obstacles current rest
      (mkAStar open' (closed_set st) (<[n := node]> (all_nodes st)))).
  { intros node open' Hopen. unfold astar_cover.
    cbn [open_set closed_set all_nodes].
    split; [| split; [| split; [| done]]].
    - intros p Hp. destruct (decide (p = n)) as [-> | Hne].
      + right. apply Hopen. by left.
      + rewrite lookup_insert_ne in Hp by done.
        destruct (Hq p Hp) as [? | ?]; [by left | right].
        apply Hopen. by right.
    - intros c Hc. destruct (decide (c = n)) as [-> | Hne];
        [by rewrite lookup_insert_eq | ].
      rewrite lookup_insert_ne by done. by apply Hcd.
    - intros c m Hc Hadj Hfree.
      destruct (decide (m = n)) as [-> | Hne];
        [right; by rewrite lookup_insert_eq |].
      rewrite lookup_insert_ne by done.
      destruct (Hnb c m Hc Hadj Hfree) as [[-> Hm] | Hm]; [| by right].
      apply elem_of_cons in Hm as [-> | Hm]; [done | by left]. }
  destruct (all_nodes st !! n) as [nn |] eqn:Enn.
  - destruct (_ <? _); [| apply Hsame; right; right; by eexists].
    apply Hgrow. intros p. apply heappush_keeps.
  - apply Hgrow. intros p. apply heappush_keeps.
Qed.

Lemma visit_neighbors_cover (current : Z * Z) (neighbors : list (Z * Z)) :
  forall st : AStar,
    astar_cover grid goal obstacles current neighbors st ->
    astar_cover grid goal obstacles current []
      (foldl (visit_neighbor goal obstacles current) st neighbors).
Proof.
  induction neighbors as [| n ns IH]; intros st Hc; [done |].
  cbn [foldl]. by apply IH, visit_neighbor_cover.
Qed.

(** The state after a cell other than the goal was popped and closed. *)
Lemma astar_cover_pop (st : AStar) (c0 current : Z * Z)
    (open' : list (Z * Z)) :
  astar_cover grid goal obstacles c0 [] st ->
  (forall p, p ∈ open_set st -> is_Some (all_nodes st !! p)) ->
  current ∈ open_set st ->
  (forall y, y ∈ open_set st -> y = current ∨ y ∈ open') ->
  current ≠ goal ->
  astar_cover grid goal obstacles current (get_neighbors grid current)
    (mkAStar open' ({[current]} ∪ closed_set st) (all_nodes st)).
Proof.
  intros (Hq & Hcd & Hnb & Hg) Hopen Hcur Hpop Hne.
  unfold astar_cover. cbn [open_set closed_set all_nodes].
  split; [| split; [| split]].
  - intros p Hp. destruct (Hq p Hp) as [Hp' | Hp'].
    + left. apply elem_of_union. by right.
    + destruct (Hpop p Hp') as [-> | ?]; [left | by right].
      apply elem_of_union. left. by apply elem_of_singleton.
  - intros c [->%elem_of_singleton | Hc]%elem_of_union; auto.
  - intros c n [->%elem_of_singleton | Hc]%elem_of_union Hadj Hfree.
    + left. split; [done |]. apply get_neighbors_elem. split; [| done].
      unfold free_cell in Hfree. by apply andb_true_iff in Hfree as [? _].
    + destruct (Hnb c n Hc Hadj Hfree) as [[_ Hn] | Hn]; [| by right].
      by apply elem_of_nil in Hn.
  - intros [->%elem_of_singleton | Hc]%elem_of_union; done.
Qed.

(** Once nothing is queued, the closed cells are closed under free
    steps; a walk from a closed cell never leaves them. *)
Lemma astar_cover_walk (st : AStar) (c0 : Z * Z) (path : list SquareCoord) :
  astar_cover grid goal obstacles c0 [] st ->
  open_set st = [] ->
  forall a,
    a ∈ closed_set st ->
    chain (a :: path) = true ->
    forallb (free_cell grid obstacles) (a :: path) = true ->
    forall c, c ∈ a :: path -> c ∈ closed_set st.
Proof.
  intros (Hq & Hcd & Hnb & Hg) Hopen.
  induction path as [| b path IH]; intros a Ha Hchain Hfree c Hc.
  - by apply list_elem_of_singleton in Hc as ->.
  - apply elem_of_cons in Hc as [-> | Hc]; [done |].
    cbn [chain] in Hchain. apply andb_true_iff in Hchain as [Hab Hchain].
    cbn [forallb] in Hfree. apply andb_true_iff in Hfree as [_ Hfree].
    apply (IH b); try done.
    pose proof Hfree as Hb. cbn [forallb] in Hb.
    apply andb_true_iff in Hb as [Hb _].
    destruct (Hnb a b Ha Hab Hb) as [[_ Hn] | Hn];
      [by apply elem_of_nil in Hn |].
    destruct (Hq b Hn) as [? | Hin]; [done |].
    rewrite Hopen in Hin. by apply elem_of_nil in Hin.
Qed.

Lemma astar_cover_no_path (st : AStar) (c0 : Z * Z) :
  astar_inv grid start obstacles st ->
  astar_cover grid goal obstacles c0 [] st ->
  open_set st = [] ->
  forall path, is_path grid obstacles start goal path = false.
Proof.
  intros Hinv Hcov Eopen path. apply not_true_is_false. unfold is_path.
  rewrite !andb_true_iff, !bool_decide_eq_true.
  intros [[[Hh Hl] Hfree] Hchain].
  destruct path as [| a path]; [done |]. injection Hh as ->.
  destruct Hinv as ((n0 & Hn0 & _) & _).
  pose proof Hcov as (Hq & _ & _ & Hg).
  assert (Hs : start ∈ closed_set st).
  { destruct (Hq start (ex_intro _ n0 Hn0)) as [? | Hin]; [done |].
    rewrite Eopen in Hin. by apply elem_of_nil in Hin. }
  apply Hg.
  apply (astar_cover_walk st c0 path Hcov Eopen start Hs Hchain Hfree).
  apply last_Some in Hl as [front ->]. apply elem_of_app. right. left.
Qed.

Lemma astar_inv_pop (st : AStar) (current : Z * Z) (open' : list (Z * Z)) :
  astar_inv grid start obstacles st ->
  (forall p, p ∈ open' -> p ∈ open_set st) ->
  astar_inv grid start obstacles
    (mkAStar open' ({[current]} ∪ closed_set st) (all_nodes st)).
Proof.
  intros (Hstart & Hpos & Hpar & Hopen & Hfree) Hsub.
  unfold astar_inv. cbn [all_nodes closed_set open_set].
  split; [done |]. split; [done |]. split; [| split; [| done]].
  - intros p node Hp Hps.
    destruct (Hpar p node Hp Hps) as (q & nq & ? & ? & ? & ?).
    exists q, nq. split; [done |]. split; [done |].
    split; [| done]. apply elem_of_union. by right.
  - intros p Hp. apply Hopen. by apply Hsub.
Qed.

Lemma astar_loop_complete (fuel : nat) :
  forall (st : AStar) (c0 : Z * Z),
    astar_inv grid start obstacles st ->
    astar_cover grid goal obstacles c0 [] st ->
    astar_loop fuel grid goal obstacles st = Returned None ->
    forall path, is_path grid obstacles start goal path = false.
Proof.
  induction fuel as [| fuel IH]; intros st c0 Hinv Hcov;
    cbn [astar_loop]; destruct (open_set st) as [| o os] eqn:Eopen;
    try done.
  - intros _. by eapply astar_cover_no_path.
  - intros _. by eapply astar_cover_no_path.
  - rewrite <- Eopen.
    destruct (heappop_keeps (node_lt (all_nodes st)) (open_set st))
      as (open' & current & Epop & _ & Hkeep); [by rewrite Eopen |].
    destruct (heappop_elem _ _ _ _ Epop) as [Hcur Hsub].
    rewrite Epop.
    destruct (decide (current = goal)) as [-> | Hne].
    { by destruct (reconstruct_path _ _ _). }
    pose proof Hinv as (_ & _ & _ & Hopen & _).
    set (st1 := mkAStar open' ({[current]} ∪ closed_set st) (all_nodes st)).
    assert (Hinv1 : astar_inv grid start obstacles st1)
      by by apply astar_inv_pop.
    assert (Hcl1 : current ∈ closed_set st1).
    { apply elem_of_union. left. by apply elem_of_singleton. }
    assert (Hnode1 : is_Some (all_nodes st1 !! current)) by by apply Hopen.
    apply (IH _ current).
    + by apply visit_neighbors_inv.
    + apply visit_neighbors_cover. by eapply astar_cover_pop.
Qed.

Lemma astar_cover_init :
  let nodes : gmap (Z * Z) PathNode :=
    {[start := PathNode_init 0 (heuristic start goal) None]} in
  astar_cover grid goal obstacles start []
    (mkAStar (heappush (node_lt nodes) [] start) ∅ nodes).
Proof.
  intros nodes. unfold astar_cover. cbn [open_set closed_set all_nodes].
  split; [| split; [| split]].
  - intros p [node [-> _]%lookup_singleton_Some]. right.
    apply heappush_keeps. by left.
  - intros c Hc. by apply not_elem_of_empty in Hc.
  - intros c n Hc. by apply not_elem_of_empty in Hc.
  - apply not_elem_of_empty.
Qed.
End AStarCover.

(** When [find_path_astar] answers that there is no path, there is
    none: no walk through in-bounds, obstacle-free cells leads from the
    start to the goal.  With the soundness of the paths it returns, the
    search finds a path exactly when one exists (though not always a
    shortest one). *)
Theorem find_path_astar_complete (fuel : nat) (grid : Grid)
    (start goal : SquareCoord) (obstacles : gset (Z * Z)) :
  find_path_astar fuel grid start goal obstacles = Returned None ->
  forall path, is_path grid obstacles start goal path = false.
Proof.
  unfold find_path_astar.
  assert (Hends : forall path,
    is_path grid obstacles start goal path = true ->
    free_cell grid obstacles start = true
    ∧ free_cell grid obstacles goal = true).
  { intros path. unfold is_path.
    rewrite !andb_true_iff, !bool_decide_eq_true.
    intros [[[Hh Hl] Hfree] _]. rewrite forallb_forall in Hfree.
    split; apply Hfree, list_elem_of_In.
    - destruct path; [done |]. injection Hh as ->. left.
    - apply last_Some in Hl as [front ->]. apply elem_of_app. right. left. }
  assert (Hguard : free_cell grid obstacles start
                   && free_cell grid obstacles goal = false ->
                   forall path, is_path grid obstacles start goal path = false).
  { intros Hg path. apply not_true_is_false. intros [Hs Hgl]%Hends.
    by rewrite Hs, Hgl in Hg. }
  unfold free_cell in Hguard.
  destruct (is_valid_position grid start) eqn:Hs; cbn [negb orb andb] in *;
    [| intros _; by apply Hguard].
  destruct (is_valid_position grid goal) eqn:Hg; cbn [negb orb andb] in *;
    [| intros _; apply Hguard; by rewrite andb_false_r].
  case_bool_decide as Hso; cbn [negb orb andb] in *;
    [intros _; by apply Hguard |].
  case_bool_decide as Hgo; cbn [negb orb andb] in *;
    [intros _; by apply Hguard |].
  intros Hloop. eapply astar_loop_complete; [| | exact Hloop].
  - apply astar_inv_init. unfold free_cell.
    by rewrite Hs, bool_decide_eq_false_2.
  - apply astar_cover_init.
Qed.

Lemma potential_sum_insert (grid : Grid) (nodes : gmap (Z * Z) PathNode)
    (n : Z * Z) (node : PathNode) (cells : list SquareCoord) :
  NoDup cells -> n ∈ cells ->
  potential_sum grid (<[n := node]> nodes) cells
  = potential_sum grid nodes cells - potential grid nodes n + g_cost node.
Proof.
  assert (Hout : forall l, n ∉ l ->
    potential_sum grid (<[n := node]> nodes) l = potential_sum grid nodes l).
  { induction l as [| c l IHl]; [done |].
    intros [Hc Hl]%not_elem_of_cons. cbn [potential_sum foldr].
    fold (potential_sum grid (<[n := node]> nodes) l).
    fold (potential_sum grid nodes l). rewrite IHl by done.
    unfold potential. by rewrite lookup_insert_ne. }
  induction cells as [| c cells IH]; [by intros _ ?%elem_of_nil |].
  intros [Hc Hnd]%NoDup_cons Hin. cbn [potential_sum foldr].
  fold (potential_sum grid (<[n := node]> nodes) cells).
  fold (potential_sum grid nodes cells).
  apply elem_of_cons in Hin as [-> | Hin].
  - rewrite Hout by done. unfold potential at 1. rewrite lookup_insert_eq. lia.
  - rewrite IH by done. unfold potential at 1.
    rewrite lookup_insert_ne by (intros ->; done).
    fold (potential grid nodes c). lia.
Qed.

Lemma potential_sum_nonneg (grid : Grid) (nodes : gmap (Z * Z) PathNode)
    (cells : list SquareCoord) :
  (forall p node, nodes !! p = Some node -> 0 <= g_cost node) ->
  0 <= potential_sum grid nodes cells.
Proof.
  intros Hpos. induction cells as [| c cells IH]; [done |].
  cbn [potential_sum foldr]. fold (potential_sum grid nodes cells).
  assert (0 <= potential grid nodes c); [| lia].
  unfold potential. destruct (nodes !! c) eqn:E; [by eapply Hpos | lia].
Qed.

Lemma potential_sum_empty (grid : Grid) (cells : list SquareCoord) :
  potential_sum grid ∅ cells
  = Z.of_nat (length (all_cells grid)) * Z.of_nat (length cells).
Proof.
  induction cells as [| c cells IH]; [cbn; lia |].
  cbn [potential_sum foldr length]. fold (potential_sum grid ∅ cells).
  rewrite IH. unfold potential. rewrite lookup_empty. lia.
Qed.

Lemma nodes_size_bound (grid : Grid) (nodes : gmap (Z * Z) PathNode) :
  (forall p, is_Some (nodes !! p) -> is_valid_position grid p = true) ->
  (size nodes <= length (all_cells grid))%nat.
Proof.
  intros Hvalid. rewrite <- size_dom.
  rewrite <- (size_list_to_set (C := gset (Z * Z)) (all_cells grid))
    by apply all_cells_NoDup.
  apply subseteq_size. intros p Hp%elem_of_dom.
  apply elem_of_list_to_set, all_cells_elem. by apply Hvalid.
Qed.

Section AStarEnds.
Context (grid : Grid) (start goal : SquareCoord) (obstacles : gset (Z * Z)).

Lemma astar_inv_valid (st : AStar) :
  astar_inv grid start obstacles st ->
  forall p, is_Some (all_nodes st !! p) -> is_valid_position grid p = true.
Proof.
  intros (_ & _ & Hpar & _ & Hfree) p [node Hp].
  assert (Hf : free_cell grid obstacles p = true).
  { destruct (decide (p = start)) as [-> | Hne]; [done |].
    by destruct (Hpar p node Hp Hne) as (? & ? & _ & _ & _ & _ & _ & ?). }
  unfold free_cell in Hf. by apply andb_true_iff in Hf as [? _].
Qed.

(** One neighbour visit does not raise the measure, and keeps the costs
    below the number of nodes. *)
Lemma visit_neighbor_measure (st : AStar) (current n : Z * Z) :
  astar_inv grid start obstacles st ->
  astar_bound st ->
  is_Some (all_nodes st !! current) ->
  n ∈ get_neighbors grid current ->
  let st' := visit_neighbor goal obstacles current st n in
  astar_bound st' ∧ astar_measure grid st' <= astar_measure grid st.
Proof.
  intros Hinv Hb [nc Hnc] [Hvalid _]%get_neighbors_elem.
  unfold visit_neighbor.
  case_bool_decide as Hclosed; [by split |].
  case_bool_decide as Hobs; [by split |]. cbn [orb].
  rewrite (node_at_lookup _ _ _ Hnc).
  pose proof (Hb current nc Hnc) as Hgc.
  assert (Hin : n ∈ all_cells grid) by by apply all_cells_elem.
  destruct (all_nodes st !! n) as [nn |] eqn:Enn.
  - destruct (g_cost nc + 1 <? g_cost nn) eqn:Hlt; [| by split].
    apply Z.ltb_lt in Hlt. pose proof (Hb n nn Enn) as Hgn. split.
    + intros p node. cbn [all_nodes].
      rewrite map_size_insert_Some by by eexists.
      destruct (decide (n = p)) as [<- | Hne].
      * rewrite lookup_insert_eq. intros [= <-]. cbn [g_cost]. lia.
      * rewrite lookup_insert_ne by done. apply Hb.
    + unfold astar_measure. cbn [open_set all_nodes].
      rewrite heappush_length, potential_sum_insert
        by (done || apply all_cells_NoDup).
      unfold potential. rewrite Enn. cbn [g_cost]. lia.
  - assert (Hsize : (S (size (all_nodes st)) <= length (all_cells grid))%nat).
    { rewrite <- (map_size_insert_None n (PathNode_init 0 0 None)) by done.
      apply nodes_size_bound. intros p Hp.
      destruct (decide (n = p)) as [<- | Hne]; [done |].
      rewrite lookup_insert_ne in Hp by done.
      by apply (astar_inv_valid st). }
    split.
    + intros p node. cbn [all_nodes].
      rewrite map_size_insert_None by done.
      destruct (decide (n = p)) as [<- | Hne].
      * rewrite lookup_insert_eq. intros [= <-]. cbn [g_cost PathNode_init].
        lia.
      * rewrite lookup_insert_ne by done. intros Hp.
        specialize (Hb p node Hp). lia.
    + unfold astar_measure. cbn [open_set all_nodes].
      rewrite heappush_length, potential_sum_insert
        by (done || apply all_cells_NoDup).
      unfold potential. rewrite Enn. cbn [g_cost PathNode_init]. lia.
Qed.

Lemma visit_neighbors_measure (current : Z * Z) (neighbors : list (Z * Z)) :
  forall st : AStar,
    (forall n, n ∈ neighbors -> n ∈ get_neighbors grid current) ->
    astar_inv grid start obstacles st ->
    astar_bound st ->
    current ∈ closed_set st ->
    is_Some (all_nodes st !! current) ->
    let st' := foldl (visit_neighbor goal obstacles current) st neighbors in
    astar_bound st' ∧ astar_measure grid st' <= astar_measure grid st.
Proof.
  induction neighbors as [| n ns IH]; intros st Hsub Hinv Hb Hcl Hcur;
    [by split |].
  cbn [foldl].
  destruct (visit_neighbor_inv grid start goal obstacles st current n
              Hinv Hcl Hcur) as (Hinv' & Hcl' & Hcur'); [apply Hsub; left |].
  destruct (visit_neighbor_measure st current n Hinv Hb Hcur)
    as [Hb' Hm']; [apply Hsub; left |].
  destruct (IH _ (fun m Hm => Hsub m (list_elem_of_further _ _ _ Hm))
              Hinv' Hb' Hcl' Hcur') as [Hb'' Hm''].
  split; [done | lia].
Qed.

(** The walk back along the parents ends: every step lowers the cost by
    one. *)
Lemma reconstruct_path_loop_returns (st : AStar) (fuel : nat) :
  astar_inv grid start obstacles st ->
  forall (p : Z * Z) (node : PathNode) (acc : list SquareCoord),
    all_nodes st !! p = Some node ->
    g_cost node < Z.of_nat fuel ->
    exists path,
      reconstruct_path_loop fuel (all_nodes st) (Some p) acc = Returned path.
Proof.
  intros (Hstart & Hpos & Hpar & _ & _).
  induction fuel as [| fuel IH]; intros p node acc Hp Hg.
  - specialize (Hpos p node Hp). lia.
  - cbn [reconstruct_path_loop]. rewrite (node_at_lookup _ _ _ Hp).
    destruct (decide (p = start)) as [-> | Hne].
    + destruct Hstart as (n0 & H0 & _ & Hp0). rewrite H0 in Hp.
      injection Hp as <-. rewrite Hp0. eexists. by destruct fuel.
    + destruct (Hpar p node Hp Hne) as (q & nq & -> & Hq & _ & Hgq & _).
      apply (IH q nq); [done | lia].
Qed.

Lemma astar_loop_returns (fuel : nat) :
  forall st : AStar,
    astar_inv grid start obstacles st ->
    astar_bound st ->
    astar_measure grid st < Z.of_nat fuel ->
    exists r, astar_loop fuel grid goal obstacles st = Returned r.
Proof.
  induction fuel as [| fuel IH]; intros st Hinv Hb Hm;
    cbn [astar_loop]; destruct (open_set st) as [| o os] eqn:Eopen;
    try by eexists.
  - exfalso. unfold astar_measure in Hm. rewrite Eopen in Hm.
    pose proof (potential_sum_nonneg grid (all_nodes st) (all_cells grid)
                  (proj1 (proj2 Hinv))) as Hsum.
    cbn [length] in Hm. lia.
  - rewrite <- Eopen.
    destruct (heappop_keeps (node_lt (all_nodes st)) (open_set st))
      as (open' & current & Epop & Hlen & Hkeep); [by rewrite Eopen |].
    destruct (heappop_elem _ _ _ _ Epop) as [Hcur Hsub].
    rewrite Epop.
    pose proof Hinv as (_ & _ & _ & Hopen & _).
    destruct (Hopen _ Hcur) as [nc Hnc].
    destruct (decide (current = goal)) as [-> | Hne].
    { unfold reconstruct_path.
      destruct (reconstruct_path_loop_returns st (S (size (all_nodes st)))
                  Hinv goal nc [] Hnc) as [path ->].
      { specialize (Hb goal nc Hnc). lia. }
      by eexists. }
    set (st1 := mkAStar open' ({[current]} ∪ closed_set st) (all_nodes st)).
    assert (Hinv1 : astar_inv grid start obstacles st1)
      by by apply astar_inv_pop.
    assert (Hcl1 : current ∈ closed_set st1).
    { apply elem_of_union. left. by apply elem_of_singleton. }
    assert (Hnode1 : is_Some (all_nodes st1 !! current)) by by eexists.
    destruct (visit_neighbors_measure current (get_neighbors grid current)
                st1 (fun n H => H) Hinv1 Hb Hcl1 Hnode1) as [Hb2 Hm2].
    apply IH; [by apply visit_neighbors_inv | done |].
    assert (astar_measure grid st1 = astar_measure grid st - 1); [| lia].
    unfold astar_measure, st1. cbn [open_set all_nodes]. lia.
Qed.
End AStarEnds.

(** [find_path_astar] always comes to an end: its loop runs at most
    2 N^2 + 2 times on a grid of N cells, whatever the obstacles, and
    the walk back along the parents of the goal node ends as well. *)
Theorem find_path_astar_terminates (fuel : nat) (grid : Grid)
    (start goal : SquareCoord) (obstacles : gset (Z * Z)) :
  let N := (Z.to_nat (width grid) * Z.to_nat (height grid))%nat in
  (2 * N * N + 2 <= fuel)%nat ->
  exists r, find_path_astar fuel grid start goal obstacles = Returned r.
Proof.
  intros N Hfuel. unfold find_path_astar.
  destruct (is_valid_position grid start) eqn:Hs; [| by eexists].
  destruct (is_valid_position grid goal) eqn:Hg; [| by eexists].
  cbn [negb orb].
  case_bool_decide as Hso; [by eexists |].
  case_bool_decide as Hgo; [by eexists |]. cbn [orb].
  apply astar_loop_returns with (start := start).
  - apply astar_inv_init. unfold free_cell.
    by rewrite Hs, bool_decide_eq_false_2.
  - intros p node. cbn [all_nodes].
    intros [-> <-]%lookup_singleton_Some.
    rewrite map_size_singleton. cbn. lia.
  - unfold astar_measure. cbn [open_set all_nodes].
    rewrite heappush_length. rewrite <- insert_empty.
    rewrite potential_sum_insert;
      [| apply all_cells_NoDup | by apply all_cells_elem].
    rewrite potential_sum_empty. unfold potential. rewrite lookup_empty.
    rewrite all_cells_length. fold N. cbn [g_cost PathNode_init length]. nia.
Qed.

Lemma find_path_astar_complete_witness :
  is_path (Grid_init 3 3) {[ (1, 2); (2, 1) ]} (0, 0) (2, 2)
          [(0, 0); (1, 0); (2, 0); (2, 1); (2, 2)] = false.
Proof.
  apply (find_path_astar_complete 20 (Grid_init 3 3) (0, 0) (2, 2)
           {[ (1, 2); (2, 1) ]}).
  by vm_compute.
Defined.

Lemma find_path_astar_terminates_witness :
  exists r,
    find_path_astar 164 (Grid_init 3 3) (0, 0) (2, 2) {[ (1, 1) ]}
    = Returned r.
Proof.
  apply (find_path_astar_terminates 164 (Grid_init 3 3) (0, 0) (2, 2)
           {[ (1, 1) ]}).
  vm_compute. lia.
Defined.

(** ** Hexagonal distance *)

(** The hexagonal distance is the largest of the three coordinate
    differences (the halving is exact); it is a metric; and the six
    neighbours of a cell are exactly the cells at distance 1. *)
Theorem get_distance_metric (a b c : HexCoord) :
  get_distance a b
  = Z.max (Z.abs (hex_q a - hex_q b))
          (Z.max (Z.abs (hex_r a - hex_r b))
                 (Z.abs (hex_q a + hex_r a - hex_q b - hex_r b)))
  ∧ get_distance a b = get_distance b a
  ∧ (get_distance a b = 0 <-> a = b)
  ∧ get_distance a c <= get_distance a b + get_distance b c
  ∧ (b ∈ get_hex_neighbors a <-> get_distance a b = 1).
Proof.
  destruct a as [aq ar], b as [bq br], c as [cq cr].
  unfold get_distance, hex_q, hex_r. cbn [fst snd].
  split; [Z.div_mod_to_equations; lia |].
  split; [Z.div_mod_to_equations; lia |].
  split.
  { split; [| intros [= -> ->]; Z.div_mod_to_equations; lia].
    intros H. f_equal; Z.div_mod_to_equations; lia. }
  split; [Z.div_mod_to_equations; lia |].
  unfold get_hex_neighbors, hex_q, hex_r. cbn [fst snd fmap list_fmap].
  split.
  - intros H.
    repeat (apply elem_of_cons in H as [[= -> ->] | H];
            [Z.div_mod_to_equations; lia |]).
    by apply elem_of_nil in H.
  - intros H.
    assert (bq - aq = 1 ∧ br - ar = 0 ∨ bq - aq = 1 ∧ br - ar = -1
            ∨ bq - aq = 0 ∧ br - ar = -1 ∨ bq - aq = -1 ∧ br - ar = 0
            ∨ bq - aq = -1 ∧ br - ar = 1 ∨ bq - aq = 0 ∧ br - ar = 1)
      as Hcases by (Z.div_mod_to_equations; lia).
    replace (bq, br) with (aq + (bq - aq), ar + (br - ar)) by (f_equal; lia).
    destruct Hcases as [[-> ->] | [[-> ->] | [[-> ->] | [[-> ->] | [[-> ->]
                       | [-> ->]]]]]];
      repeat first [apply list_elem_of_here | apply list_elem_of_further].
Qed.

(** ** The settings of a game *)

Lemma same_config_refl (m : MultiSnakeGame) : same_config m m.
Proof. by repeat split. Qed.

Lemma same_config_trans (m1 m2 m3 : MultiSnakeGame) :
  same_config m1 m2 -> same_config m2 m3 -> same_config m1 m3.
Proof.
  intros (? & ? & ? & ?) (? & ? & ? & ?). repeat split; congruence.
Qed.

Lemma handle_snake_elimination_config (sid : string) (m : MultiSnakeGame) :
  post (same_config m) (handle_snake_elimination sid m).
Proof.
  unfold handle_snake_elimination. cbn [snakes set_active_eliminated].
  by destruct (snakes_lookup sid (snakes m)).
Qed.

Lemma handle_snake_collision_config (a b : string) (pos : SquareCoord)
    (m : MultiSnakeGame) :
  post (same_config m) (handle_snake_collision a b pos m).
Proof.
  unfold handle_snake_collision.
  destruct (game_mode m); try apply same_config_refl.
  - eapply post_bind; [apply handle_snake_elimination_config |].
    intros m1 H1. pose proof (handle_snake_elimination_config b m1) as H2.
    destruct (handle_snake_elimination b m1); cbn [post] in *; try done.
    by eapply same_config_trans.
  - destruct (snakes_lookup a (snakes m)); [| done].
    case_bool_decide; [apply handle_snake_elimination_config
                      | apply same_config_refl].
Qed.

Lemma handle_snake_movement_config (sid : string) (snake : Snake)
    (tl : option SquareCoord) (m : MultiSnakeGame) :
  post (fun r : MultiSnakeGame * list CollisionEvent => same_config m r.1)
       (handle_snake_movement sid snake tl m).
Proof.
  unfold handle_snake_movement.
  destruct (get_head snake) as [hd |]; [| apply same_config_refl].
  destruct (negb _).
  { eapply post_bind; [apply handle_snake_elimination_config | done]. }
  destruct (check_self_collision snake).
  { eapply post_bind; [apply handle_snake_elimination_config | done]. }
  eapply post_bind.
  - apply (post_for_each
             (fun a a' : MultiSnakeGame * list CollisionEvent =>
                same_config a.1 a'.1));
      [intros; apply same_config_refl
      | intros ???; apply same_config_trans |].
    intros [m0 events] [k s] _. cbn [snake_collision_step].
    destruct (_ && _); [| apply same_config_refl].
    eapply post_bind; [apply handle_snake_collision_config | done].
  - by intros [m1 events] H.
Qed.

Lemma move_step_config (acc : MultiSnakeGame * list CollisionEvent)
    (sid : string) :
  post (fun acc' : MultiSnakeGame * list CollisionEvent =>
          same_config acc.1 acc'.1)
       (move_step acc sid).
Proof.
  destruct acc as [m events]. cbn [move_step].
  destruct (snakes_lookup sid (snakes m)) as [snake |]; [| done].
  destruct (Snake_move snake) as [snake' tl].
  eapply post_bind; [apply handle_snake_movement_config |].
  by intros [m2 evs] H.
Qed.

Lemma update_food_config (fuel : nat) (env : Env) :
  forall (i : nat) (m : MultiSnakeGame),
    post (same_config m) (update_food fuel env i m).
Proof.
  induction fuel as [| fuel IH]; intros i m; cbn [update_food].
  - destruct (_ <? _); [done | apply same_config_refl].
  - destruct (_ <? _); [| apply same_config_refl].
    destruct (Qlt_le_dec _ _); [| apply IH].
    destruct (spawn_food _ _); [| apply IH].
    match goal with |- post _ (update_food _ _ _ ?m1) =>
      specialize (IH (S i) m1) end.
    by destruct (update_food _ _ _ _).
Qed.

Lemma check_food_collisions_config (m : MultiSnakeGame) :
  post (fun r : MultiSnakeGame * list CollisionEvent => same_config m r.1)
       (check_food_collisions m).
Proof.
  unfold check_food_collisions. eapply post_bind.
  - apply (post_for_each
             (fun a a' : MultiSnakeGame * list CollisionEvent * list nat =>
                same_config a.1.1 a'.1.1));
      [intros; apply same_config_refl
      | intros ???; apply same_config_trans |].
    intros [[m0 events] rm] [i food] _. cbn [food_step].
    destruct (find_eater m0 food) as [[sid s] |]; [| apply same_config_refl].
    cbn [scores set_snakes]. by destruct (scores m0 !! sid).
  - intros [[m1 events] rm] H. cbn [fst] in H.
    by destruct (for_each remove_eaten _ _) as [[items g] | |].
Qed.

Lemma update_config (fuel : nat) (env : Env) (dt : Q) (m : MultiSnakeGame) :
  post (fun r : MultiSnakeGame * list CollisionEvent => same_config m r.1)
       (update fuel env dt m).
Proof.
  unfold update. eapply post_bind.
  { apply (post_for_each
             (fun a a' : MultiSnakeGame * list CollisionEvent =>
                same_config a.1 a'.1));
      [intros; apply same_config_refl
      | intros ???; apply same_config_trans |].
    intros acc sid _. apply move_step_config. }
  intros [m3 events] H3. cbn [fst] in H3.
  eapply post_bind; [apply update_food_config |]. intros m4 H4.
  eapply post_bind; [apply check_food_collisions_config |].
  intros [m5 food_events] H5. cbn [post fst] in *.
  eapply same_config_trans; [exact H3 |].
  eapply same_config_trans; [exact H4 | exact H5].
Qed.

Lemma py_clamp_unit (r : Q) : (0 <= py_max 0 (py_min 1 r) <= 1)%Q.
Proof.
  unfold py_max, py_min.
  destruct (Qlt_le_dec r 1) as [H1 | H1];
    destruct (Qlt_le_dec 0 _) as [H2 | H2]; split;
    try apply Qle_refl; try (by apply Qlt_le_weak); try done.
Qed.

Lemma run_call_config (c : Call) (m m' : MultiSnakeGame) :
  run_call c m = Some m' ->
  game_mode m' = game_mode m ∧ (config_ok m -> config_ok m').
Proof.
  destruct c as [sid start d | sid start p d | sid | fuel env dt | t | n | r];
    cbn [run_call].
  - unfold add_player_snake. intros [= <-]. by repeat case_match.
  - unfold add_ai_snake. intros [= <-]. by repeat case_match.
  - unfold remove_snake. intros [= <-]. by repeat case_match.
  - pose proof (update_config fuel env dt m) as H.
    destruct (update fuel env dt m) as [[m1 evs] | |]; try done.
    intros [= <-]. destruct H as (Hm & _ & Hf & Hr). cbn [fst] in *.
    split; [done |]. unfold config_ok. by rewrite Hf, Hr.
  - by intros [= <-].
  - intros [= <-]. split; [done |]. intros [_ Hr]. split; [| done].
    cbn. lia.
  - intros [= <-]. split; [done |]. intros [Hf _]. split; [done |].
    apply py_clamp_unit.
Qed.

(** In every state reached from a fresh game the mode is the one the
    game was created with, at least one food item is asked for, and the
    spawn rate is a probability. *)
Theorem reachable_config (g : Grid) (mode : GameMode) (cs : list Call)
    (m : MultiSnakeGame) :
  run_calls cs (MultiSnakeGame_init g mode) = Some m ->
  game_mode m = mode
  ∧ 1 <= max_food_items m
  ∧ (0 <= food_spawn_rate m <= 1)%Q.
Proof.
  assert (H0 : game_mode (MultiSnakeGame_init g mode) = mode
               ∧ config_ok (MultiSnakeGame_init g mode)).
  { split; [done |]. split; [done |]. by split. }
  revert H0. generalize (MultiSnakeGame_init g mode) as m0.
  induction cs as [| c cs IH]; intros m0 [Hm Hc]; cbn [run_calls].
  - intros [= <-]. by destruct Hc.
  - destruct (run_call c m0) as [m1 |] eqn:E; [| done].
    destruct (run_call_config c m0 m1 E) as [Hm1 Hc1].
    apply IH. split; [congruence | auto].
Qed.

Lemma reachable_config_witness :
  let m := set_food_spawn_rate 7 (set_max_food (-3)
             (MultiSnakeGame_init (Grid_init 10 10) SURVIVAL)) in
  game_mode m = SURVIVAL
  ∧ 1 <= max_food_items m
  ∧ (0 <= food_spawn_rate m <= 1)%Q.
Proof.
  apply (reachable_config (Grid_init 10 10) SURVIVAL
           [CallSetMaxFood (-3); CallSetFoodSpawnRate 7]).
  reflexivity.
Defined.

Lemma update_never_raises_witness :
  match run_calls [CallAddPlayer "a" (2, 3) RIGHT;
                   CallAddPlayer "b" (4, 5) UP;
                   CallUpdate 5 env_spawn (1 # 60)]
                  (MultiSnakeGame_init (Grid_init 10 10) COOPERATIVE) with
  | Some m => update 5 env_spawn (1 # 60) m ≠ Raised
  | None => False
  end.
Proof.
  destruct (run_calls _ _) as [m |] eqn:E; [| by vm_compute in E].
  apply (update_never_raises 5 env_spawn (1 # 60) m).
  eexists (Grid_init 10 10), COOPERATIVE, _. exact E.
Defined.

(** ** Occupancy stays on the board *)

Lemma grid_step_refl (m : MultiSnakeGame) : grid_step m m.
Proof. by repeat split. Qed.

Lemma grid_step_trans (m1 m2 m3 : MultiSnakeGame) :
  grid_step m1 m2 -> grid_step m2 m3 -> grid_step m1 m3.
Proof.
  intros (? & ? & ?) (? & ? & ?).
  split; [congruence |]. split; [congruence | auto].
Qed.

Lemma occupied_on_board_occupy (g : Grid) (c : SquareCoord) :
  is_valid_position g c = true ->
  occupied_on_board g -> occupied_on_board (occupy c g).
Proof.
  intros Hc Hg x. unfold occupy. cbn [occupied_cells].
  change (is_valid_position (mkGrid (width g) (height g) _) x)
    with (is_valid_position g x).
  intros [->%elem_of_singleton | Hx]%elem_of_union; auto.
Qed.

Lemma occupied_on_board_vacate (g : Grid) (c : SquareCoord) :
  occupied_on_board g -> occupied_on_board (vacate c g).
Proof.
  intros Hg x. unfold vacate. cbn [occupied_cells].
  change (is_valid_position (mkGrid (width g) (height g) _) x)
    with (is_valid_position g x).
  intros [Hx _]%elem_of_difference. auto.
Qed.

Lemma occupied_on_board_vacate_all (segs : list SquareCoord) (g : Grid) :
  occupied_on_board g ->
  occupied_on_board (foldl (fun g seg => vacate seg g) g segs).
Proof.
  revert g. induction segs as [| seg segs IH]; intros g Hg; [done |].
  cbn [foldl]. by apply IH, occupied_on_board_vacate.
Qed.

Lemma handle_snake_elimination_grid (sid : string) (m : MultiSnakeGame) :
  post (grid_step m) (handle_snake_elimination sid m).
Proof.
  unfold handle_snake_elimination. cbn [snakes set_active_eliminated].
  destruct (snakes_lookup sid (snakes m)) as [snake |]; [| done].
  cbn [post]. unfold grid_step. cbn [grid set_grid set_active_eliminated].
  destruct (vacate_all_dims (get_segments snake) (grid m)) as [-> ->].
  split; [done |]. split; [done |]. apply occupied_on_board_vacate_all.
Qed.

Lemma handle_snake_collision_grid (a b : string) (pos : SquareCoord)
    (m : MultiSnakeGame) :
  post (grid_step m) (handle_snake_collision a b pos m).
Proof.
  unfold handle_snake_collision.
  destruct (game_mode m); try apply grid_step_refl.
  - eapply post_bind; [apply handle_snake_elimination_grid |].
    intros m1 H1. pose proof (handle_snake_elimination_grid b m1) as H2.
    destruct (handle_snake_elimination b m1); cbn [post] in *; try done.
    by eapply grid_step_trans.
  - destruct (snakes_lookup a (snakes m)); [| done].
    case_bool_decide; [apply handle_snake_elimination_grid
                      | apply grid_step_refl].
Qed.

Lemma handle_snake_movement_grid (sid : string) (snake : Snake)
    (tl : option SquareCoord) (m : MultiSnakeGame) :
  post (fun r : MultiSnakeGame * list CollisionEvent => grid_step m r.1)
       (handle_snake_movement sid snake tl m).
Proof.
  unfold handle_snake_movement.
  destruct (get_head snake) as [hd |]; [| apply grid_step_refl].
  destruct (is_valid_position (grid m) hd) eqn:Hvalid; cbn [negb].
  2:{ eapply post_bind; [apply handle_snake_elimination_grid | done]. }
  destruct (check_self_collision snake).
  { eapply post_bind; [apply handle_snake_elimination_grid | done]. }
  eapply post_bind.
  - apply (post_for_each
             (fun a a' : MultiSnakeGame * list CollisionEvent =>
                grid_step a.1 a'.1));
      [intros; apply grid_step_refl | intros ???; apply grid_step_trans |].
    intros [m0 events] [k s] _. cbn [snake_collision_step].
    destruct (_ && _); [| apply grid_step_refl].
    eapply post_bind; [apply handle_snake_collision_grid | done].
  - intros [m1 events] (Hw & Hh & Hocc). cbn [post fst] in *.
    unfold grid_step. cbn [grid set_grid].
    split; [by destruct tl |]. split; [by destruct tl |].
    intros H0. apply occupied_on_board_occupy.
    + rewrite <- Hvalid. apply is_valid_position_dims; by destruct tl.
    + destruct tl; [apply occupied_on_board_vacate |]; auto.
Qed.

Lemma move_step_grid (acc : MultiSnakeGame * list CollisionEvent)
    (sid : string) :
  post (fun acc' : MultiSnakeGame * list CollisionEvent =>
          grid_step acc.1 acc'.1)
       (move_step acc sid).
Proof.
  destruct acc as [m events]. cbn [move_step].
  destruct (snakes_lookup sid (snakes m)) as [snake |]; [| done].
  destruct (Snake_move snake) as [snake' tl].
  eapply post_bind; [apply handle_snake_movement_grid |].
  by intros [m2 evs] H.
Qed.

Lemma update_food_grid (fuel : nat) (env : Env) :
  forall (i : nat) (m : MultiSnakeGame),
    post (grid_step m) (update_food fuel env i m).
Proof.
  induction fuel as [| fuel IH]; intros i m; cbn [update_food].
  - destruct (_ <? _); [done | apply grid_step_refl].
  - destruct (_ <? _); [| apply grid_step_refl].
    destruct (Qlt_le_dec _ _); [| apply IH].
    destruct (spawn_food (grid m) (picks env i)) as [new_food |] eqn:Es;
      [| apply IH].
    match goal with |- post _ (update_food _ _ _ ?m1) =>
      specialize (IH (S i) m1); set (m' := m1) in * end.
    destruct (update_food fuel env (S i) m') as [m2 | |]; cbn [post] in *;
      try done.
    eapply grid_step_trans; [| exact IH].
    split; [done |]. split; [done |].
    unfold m'. cbn [grid set_grid set_food_items].
    apply occupied_on_board_occupy.
    unfold spawn_food in Es.
    destruct (get_random_empty_cell (grid m) (picks env i)) as [c |] eqn:Ec;
      [| done].
    injection Es as <-. cbn [position].
    by destruct (get_random_empty_cell_free _ _ _ Ec).
Qed.

Lemma check_food_collisions_grid (m : MultiSnakeGame) :
  post (fun r : MultiSnakeGame * list CollisionEvent => grid_step m r.1)
       (check_food_collisions m).
Proof.
  unfold check_food_collisions. eapply post_bind.
  - apply (post_for_each
             (fun a a' : MultiSnakeGame * list CollisionEvent * list nat =>
                grid a'.1.1 = grid a.1.1));
      [done | intros ???; congruence |].
    intros [[m0 events] rm] [i food] _. cbn [food_step].
    destruct (find_eater m0 food) as [[sid s] |]; [| done].
    cbn [scores set_snakes]. by destruct (scores m0 !! sid).
  - intros [[m1 events] rm] H1. cbn [fst] in H1.
    eapply post_bind.
    + apply (post_for_each
               (fun a a' : list (nat * Food) * Grid =>
                  width a'.2 = width a.2 ∧ height a'.2 = height a.2
                  ∧ (occupied_on_board a.2 -> occupied_on_board a'.2))).
      * by intros.
      * intros ? ? ? (? & ? & ?) (? & ? & ?).
        split; [congruence |]. split; [congruence | auto].
      * intros [items g] i _. cbn [remove_eaten].
        destruct (list_find _ items) as [[? [? food]] |]; [| done].
        cbn [post snd]. split; [done |]. split; [done |].
        apply occupied_on_board_vacate.
    + intros [items g] (Hw & Hh & Hocc). cbn [post fst snd] in *.
      unfold grid_step. cbn [grid set_grid]. rewrite H1 in *.
      by split; [| split].
Qed.

Lemma update_grid (fuel : nat) (env : Env) (dt : Q) (m : MultiSnakeGame) :
  post (fun r : MultiSnakeGame * list CollisionEvent => grid_step m r.1)
       (update fuel env dt m).
Proof.
  unfold update. eapply post_bind.
  { apply (post_for_each
             (fun a a' : MultiSnakeGame * list CollisionEvent =>
                grid_step a.1 a'.1));
      [intros; apply grid_step_refl | intros ???; apply grid_step_trans |].
    intros acc sid _. apply move_step_grid. }
  intros [m3 events] H3. cbn [fst] in H3.
  eapply post_bind; [apply update_food_grid |]. intros m4 H4.
  eapply post_bind; [apply check_food_collisions_grid |].
  intros [m5 food_events] H5. cbn [post fst] in *.
  eapply grid_step_trans; [exact H3 |].
  eapply grid_step_trans; [exact H4 | exact H5].
Qed.

Lemma grid_step_same_grid (m m' : MultiSnakeGame) :
  grid m' = grid m -> grid_step m m'.
Proof. intros H. unfold grid_step. rewrite H. by split; [| split]. Qed.

Lemma run_call_grid (c : Call) (m m' : MultiSnakeGame) :
  run_call c m = Some m' -> grid_step m m'.
Proof.
  destruct c as [sid start d | sid start p d | sid | fuel env dt | t | n | r];
    cbn [run_call]; try (intros [= <-]; by apply grid_step_same_grid).
  - unfold add_player_snake. intros [= <-].
    repeat case_match; by apply grid_step_same_grid.
  - unfold add_ai_snake. intros [= <-].
    repeat case_match; by apply grid_step_same_grid.
  - unfold remove_snake. intros [= <-].
    repeat case_match; by apply grid_step_same_grid.
  - pose proof (update_grid fuel env dt m) as H.
    destruct (update fuel env dt m) as [[m1 evs] | |]; try done.
    by intros [= <-].
Qed.

(** With only cells of the grid marked, the empty cells are counted
    right. *)
Lemma count_empty_cells_exact (g : Grid) :
  0 <= width g -> 0 <= height g -> occupied_on_board g ->
  count_empty_cells g = Z.of_nat (length (empty_cells g)).
Proof.
  intros Hw Hh Hocc. unfold count_empty_cells.
  assert (Hsub : occupied_cells g ⊆ list_to_set (all_cells g)).
  { intros c Hc. apply elem_of_list_to_set, all_cells_elem. by apply Hocc. }
  assert (Hlen : length (empty_cells g)
                 = size (list_to_set (all_cells g) ∖ occupied_cells g)).
  { rewrite empty_cells_filter.
    rewrite <- (size_list_to_set (C := gset (Z * Z)))
      by apply NoDup_filter, all_cells_NoDup.
    f_equal. apply set_eq. intros c.
    rewrite elem_of_list_to_set, list_elem_of_filter, elem_of_difference,
      elem_of_list_to_set. tauto. }
  rewrite Hlen, size_difference by done.
  rewrite size_list_to_set by apply all_cells_NoDup.
  rewrite all_cells_length.
  apply subseteq_size in Hsub.
  rewrite size_list_to_set in Hsub by apply all_cells_NoDup.
  rewrite all_cells_length in Hsub. nia.
Qed.

(** A game started on a grid on which only cells of the grid are marked
    as occupied (an empty grid, say) keeps it so through every call:
    the grid never changes its size, snakes and food only ever mark
    in-bounds cells, [count_empty_cells] is the number of cells
    [get_random_empty_cell] chooses from, and that function returns
    [None] exactly when no cell is empty. *)
Theorem occupancy_stays_on_board (g : Grid) (mode : GameMode)
    (cs : list Call) (m : MultiSnakeGame) (pick : nat) :
  0 <= width g -> 0 <= height g -> occupied_on_board g ->
  run_calls cs (MultiSnakeGame_init g mode) = Some m ->
  width (grid m) = width g ∧ height (grid m) = height g
  ∧ occupied_on_board (grid m)
  ∧ count_empty_cells (grid m) = Z.of_nat (length (empty_cells (grid m)))
  ∧ (get_random_empty_cell (grid m) pick = None
     <-> empty_cells (grid m) = []).
Proof.
  intros Hw Hh Hocc Hcs.
  assert (Hstep : grid_step (MultiSnakeGame_init g mode) m).
  { revert Hcs. generalize (MultiSnakeGame_init g mode) as m0.
    induction cs as [| c cs IH]; intros m0; cbn [run_calls].
    - intros [= <-]. apply grid_step_refl.
    - destruct (run_call c m0) as [m1 |] eqn:E; [| done]. intros Hcs.
      eapply grid_step_trans; [by eapply run_call_grid | by apply IH]. }
  destruct Hstep as (Hw' & Hh' & Hocc'). cbn [grid MultiSnakeGame_init] in *.
  specialize (Hocc' Hocc).
  split; [done |]. split; [done |]. split; [done |].
  assert (Hcount : count_empty_cells (grid m)
                   = Z.of_nat (length (empty_cells (grid m))))
    by (apply count_empty_cells_exact; [lia | lia | done]).
  split; [done |].
  rewrite get_random_empty_cell_full by lia.
  unfold count_empty_cells in Hcount.
  destruct (empty_cells (grid m)) as [| c0 cells]; cbn [length] in *;
    split; try done; lia.
Qed.

Lemma occupancy_stays_on_board_witness :
  match run_calls [CallAddPlayer "a" (8, 5) RIGHT;
                   CallUpdate 5 env_spawn (1 # 60);
                   CallUpdate 5 env_spawn (1 # 60)]
                  (MultiSnakeGame_init (Grid_init 10 10) FREE_FOR_ALL) with
  | Some m =>
      width (grid m) = 10 ∧ height (grid m) = 10
      ∧ occupied_on_board (grid m)
      ∧ count_empty_cells (grid m) = Z.of_nat (length (empty_cells (grid m)))
      ∧ (get_random_empty_cell (grid m) 0 = None
         <-> empty_cells (grid m) = [])
  | None => False
  end.
Proof.
  destruct (run_calls _ _) as [m |] eqn:E; [| by vm_compute in E].
  eapply (occupancy_stays_on_board (Grid_init 10 10) FREE_FOR_ALL);
    [by vm_compute | by vm_compute | | exact E].
  intros c Hc. by apply not_elem_of_empty in Hc.
Defined.

(** ** Scores *)

Lemma score_step_refl (m : MultiSnakeGame) : score_step m m.
Proof. intros u. destruct (scores m !! u); [exists 0; lia | done]. Qed.

Lemma score_step_trans (m1 m2 m3 : MultiSnakeGame) :
  score_step m1 m2 -> score_step m2 m3 -> score_step m1 m3.
Proof.
  intros H12 H23 u. specialize (H12 u). specialize (H23 u).
  destruct (scores m1 !! u), (scores m2 !! u), (scores m3 !! u); try done.
  destruct H12 as (k1 & ? & ->), H23 as (k2 & ? & ->).
  exists (k1 + k2). lia.
Qed.

Lemma score_step_same_scores (m m' : MultiSnakeGame) :
  scores m' = scores m -> score_step m m'.
Proof.
  intros H u. rewrite H. destruct (scores m !! u); [exists 0; lia | done].
Qed.

Lemma move_step_scores (acc : MultiSnakeGame * list CollisionEvent)
    (sid : string) :
  post (fun acc' : MultiSnakeGame * list CollisionEvent =>
          scores acc'.1 = scores acc.1
          ∧ food_items acc'.1 = food_items acc.1)
       (move_step acc sid).
Proof.
  destruct acc as [m events]. cbn [move_step].
  destruct (snakes_lookup sid (snakes m)) as [snake |]; [| done].
  destruct (Snake_move snake) as [snake' tl].
  eapply post_bind; [apply handle_snake_movement_frame |].
  intros [m2 evs] ((_ & Hs & Hf & _) & _). cbn [post fst] in *. by split.
Qed.

Lemma update_food_scores (fuel : nat) (env : Env) :
  forall (i : nat) (m : MultiSnakeGame),
    post (fun m' => scores m' = scores m
                    ∧ (food_standard m -> food_standard m'))
         (update_food fuel env i m).
Proof.
  induction fuel as [| fuel IH]; intros i m; cbn [update_food].
  - destruct (_ <? _); [done | by split].
  - destruct (_ <? _); [| by split].
    destruct (Qlt_le_dec _ _); [| apply IH].
    destruct (spawn_food (grid m) (picks env i)) as [new_food |] eqn:Es;
      [| apply IH].
    match goal with |- post _ (update_food _ _ _ ?m1) =>
      specialize (IH (S i) m1); set (m' := m1) in * end.
    destruct (update_food fuel env (S i) m') as [m2 | |]; cbn [post] in *;
      try done.
    destruct IH as [IHs IHf]. split; [by rewrite IHs |].
    intros Hstd. apply IHf. intros f. unfold m'.
    cbn [food_items set_grid set_food_items].
    intros [Hf | ->%list_elem_of_singleton]%elem_of_app; [auto |].
    unfold spawn_food in Es.
    destruct (get_random_empty_cell (grid m) (picks env i)); [| done].
    by injection Es as <-.
Qed.

Lemma check_food_collisions_scores (m : MultiSnakeGame) :
  food_standard m ->
  post (fun r : MultiSnakeGame * list CollisionEvent =>
          score_step m r.1 ∧ food_standard r.1)
       (check_food_collisions m).
Proof.
  intros Hstd. unfold check_food_collisions. eapply post_bind.
  - apply (post_for_each
             (fun a a' : MultiSnakeGame * list CollisionEvent * list nat =>
                score_step a.1.1 a'.1.1
                ∧ food_items a'.1.1 = food_items a.1.1)).
    + intros. split; [apply score_step_refl | done].
    + intros ? ? ? [? ?] [? ?].
      split; [by eapply score_step_trans | congruence].
    + intros [[m0 events] rm] [i food] Hin. cbn [food_step].
      destruct (find_eater m0 food) as [[sid s] |];
        [| split; [apply score_step_refl | done]].
      cbn [scores set_snakes].
      destruct (scores m0 !! sid) as [sc |] eqn:Esc; [| done].
      cbn [post fst]. split; [| done].
      assert (point_value food = 10) as ->.
      { apply Hstd.
        apply elem_of_lookup_imap in Hin as (j & f' & [= -> ->] & Hj).
        by eapply list_elem_of_lookup_2. }
      intros u. cbn [scores set_scores set_snakes].
      destruct (decide (u = sid)) as [-> | Hne].
      * rewrite Esc, lookup_insert_eq. exists 1. lia.
      * rewrite lookup_insert_ne by done.
        destruct (scores m0 !! u); [exists 0; lia | done].
  - intros [[m1 events] rm] [Hsc Hfi]. cbn [fst] in *.
    eapply post_bind.
    + apply (post_for_each
               (fun a a' : list (nat * Food) * Grid =>
                  forall x, x ∈ a'.1 -> x ∈ a.1)); [done | auto |].
      intros [items g] i _. cbn [remove_eaten].
      destruct (list_find _ items) as [[? [? food]] |]; [| done].
      cbn [post fst]. intros x. apply remove_ref_elem.
    + intros [items g] Hsub. cbn [post fst snd] in *. split; [exact Hsc |].
      intros f. cbn [food_items set_grid set_food_items].
      intros ([j f'] & -> & Hx)%list_elem_of_fmap.
      apply Hsub in Hx.
      apply elem_of_lookup_imap in Hx as (j' & f'' & [= -> ->] & Hj).
      apply Hstd. by eapply list_elem_of_lookup_2.
Qed.

Lemma update_scores (fuel : nat) (env : Env) (dt : Q) (m : MultiSnakeGame) :
  food_standard m ->
  post (fun r : MultiSnakeGame * list CollisionEvent =>
          score_step m r.1 ∧ food_standard r.1)
       (update fuel env dt m).
Proof.
  intros Hstd. unfold update. eapply post_bind.
  { apply (post_for_each
             (fun a a' : MultiSnakeGame * list CollisionEvent =>
                scores a'.1 = scores a.1
                ∧ food_items a'.1 = food_items a.1));
      [done | intros ? ? ? [? ?] [? ?]; split; congruence |].
    intros acc sid _. apply move_step_scores. }
  intros [m3 events] [H3s H3f]. cbn [fst] in *.
  eapply post_bind; [apply update_food_scores |]. intros m4 [H4s H4f].
  assert (H3 : food_standard m3).
  { intros f. rewrite H3f. apply Hstd. }
  eapply post_bind; [apply check_food_collisions_scores; auto |].
  intros [m5 food_events] [H5 H5f]. cbn [post fst] in *. split; [| done].
  eapply score_step_trans; [| exact H5].
  apply score_step_same_scores. by rewrite H4s, H3s.
Qed.

Lemma run_call_scores (c : Call) (m m' : MultiSnakeGame) :
  run_call c m = Some m' ->
  food_standard m ->
  (forall sid sc, scores m !! sid = Some sc -> exists k, 0 <= k ∧ sc = 10 * k) ->
  food_standard m'
  ∧ (forall sid sc,
       scores m' !! sid = Some sc -> exists k, 0 <= k ∧ sc = 10 * k).
Proof.
  assert (Hadd : forall sid,
    (forall u sc, scores m !! u = Some sc -> exists k, 0 <= k ∧ sc = 10 * k) ->
    forall u sc, <[sid := 0]> (scores m) !! u = Some sc ->
                 exists k, 0 <= k ∧ sc = 10 * k).
  { intros sid Hm u sc. destruct (decide (u = sid)) as [-> | Hne].
    - rewrite lookup_insert_eq. intros [= <-]. exists 0. lia.
    - rewrite lookup_insert_ne by done. apply Hm. }
  destruct c as [sid start d | sid start p d | sid | fuel env dt | t | n | r];
    cbn [run_call]; try (by intros [= <-]).
  - unfold add_player_snake. intros [= <-] Hf Hs.
    repeat case_match; try done. split; [done |]. by apply Hadd.
  - unfold add_ai_snake. intros [= <-] Hf Hs.
    repeat case_match; try done. split; [done |]. by apply Hadd.
  - unfold remove_snake. intros [= <-] Hf Hs. by repeat case_match.
  - intros Hu Hf Hs. pose proof (update_scores fuel env dt m Hf) as H.
    destruct (update fuel env dt m) as [[m1 evs] | |]; try done.
    injection Hu as <-. destruct H as [Hstep Hf1]. split; [done |].
    intros u sc' Hu. specialize (Hstep u). cbn [fst] in Hstep. rewrite Hu in Hstep.
    destruct (scores m !! u) as [sc |] eqn:Eu; [| done].
    destruct Hstep as (k & Hk & ->). destruct (Hs u sc Eu) as (k0 & Hk0 & ->).
    exists (k0 + k). lia.
Qed.

(** In every state reached from a fresh game each food item is worth 10
    points and each score is 10 times a natural number; and a call of
    [update] that returns keeps the ids of the score dict and lowers no
    score: each grows by a multiple of 10, possibly 0. *)
Theorem scores_grow_by_tens (m : MultiSnakeGame) :
  reachable m ->
  (forall f, f ∈ food_items m -> point_value f = 10)
  ∧ (forall sid sc,
       scores m !! sid = Some sc -> exists k, 0 <= k ∧ sc = 10 * k)
  ∧ forall fuel env dt m' events,
      update fuel env dt m = Returned (m', events) ->
      forall sid,
        (scores m' !! sid = None <-> scores m !! sid = None)
        ∧ forall sc, scores m !! sid = Some sc ->
            exists k, 0 <= k ∧ scores m' !! sid = Some (sc + 10 * k).
Proof.
  intros (g & mode & cs & Hcs).
  assert (Hinv : food_standard m
    ∧ forall sid sc, scores m !! sid = Some sc -> exists k, 0 <= k ∧ sc = 10 * k).
  { revert Hcs.
    assert (H0 : food_standard (MultiSnakeGame_init g mode)
      ∧ forall sid sc, scores (MultiSnakeGame_init g mode) !! sid = Some sc ->
                       exists k, 0 <= k ∧ sc = 10 * k).
    { split; [by intros f Hf; apply elem_of_nil in Hf |].
      intros sid sc. cbn [scores MultiSnakeGame_init].
      by rewrite lookup_empty. }
    revert H0. generalize (MultiSnakeGame_init g mode) as m0.
    induction cs as [| c cs IH]; intros m0 H0; cbn [run_calls].
    - by intros [= <-].
    - destruct (run_call c m0) as [m1 |] eqn:E; [| done].
      apply IH. destruct H0. by eapply run_call_scores. }
  destruct Hinv as [Hf Hs]. split; [exact Hf |]. split; [exact Hs |].
  intros fuel env dt m' events Hu sid.
  pose proof (update_scores fuel env dt m Hf) as H. rewrite Hu in H.
  destruct H as [Hstep _]. specialize (Hstep sid). cbn [fst] in Hstep.
  destruct (scores m !! sid) as [sc |], (scores m' !! sid) as [sc' |];
    try done.
  destruct Hstep as (k & Hk & ->).
  split; [done |]. intros ? [= <-]. by exists k.
Qed.

Lemma scores_grow_by_tens_witness :
  let m := (add_player_snake "a" (5, 5) RIGHT
              (MultiSnakeGame_init (Grid_init 10 10) SCORE_RACE)).1 in
  (forall f, f ∈ food_items m -> point_value f = 10)
  ∧ (forall sid sc,
       scores m !! sid = Some sc -> exists k, 0 <= k ∧ sc = 10 * k)
  ∧ forall fuel env dt m' events,
      update fuel env dt m = Returned (m', events) ->
      forall sid,
        (scores m' !! sid = None <-> scores m !! sid = None)
        ∧ forall sc, scores m !! sid = Some sc ->
            exists k, 0 <= k ∧ scores m' !! sid = Some (sc + 10 * k).
Proof.
  apply scores_grow_by_tens.
  by exists (Grid_init 10 10), SCORE_RACE, [CallAddPlayer "a" (5, 5) RIGHT].
Defined.

(** ** Resets *)

Lemma py_clamp_stored (r : Q) :
  py_max 0 (py_min 1 (py_max 0 (py_min 1 r))) = py_max 0 (py_min 1 r).
Proof.
  assert (Hc : py_max 0 (py_min 1 r) = r
               ∨ py_max 0 (py_min 1 r) = 0%Q
               ∨ py_max 0 (py_min 1 r) = 1%Q).
  { unfold py_max, py_min.
    destruct (Qlt_le_dec r 1); destruct (Qlt_le_dec 0 _); auto. }
  destruct Hc as [Hc | [Hc | Hc]]; rewrite Hc; [exact Hc | done | done].
Qed.

Lemma run_call_settings (c : Call) (m m' : MultiSnakeGame) :
  run_call c m = Some m' -> settings_stored m -> settings_stored m'.
Proof.
  destruct c as [sid start d | sid start p d | sid | fuel env dt | t | n | r];
    cbn [run_call].
  - unfold add_player_snake. intros [= <-]. by repeat case_match.
  - unfold add_ai_snake. intros [= <-]. by repeat case_match.
  - unfold remove_snake. intros [= <-]. by repeat case_match.
  - pose proof (update_config fuel env dt m) as H.
    destruct (update fuel env dt m) as [[m1 evs] | |]; try done.
    intros [= <-]. destruct H as (_ & _ & Hf & Hr). cbn [fst] in *.
    unfold settings_stored. by rewrite Hf, Hr.
  - by intros [= <-].
  - intros [= <-] [_ Hr]. split; [| done]. cbn. lia.
  - intros [= <-] [Hf _]. split; [done |]. apply py_clamp_stored.
Qed.

Lemma reachable_settings (m : MultiSnakeGame) :
  reachable m -> settings_stored m.
Proof.
  intros (g & mode & cs & Hcs). revert Hcs.
  assert (H0 : settings_stored (MultiSnakeGame_init g mode)) by by split.
  revert H0. generalize (MultiSnakeGame_init g mode) as m0.
  induction cs as [| c cs IH]; intros m0 H0; cbn [run_calls].
  - by intros [= <-].
  - destruct (run_call c m0) as [m1 |] eqn:E; [| done].
    apply IH. by eapply run_call_settings.
Qed.

(** A reset leaves a state that a fresh game on the emptied grid reaches
    by its setters alone; so the states reached with resets are states
    reached without. *)
Lemma reachable_reset_game (m : MultiSnakeGame) :
  reachable m -> reachable (reset_game m).
Proof.
  intros [Hf Hr]%reachable_settings.
  exists (Grid_clear (grid m)), (game_mode m).
  destruct (time_limit m) as [t |] eqn:Et.
  - exists [CallSetTimeLimit t; CallSetMaxFood (max_food_items m);
            CallSetFoodSpawnRate (food_spawn_rate m)].
    cbn. unfold reset_game, set_food_spawn_rate. cbn.
    by rewrite Hf, Hr, Et.
  - exists [CallSetMaxFood (max_food_items m);
            CallSetFoodSpawnRate (food_spawn_rate m)].
    cbn. unfold reset_game, set_food_spawn_rate. cbn.
    by rewrite Hf, Hr, Et.
Qed.

Lemma run_calls_app (cs1 cs2 : list Call) (m m1 : MultiSnakeGame) :
  run_calls cs1 m = Some m1 ->
  run_calls (cs1 ++ cs2) m = run_calls cs2 m1.
Proof.
  revert m. induction cs1 as [| c cs1 IH]; intros m; cbn [run_calls app].
  - by intros [= <-].
  - destruct (run_call c m) as [m' |]; [apply IH | done].
Qed.

(** Every state reached by calls and resets is reached by calls alone:
    what is proved of the reachable states holds with [reset_game] among
    the operations. *)
Lemma run_ops_reachable (os : list Op) (m m' : MultiSnakeGame) :
  reachable m -> run_ops os m = Some m' -> reachable m'.
Proof.
  revert m. induction os as [| o os IH]; intros m Hr; cbn [run_ops].
  - by intros [= <-].
  - destruct o as [c |]; cbn [run_op].
    + destruct (run_call c m) as [m1 |] eqn:E; [| done].
      apply IH. destruct Hr as (g & mode & cs & Hcs).
      exists g, mode, (cs ++ [c]).
      rewrite (run_calls_app _ _ _ _ Hcs). cbn [run_calls]. by rewrite E.
    + apply IH. by apply reachable_reset_game.
Qed.

(** C10 (as stated) fails.  The id "a" is added and removed, and
    [remove_snake] returns true; adding "a" is then refused; but after
    [reset_game], which empties the snake dict, both [add_player_snake]
    and [add_ai_snake] accept "a" again, and it is active with
    score 0. *)
Lemma removed_id_reused_after_reset :
  remove_snake "a"
    (add_player_snake "a" (5, 5) RIGHT
       (MultiSnakeGame_init (Grid_init 10 10) SURVIVAL)).1
  = (removed_game, true)
  ∧ (add_player_snake "a" (3, 3) LEFT removed_game).2 = false
  ∧ run_ops [OpReset; OpCall (CallAddPlayer "a" (3, 3) LEFT)] removed_game
    = Some (add_player_snake "a" (3, 3) LEFT (reset_game removed_game)).1
  ∧ (exists m, add_player_snake "a" (3, 3) LEFT (reset_game removed_game)
               = (m, true)
               ∧ snake_ids m = ["a"]
               ∧ "a" ∈ active_snakes m
               ∧ scores m !! "a" = Some 0)
  ∧ (exists m, add_ai_snake "a" (3, 3) RANDOM 1 (reset_game removed_game)
               = (m, true)
               ∧ snake_ids m = ["a"]
               ∧ "a" ∈ active_snakes m
               ∧ scores m !! "a" = Some 0).
Proof.
  split; [reflexivity |]. split; [reflexivity |]. split; [reflexivity |].
  split; eexists; (split; [reflexivity |]); cbn;
    (split; [reflexivity |]); (split; [| reflexivity]);
    apply elem_of_union_l, elem_of_singleton; reflexivity.
Qed.
